(** * The comment-anchored text patcher of [UI.py]

    A shallow embedding of [EnergyPlusAutomationUI] ([_get_active_fields],
    [execute_modification], [_save_with_text_replacement]) together with
    the parts of the Python runtime these methods rest on: [str] methods,
    the one regular expression of the patcher, text-mode file reading and
    writing. *)

From Stdlib Require Import String Ascii DecimalString ZArith List Bool Lia.
Import ListNotations.

Set Implicit Arguments.

(** ** Python strings

    A Python [str] is a sequence of Unicode code points. *)

Definition char := Z.
Definition str := list char.

(** An ASCII literal as a [str]. *)
Definition lit (s : string) : str :=
  map (fun a => Z.of_N (N_of_ascii a)) (list_ascii_of_string s).

Definition NL : char := 10%Z.
Definition CR : char := 13%Z.
Definition BANG : char := 33%Z.      (* ! *)
Definition COMMA : char := 44%Z.     (* , *)
Definition SEMI : char := 59%Z.      (* ; *)
Definition SPACE : char := 32%Z.
Definition UNDERSCORE : char := 95%Z.

Fixpoint str_eqb (a b : str) : bool :=
  match a, b with
  | [], [] => true
  | x :: a', y :: b' => (x =? y)%Z && str_eqb a' b'
  | _, _ => false
  end.

(** [c in s] for a one-character [c]. *)
Definition has_char (c : char) (s : str) : bool :=
  existsb (Z.eqb c) s.

(** [s.startswith(p)] *)
Fixpoint startswith (p s : str) : bool :=
  match p, s with
  | [], _ => true
  | x :: p', y :: s' => (x =? y)%Z && startswith p' s'
  | _ :: _, [] => false
  end.

(** [p in s] *)
Fixpoint contains (p s : str) : bool :=
  startswith p s ||
  match s with
  | [] => false
  | _ :: s' => contains p s'
  end.

(** [s.replace(c, '')] for a one-character [c]. *)
Definition remove_char (c : char) (s : str) : str :=
  filter (fun x => negb (x =? c)%Z) s.

(** [s.split(c)] for a one-character separator: never the empty list. *)
Fixpoint split (sep : char) (s : str) : list str :=
  match s with
  | [] => [[]]
  | c :: s' =>
      if (c =? sep)%Z then [] :: split sep s'
      else match split sep s' with
           | p :: ps => (c :: p) :: ps
           | [] => [[c]]
           end
  end.

(** [s.split(c, 1)]: at most one cut, at the first separator. *)
Fixpoint split_once (sep : char) (s : str) : list str :=
  match s with
  | [] => [[]]
  | c :: s' =>
      if (c =? sep)%Z then [[]; s']
      else match split_once sep s' with
           | p :: ps => (c :: p) :: ps
           | [] => [[c]]
           end
  end.

(** [s.split(c)[0]] and [s.split(c)[1]]; the second raises IndexError on
    a one-element list, which the caller excludes with [c in s]. *)
Definition item0 (l : list str) : str := nth 0 l [].
Definition item1 (l : list str) : str := nth 1 l [].

Fixpoint lstrip_by (p : char -> bool) (s : str) : str :=
  match s with
  | c :: s' => if p c then lstrip_by p s' else s
  | [] => []
  end.

Definition rstrip_by (p : char -> bool) (s : str) : str :=
  rev (lstrip_by p (rev s)).

(** [s.rstrip('\r\n')] *)
Definition rstrip_crlf (s : str) : str :=
  rstrip_by (fun c => (c =? CR)%Z || (c =? NL)%Z) s.

(** [s.find(c)]: the first index of [c], or -1. *)
Fixpoint find (c : char) (s : str) : Z :=
  match s with
  | [] => (-1)%Z
  | x :: s' =>
      if (x =? c)%Z then 0%Z
      else let r := find c s' in if (r <? 0)%Z then (-1)%Z else (r + 1)%Z
  end.

(** The slices [s[:i]] and [s[i:]], a negative [i] counting from the end. *)
Definition slice_index (i : Z) (s : str) : nat :=
  if (i <? 0)%Z then Z.to_nat (Z.of_nat (length s) + i) else Z.to_nat i.
Definition slice_to (i : Z) (s : str) : str := firstn (slice_index i s) s.
Definition slice_from (i : Z) (s : str) : str := skipn (slice_index i s) s.

(** The part of the Unicode character database the program consults:
    [str.upper], [str.lower] (which may change the length of a string),
    the white space of [str.strip] and of [\s], the decimal digits of
    [\d]. *)
Class Unicode := {
  upper : str -> str;
  lower : str -> str;
  isspace : char -> bool;
  isdigit : char -> bool
}.

(** The database restricted to ASCII; it agrees with Python on every
    string of ASCII characters. *)
Definition ascii_upper_char (c : char) : char :=
  if ((97 <=? c) && (c <=? 122))%Z then (c - 32)%Z else c.
Definition ascii_lower_char (c : char) : char :=
  if ((65 <=? c) && (c <=? 90))%Z then (c + 32)%Z else c.
Definition ascii_isspace (c : char) : bool :=
  (((9 <=? c) && (c <=? 13)) || ((28 <=? c) && (c <=? 32)))%Z.
Definition ascii_isdigit (c : char) : bool :=
  ((48 <=? c) && (c <=? 57))%Z.

#[export] Instance ascii_db : Unicode := {
  upper := map ascii_upper_char;
  lower := map ascii_lower_char;
  isspace := ascii_isspace;
  isdigit := ascii_isdigit
}.

(** [s.strip()] *)
Definition strip `{Unicode} (s : str) : str :=
  rstrip_by isspace (lstrip_by isspace s).

(** ** Dictionaries

    A Python [dict] keeps its keys in insertion order, and the patcher
    takes the first matching entry in that order: an association list
    with one entry per key, a new key appended at the end. *)

Definition dict (A : Type) := list (str * A).

Fixpoint dict_get {A} (k : str) (d : dict A) : option A :=
  match d with
  | [] => None
  | (k', v) :: d' => if str_eqb k k' then Some v else dict_get k d'
  end.

Definition dict_mem {A} (k : str) (d : dict A) : bool :=
  match dict_get k d with Some _ => true | None => false end.

Fixpoint dict_set {A} (k : str) (v : A) (d : dict A) : dict A :=
  match d with
  | [] => [(k, v)]
  | (k', v') :: d' =>
      if str_eqb k k' then (k, v) :: d' else (k', v') :: dict_set k v d'
  end.

Definition dict_get_or {A} (k : str) (dflt : A) (d : dict A) : A :=
  match dict_get k d with Some v => v | None => dflt end.

(** ** Regular expressions

    The fragment of Python's [re] that the patcher's pattern uses, with
    the matching order of a backtracking matcher: a greedy repetition
    tries the longest run first and gives characters back one by one, an
    optional part is tried before it is skipped. Repetition is over a
    character class, which is all the pattern needs. *)

Inductive re :=
| Cls (p : char -> bool)        (* one character of a class *)
| Cat (r1 r2 : re)              (* r1 r2 *)
| Opt (r : re)                  (* r? *)
| Star (p : char -> bool)       (* c* *)
| Grp (n : nat) (r : re)        (* ( r ), group n *)
| Eol.                          (* $ *)

(** [c+] *)
Definition Plus (p : char -> bool) : re := Cat (Cls p) (Star p).

Definition captures := list (nat * str).

Fixpoint star_k {R} (p : char -> bool) (s : str) (k : str -> option R)
  : option R :=
  match s with
  | c :: s' =>
      if p c then
        match star_k p s' k with
        | Some r => Some r
        | None => k s
        end
      else k s
  | [] => k []
  end.

Fixpoint re_run (r : re) (s : str) (cs : captures)
    (k : str -> captures -> option captures) : option captures :=
  match r with
  | Cls p =>
      match s with
      | c :: s' => if p c then k s' cs else None
      | [] => None
      end
  | Cat a b => re_run a s cs (fun s' cs' => re_run b s' cs' k)
  | Opt a =>
      match re_run a s cs k with
      | Some x => Some x
      | None => k s cs
      end
  | Star p => star_k p s (fun s' => k s' cs)
  | Grp n a =>
      re_run a s cs
        (fun s' cs' => k s' ((n, firstn (length s - length s') s) :: cs'))
  | Eol =>
      (* the end of the string, or just before a newline that ends it *)
      match s with
      | [] => k s cs
      | [c] => if (c =? NL)%Z then k s cs else None
      | _ => None
      end
  end.

(** [re.match(r, s)]: anchored at the start of [s], not at its end. *)
Definition re_match (r : re) (s : str) : option captures :=
  re_run r s [] (fun _ cs => Some cs).

(** [m.group(n)] *)
Fixpoint group (n : nat) (cs : captures) : str :=
  match cs with
  | [] => []
  | (i, g) :: cs' => if Nat.eqb i n then g else group n cs'
  end.

Definition one_of (l : list char) (c : char) : bool := existsb (Z.eqb c) l.
Definition is_char (x : char) (c : char) : bool := (c =? x)%Z.
(** [.] matches everything but a newline. *)
Definition dot (c : char) : bool := negb (c =? NL)%Z.

Definition PLUS_SIGN : char := 43%Z.
Definition MINUS_SIGN : char := 45%Z.
Definition FULL_STOP : char := 46%Z.
Definition LETTER_E : char := 69%Z.
Definition LETTER_e : char := 101%Z.

Definition sign : char -> bool := one_of [MINUS_SIGN; PLUS_SIGN].

(** The pattern of [re.match], written here with a blank between its
    parts:
      ^ ( \s* ) ( [-+]? \d* \.? \d+ (?: [Ee] [-+]? \d+ )? ) ( \s* ) ( [,;] .* ) $
    The anchor ^ is what [re.match] does anyway. *)
Definition exponent_pattern `{Unicode} : re :=
  Cat (Cls (one_of [LETTER_E; LETTER_e])) (Cat (Opt (Cls sign)) (Plus isdigit)).

Definition number_pattern `{Unicode} : re :=
  Cat (Opt (Cls sign))
 (Cat (Star isdigit)
 (Cat (Opt (Cls (is_char FULL_STOP)))
 (Cat (Plus isdigit)
      (Opt exponent_pattern)))).

Definition value_pattern `{Unicode} : re :=
  Cat (Grp 1 (Star isspace))
 (Cat (Grp 2 number_pattern)
 (Cat (Grp 3 (Star isspace))
 (Cat (Grp 4 (Cat (Cls (one_of [COMMA; SEMI])) (Star dot)))
      Eol))).

(** ** Numbers

    The floating-point operations the program applies to field values:
    [float(s)] on a string ([None] when it raises ValueError),
    [float(n)] on an integer ([None] when it raises OverflowError, the
    integer being too large for a float), the constant [0.0],
    [round(v * coef, 6)], and the text that an f-string writes for a
    float. *)
Class PyFloat := {
  float : Type;
  float_of_str : str -> option float;
  float_of_int : Z -> option float;
  fzero : float;
  round6_mul : float -> float -> float;
  repr : float -> str
}.

(** ** The patcher: [_save_with_text_replacement] *)

(** One entry of [target_updates], over the type [F] of the numbers. *)
Record update_of (F : Type) := {
  u_type : str;
  u_name : str;
  u_field : str;
  u_value : F
}.

Abbreviation update := (update_of float).

Section Patcher.
Context {U : Unicode} {P : PyFloat}.

Definition fields_map := dict float.
Definition updates_map := dict (dict fields_map).

(** One turn of [for item in target_updates]. *)
Definition add_update (m : updates_map) (item : update) : updates_map :=
  let t := upper (u_type item) in
  let n := upper (u_name item) in
  let f := upper (u_field item) in
  let m1 := if dict_mem t m then m else dict_set t [] m in
  let names := dict_get_or t [] m1 in
  let names1 := if dict_mem n names then names else dict_set n [] names in
  let fields := dict_get_or n [] names1 in
  dict_set t (dict_set n (dict_set f (u_value item) fields) names1) m1.

Definition build_map (target_updates : list update) : updates_map :=
  fold_left add_update target_updates [].

(** The state carried from line to line. [None] is Python's [None]. *)
Record state := {
  current_type : option str;
  current_name : option str;
  in_obj : bool
}.

Definition initial : state :=
  {| current_type := None; current_name := None; in_obj := false |}.

(** [current_type in updates_map] *)
Definition type_pending (m : updates_map) (t : option str) : bool :=
  match t with
  | Some t => dict_mem t m
  | None => false
  end.

(** [updates_map[current_type].get(current_name, {})] *)
Definition target_fields (m : updates_map) (st : state) : fields_map :=
  match current_type st, current_name st with
  | Some t, Some n => dict_get_or n [] (dict_get_or t [] m)
  | _, _ => []
  end.

(** [x.replace(" ","").replace("_","")] *)
Definition squeeze (s : str) : str :=
  remove_char UNDERSCORE (remove_char SPACE s).

(** The loop over [target_fields.items()], left at the first match. *)
Fixpoint first_match (field_key : str) (d : fields_map) : option float :=
  match d with
  | [] => None
  | (tk, tv) :: d' =>
      if contains (squeeze tk) (squeeze field_key) then Some tv
      else first_match field_key d'
  end.

(** The first [if] of the loop body: a line outside any block may open
    one. *)
Definition open_block (m : updates_map) (st : state) (line : str) : state :=
  let stripped := strip line in
  if negb (in_obj st) && negb (str_eqb stripped [])
     && negb (startswith [BANG] stripped) then
    let parts := split COMMA (item0 (split BANG stripped)) in
    let possible_type := upper (strip (remove_char SEMI (item0 parts))) in
    if dict_mem possible_type m then
      {| current_type := Some possible_type;
         current_name := Some (lit "N/A");
         in_obj := true |}
    else if has_char COMMA stripped || has_char SEMI stripped then
      {| current_type := Some (lit "UNKNOWN");
         current_name := current_name st;
         in_obj := true |}
    else st
  else st.

(** [if ';' in line.split('!')[0]: in_obj = False] *)
Definition close_block (st : state) (line : str) : state :=
  if has_char SEMI (item0 (split BANG line)) then
    {| current_type := current_type st;
       current_name := current_name st;
       in_obj := false |}
  else st.

(** [if "!- Name" in line: ...] *)
Definition capture_name (st : state) (line : str) : state :=
  if contains (lit "!- Name") line then
    let val :=
      upper (strip (remove_char SEMI
                      (remove_char COMMA (item0 (split BANG line))))) in
    {| current_type := current_type st;
       current_name := Some val;
       in_obj := in_obj st |}
  else st.

(** The label read from the comment of a line that holds a [!]. *)
Definition field_key_of (line : str) : str :=
  let comment := strip (item1 (split BANG line)) in
  if startswith (lit "- ") comment then upper (strip (skipn 2 comment))
  else upper comment.

(** The rewriting of a line whose label matched, [None] when neither
    the pattern nor the split on the first comma applies and the line
    stays as it is. *)
Definition substitute (matched_val : float) (line : str) : option str :=
  let idx_bang := find BANG line in
  let content := slice_to idx_bang line in
  let comment_part := slice_from idx_bang line in
  match re_match value_pattern (rstrip_crlf content) with
  | Some m =>
      Some (group 1 m ++ repr matched_val ++ group 3 m ++ group 4 m
              ++ comment_part)
  | None =>
      match split_once COMMA content with
      | [_; rest] =>
          Some (lit "    " ++ repr matched_val ++ [COMMA] ++ rest
                  ++ comment_part)
      | _ => None
      end
  end.

(** One turn of [for line in lines]: the state after the line, the line
    appended to [new_lines], and whether [line] was reassigned. *)
Definition process_line (m : updates_map) (st : state) (line : str)
  : state * str * bool :=
  let st1 := open_block m st line in
  if in_obj st1 then
    let st2 := capture_name (close_block st1 line) line in
    if type_pending m (current_type st2) && has_char BANG line then
      match first_match (field_key_of line) (target_fields m st2) with
      | Some matched_val =>
          match substitute matched_val line with
          | Some line' => (st2, line', true)
          | None => (st2, line, false)
          end
      | None => (st2, line, false)
      end
    else (st2, line, false)
  else (st1, line, false).

(** The loop, from a given state: every line written, with its flag. *)
Fixpoint run (m : updates_map) (st : state) (lines : list str)
  : list (str * bool) :=
  match lines with
  | [] => []
  | line :: rest =>
      let '(st', line', hit) := process_line m st line in
      (line', hit) :: run m st' rest
  end.

(** The state reached after a prefix of the document. *)
Fixpoint state_after (m : updates_map) (st : state) (lines : list str)
  : state :=
  match lines with
  | [] => st
  | line :: rest => state_after m (fst (fst (process_line m st line))) rest
  end.

(** [new_lines] *)
Definition patch_lines (target_updates : list update) (lines : list str)
  : list str :=
  map fst (run (build_map target_updates) initial lines).

(** The number of lines the loop rewrote. *)
Definition substitutions (target_updates : list update) (lines : list str)
  : nat :=
  length (filter snd (run (build_map target_updates) initial lines)).

End Patcher.

(** ** A decimal instance of [PyFloat]

    Numbers held exactly in millionths ([8.0] is [8000000]). It stands
    for Python's floats in the examples of this file only, on whose
    values it agrees with them: decimal literals with at most six
    fractional digits, of magnitude zero or between 0.0001 and 1e16,
    where [repr] writes plain decimal notation. It is no model of binary
    floating point: [float_of_str] refuses every other string, an
    exponent included, and [mul6] rounds the exact product, where Python
    rounds the product of two doubles, which may fall on the other side
    of a tie in the seventh decimal. *)

Module Micro.

Definition MILLION : Z := 1000000%Z.
Definition ZERO_DIGIT : char := 48%Z.

Fixpoint digits_value (s : str) (acc : Z) : option Z :=
  match s with
  | [] => Some acc
  | c :: s' =>
      if ascii_isdigit c then digits_value s' (acc * 10 + (c - ZERO_DIGIT))%Z
      else None
  end.

Definition unsigned_of_str (s : str) : option Z :=
  match split_once FULL_STOP s with
  | [ip] =>
      match ip with
      | [] => None
      | _ => option_map (fun i => (i * MILLION)%Z) (digits_value ip 0%Z)
      end
  | [ip; fp] =>
      if (6 <? length fp)%nat then None
      else match ip, fp with
           | [], [] => None
           | _, _ =>
               match digits_value ip 0%Z, digits_value fp 0%Z with
               | Some i, Some f =>
                   Some (i * MILLION
                         + f * 10 ^ Z.of_nat (6 - length fp))%Z
               | _, _ => None
               end
           end
  | _ => None
  end.

Definition of_str (s : str) : option Z :=
  match strip s with
  | c :: s' =>
      if (c =? MINUS_SIGN)%Z then option_map Z.opp (unsigned_of_str s')
      else if (c =? PLUS_SIGN)%Z then unsigned_of_str s'
      else unsigned_of_str (c :: s')
  | [] => None
  end.

(** [float(n)]: an integer that rounds to 2**1024 or more is refused. *)
Definition of_int (n : Z) : option Z :=
  if (Z.abs n <? 2 ^ 1024 - 2 ^ 970)%Z then Some (n * MILLION)%Z else None.

(** Round to the nearest integer, a tie to the even one. *)
Definition round_half_even (n d : Z) : Z :=
  let q := (n / d)%Z in
  let r := (n mod d)%Z in
  if (2 * r <? d)%Z then q
  else if (d <? 2 * r)%Z then (q + 1)%Z
  else if Z.even q then q else (q + 1)%Z.

Definition mul6 (v coef : Z) : Z := round_half_even (v * coef) MILLION.

Definition decimal (n : Z) : str :=
  lit (NilEmpty.string_of_uint (N.to_uint (Z.to_N n))).

Definition fraction (f : Z) : str :=
  let ds := map (fun i => (ZERO_DIGIT + (f / 10 ^ i) mod 10)%Z)
                [5; 4; 3; 2; 1; 0]%Z in
  match rstrip_by (is_char ZERO_DIGIT) ds with
  | [] => [ZERO_DIGIT]
  | ds' => ds'
  end.

Definition to_str (v : Z) : str :=
  (if (v <? 0)%Z then [MINUS_SIGN] else [])
    ++ decimal (Z.abs v / MILLION) ++ [FULL_STOP]
    ++ fraction (Z.abs v mod MILLION).

#[export] Instance micro : PyFloat := {
  float := Z;
  float_of_str := of_str;
  float_of_int := of_int;
  fzero := 0%Z;
  round6_mul := mul6;
  repr := to_str
}.

End Micro.

(** ** Text files

    [open(path, 'r', encoding=...)] decodes the bytes of the file and
    translates line ends; [open(path, 'w', encoding='utf-8')] does the
    converse on the way out. *)

Definition bytes := list Byte.byte.

Definition ord (b : Byte.byte) : Z := Z.of_N (Byte.to_N b).

Definition byte_of (z : Z) : Byte.byte :=
  match Byte.of_N (Z.to_N z) with
  | Some b => b
  | None => Byte.x00
  end.

Inductive encoding := Utf8 | Latin1.

(** A continuation byte. *)
Definition is_cont (x : Z) : bool := ((0x80 <=? x) && (x <=? 0xBF))%Z.

(** The second byte of a three-byte sequence: no overlong form after
    E0, no surrogate after ED. *)
Definition second_of_3 (x1 x2 : Z) : bool :=
  if (x1 =? 0xE0)%Z then ((0xA0 <=? x2) && (x2 <=? 0xBF))%Z
  else if (x1 =? 0xED)%Z then ((0x80 <=? x2) && (x2 <=? 0x9F))%Z
  else is_cont x2.

(** The second byte of a four-byte sequence: no overlong form after F0,
    nothing above U+10FFFF after F4. *)
Definition second_of_4 (x1 x2 : Z) : bool :=
  if (x1 =? 0xF0)%Z then ((0x90 <=? x2) && (x2 <=? 0xBF))%Z
  else if (x1 =? 0xF4)%Z then ((0x80 <=? x2) && (x2 <=? 0x8F))%Z
  else is_cont x2.

(** [bytes.decode('utf-8')], strict: [None] is UnicodeDecodeError. *)
Fixpoint utf8_decode (bs : bytes) : option str :=
  match bs with
  | [] => Some []
  | b1 :: r1 =>
      let x1 := ord b1 in
      if (x1 <? 0x80)%Z then option_map (cons x1) (utf8_decode r1)
      else if ((0xC2 <=? x1) && (x1 <=? 0xDF))%Z then
        match r1 with
        | b2 :: r2 =>
            let x2 := ord b2 in
            if is_cont x2 then
              option_map (cons ((x1 - 0xC0) * 64 + (x2 - 0x80))%Z)
                         (utf8_decode r2)
            else None
        | _ => None
        end
      else if ((0xE0 <=? x1) && (x1 <=? 0xEF))%Z then
        match r1 with
        | b2 :: b3 :: r3 =>
            let x2 := ord b2 in
            let x3 := ord b3 in
            if second_of_3 x1 x2 && is_cont x3 then
              option_map
                (cons ((x1 - 0xE0) * 4096 + (x2 - 0x80) * 64
                       + (x3 - 0x80))%Z)
                (utf8_decode r3)
            else None
        | _ => None
        end
      else if ((0xF0 <=? x1) && (x1 <=? 0xF4))%Z then
        match r1 with
        | b2 :: b3 :: b4 :: r4 =>
            let x2 := ord b2 in
            let x3 := ord b3 in
            let x4 := ord b4 in
            if second_of_4 x1 x2 && is_cont x3 && is_cont x4 then
              option_map
                (cons ((x1 - 0xF0) * 262144 + (x2 - 0x80) * 4096
                       + (x3 - 0x80) * 64 + (x4 - 0x80))%Z)
                (utf8_decode r4)
            else None
        | _ => None
        end
      else None
  end.

(** The first code point of a byte string and the bytes after it: one
    turn of [utf8_decode]. *)
Definition decode_one (bs : bytes) : option (char * bytes) :=
  match bs with
  | [] => None
  | b1 :: r1 =>
      let x1 := ord b1 in
      if (x1 <? 0x80)%Z then Some (x1, r1)
      else if ((0xC2 <=? x1) && (x1 <=? 0xDF))%Z then
        match r1 with
        | b2 :: r2 =>
            let x2 := ord b2 in
            if is_cont x2 then
              Some (((x1 - 0xC0) * 64 + (x2 - 0x80))%Z, r2)
            else None
        | _ => None
        end
      else if ((0xE0 <=? x1) && (x1 <=? 0xEF))%Z then
        match r1 with
        | b2 :: b3 :: r3 =>
            let x2 := ord b2 in
            let x3 := ord b3 in
            if second_of_3 x1 x2 && is_cont x3 then
              Some (((x1 - 0xE0) * 4096 + (x2 - 0x80) * 64
                     + (x3 - 0x80))%Z, r3)
            else None
        | _ => None
        end
      else if ((0xF0 <=? x1) && (x1 <=? 0xF4))%Z then
        match r1 with
        | b2 :: b3 :: b4 :: r4 =>
            let x2 := ord b2 in
            let x3 := ord b3 in
            let x4 := ord b4 in
            if second_of_4 x1 x2 && is_cont x3 && is_cont x4 then
              Some (((x1 - 0xF0) * 262144 + (x2 - 0x80) * 4096
                     + (x3 - 0x80) * 64 + (x4 - 0x80))%Z, r4)
            else None
        | _ => None
        end
      else None
  end.

(** One code point in UTF-8; [None] (UnicodeEncodeError) for a
    surrogate and for what is not a code point. *)
Definition utf8_encode_char (c : char) : option bytes :=
  if (c <? 0)%Z then None
  else if (c <? 0x80)%Z then Some [byte_of c]
  else if (c <? 0x800)%Z then
    Some [byte_of (0xC0 + c / 64); byte_of (0x80 + c mod 64)]%Z
  else if (c <? 0x10000)%Z then
    if ((0xD800 <=? c) && (c <=? 0xDFFF))%Z then None
    else Some [byte_of (0xE0 + c / 4096);
               byte_of (0x80 + (c / 64) mod 64);
               byte_of (0x80 + c mod 64)]%Z
  else if (c <=? 0x10FFFF)%Z then
    Some [byte_of (0xF0 + c / 262144);
          byte_of (0x80 + (c / 4096) mod 64);
          byte_of (0x80 + (c / 64) mod 64);
          byte_of (0x80 + c mod 64)]%Z
  else None.

(** [s.encode('utf-8')] *)
Fixpoint utf8_encode (s : str) : option bytes :=
  match s with
  | [] => Some []
  | c :: s' =>
      match utf8_encode_char c, utf8_encode s' with
      | Some b, Some bs => Some (b ++ bs)
      | _, _ => None
      end
  end.

(** [bytes.decode('latin-1')]: every byte is the code point of its
    value, no byte sequence is refused. *)
Definition latin1_decode (bs : bytes) : str := map ord bs.

(** [s.encode('latin-1')], for code points below 256. *)
Definition latin1_encode (s : str) : option bytes :=
  if forallb (fun c => (0 <=? c) && (c <? 256))%Z s
  then Some (map byte_of s) else None.

Definition decode (e : encoding) (bs : bytes) : option str :=
  match e with
  | Utf8 => utf8_decode bs
  | Latin1 => Some (latin1_decode bs)
  end.

Definition encode (e : encoding) (s : str) : option bytes :=
  match e with
  | Utf8 => utf8_encode s
  | Latin1 => latin1_encode s
  end.

(** Reading with [newline=None]: the line ends CR LF and CR become LF. *)
Fixpoint universal_newlines (s : str) : str :=
  match s with
  | [] => []
  | c :: s' =>
      if (c =? CR)%Z then
        NL :: match s' with
              | d :: s'' =>
                  if (d =? NL)%Z then universal_newlines s''
                  else universal_newlines s'
              | [] => []
              end
      else c :: universal_newlines s'
  end.

(** The lines of a text, each with the LF that ends it. *)
Fixpoint lines_of (s : str) : list str :=
  match s with
  | [] => []
  | c :: s' =>
      if (c =? NL)%Z then [c] :: lines_of s'
      else match lines_of s' with
           | [] => [[c]]
           | l :: ls => (c :: l) :: ls
           end
  end.

(** [os.linesep] *)
Inductive platform := Posix | Windows.

Definition linesep (p : platform) : str :=
  match p with
  | Posix => [NL]
  | Windows => [CR; NL]
  end.

(** Writing with [newline=None]: every LF becomes [os.linesep]. *)
Definition write_newlines (p : platform) (s : str) : str :=
  flat_map (fun c => if (c =? NL)%Z then linesep p else [c]) s.

(** The [try]/[except] that reads the document: the encoding that
    decoded it, and [f.readlines()]. *)
Definition read_document (doc : bytes) : encoding * list str :=
  match utf8_decode doc with
  | Some text => (Utf8, lines_of (universal_newlines text))
  | None => (Latin1, lines_of (universal_newlines (latin1_decode doc)))
  end.

(** [with open(output_path, 'w', encoding='utf-8') as f:
     f.writelines(new_lines)] *)
Definition write_document (p : platform) (new_lines : list str)
  : option bytes :=
  utf8_encode (write_newlines p (concat new_lines)).

(** The bytes of a file cut after each LF, for statements about the
    lines of a file as they are on disk. *)
Fixpoint byte_lines (bs : bytes) : list bytes :=
  match bs with
  | [] => []
  | b :: bs' =>
      if Byte.eqb b Byte.x0a then [b] :: byte_lines bs'
      else match byte_lines bs' with
           | [] => [[b]]
           | l :: ls => (b :: l) :: ls
           end
  end.

Section Save.
Context {U : Unicode} {P : PyFloat}.

(** [_save_with_text_replacement]: the file written to [output_path]
    from the bytes at [idf_path]; [None] when an exception leaves the
    method. *)
Definition _save_with_text_replacement (p : platform)
    (target_updates : list update) (doc : bytes) : option bytes :=
  let lines := snd (read_document doc) in
  write_document p (patch_lines target_updates lines).

End Save.

(** ** The parsed model

    What the program reads of eppy's objects: the names and the values
    of the fields of an object, in the order of the IDD, the object type
    first under the name [key]. A value is a string, a number, or
    [None]. *)

Inductive fieldval_of (F : Type) :=
| VNone
| VStr (s : str)
| VInt (n : Z)
| VFloat (x : F).

Arguments VNone {F}.
Arguments VStr {F} s.
Arguments VInt {F} n.
Arguments VFloat {F} x.

Record EpBunch_of (F : Type) := {
  fieldnames : list str;
  fieldvalues : list (fieldval_of F)
}.

(** One entry of [modifications]. *)
Record modification_of (F : Type) := {
  object_type : str;
  fields : list str;
  coef : F
}.

(** What [float(old_val) if old_val != '' else 0.0] does: a number, or
    one of the exceptions of [float]. *)
Inductive conversion_of (F : Type) :=
| Number (v : F)
| ValueError
| TypeError
| OverflowError.

Arguments Number {F} v.
Arguments ValueError {F}.
Arguments TypeError {F}.
Arguments OverflowError {F}.

Abbreviation fieldval := (fieldval_of float).
Abbreviation EpBunch := (EpBunch_of float).
Abbreviation modification := (modification_of float).
Abbreviation conversion := (conversion_of float).

(** eppy keeps the objects of a model by type in a mapping that takes no
    account of the case of a key: [key_fold] is the folding of case
    under which it compares two keys. *)
Class Eppy := {
  key_fold : str -> str
}.

(** Keys compared in upper case, ASCII letters only. *)
#[export] Instance ascii_keys : Eppy := {
  key_fold := map ascii_upper_char
}.

Section Model.
Context {U : Unicode} {P : PyFloat} {EP : Eppy}.

Fixpoint index_of (name : str) (names : list str) : option nat :=
  match names with
  | [] => None
  | n :: ns =>
      if str_eqb name n then Some 0
      else option_map S (index_of name ns)
  end.

(** [getattr(obj, name, default)]: the value of the field of that name,
    [''] when the object stops before it, [default] when the object
    has no such field. *)
Definition getattr (obj : EpBunch) (name : str) (default : fieldval)
  : fieldval :=
  match index_of name (fieldnames obj) with
  | Some i => nth i (fieldvalues obj) (VStr [])
  | None => default
  end.

(** *** [_get_active_fields] *)

(** [val is None], or a string that [strip] empties. *)
Definition is_blank (val : fieldval) : bool :=
  match val with
  | VNone => true
  | VStr s => str_eqb (strip s) []
  | _ => false
  end.

(** The first loop, from index [idx] with [last_idx] so far. *)
Fixpoint last_nonblank (idx last_idx : Z) (vals : list fieldval) : Z :=
  match vals with
  | [] => last_idx
  | val :: rest =>
      last_nonblank (idx + 1) (if is_blank val then last_idx else idx) rest
  end.

(** The second loop, from index [idx]. *)
Fixpoint collect_active (idx last_idx : Z) (names : list str) : list str :=
  match names with
  | [] => []
  | f :: rest =>
      if str_eqb (lower f) (lit "key") then
        collect_active (idx + 1) last_idx rest
      else if (idx >? last_idx)%Z then []
      else f :: collect_active (idx + 1) last_idx rest
  end.

Definition _get_active_fields (obj : EpBunch) : list str :=
  let last_idx := last_nonblank 0 (-1) (fieldvalues obj) in
  if (last_idx <? 0)%Z then []
  else collect_active 0 last_idx (fieldnames obj).

(** *** [execute_modification] *)

(** [x.lower().replace("_", "").replace(" ", "")] *)
Definition normalize (s : str) : str :=
  remove_char SPACE (remove_char UNDERSCORE (lower s)).

(** The loop over [valid_attrs], left at the first attribute whose
    normal form is [norm_field]. *)
Fixpoint find_attr (norm_field : str) (valid_attrs : list str)
  : option str :=
  match valid_attrs with
  | [] => None
  | attr :: rest =>
      if str_eqb (normalize attr) norm_field then Some attr
      else find_attr norm_field rest
  end.

Definition to_float (old_val : fieldval) : conversion :=
  match old_val with
  | VStr [] => Number fzero
  | VStr s =>
      match float_of_str s with
      | Some v => Number v
      | None => ValueError
      end
  | VInt n =>
      match float_of_int n with
      | Some v => Number v
      | None => OverflowError
      end
  | VFloat x => Number x
  | VNone => TypeError
  end.

(** The body of [for field in fields]: the requests it appends, [None]
    when an exception leaves the method; [except ValueError] catches
    nothing else. [if target_attr:] holds for an attribute found and not
    empty. The name of the object is used as a string
    ([item['name'].upper()]) once a request exists, which fails on a
    name that is not one. *)
Definition field_requests (obj_type : str) (coef : float)
    (obj : EpBunch) (field : str) : option (list update) :=
  let obj_name := getattr obj (lit "Name") (VStr (lit "N/A")) in
  let clean_field := strip field in
  let norm_field := normalize clean_field in
  match find_attr norm_field (fieldnames obj) with
  | Some ((_ :: _) as target_attr) =>
      let old_val := getattr obj target_attr (VInt 0) in
      match to_float old_val with
      | Number val_num =>
          let new_val := round6_mul val_num coef in
          match obj_name with
          | VStr name =>
              Some [ {| u_type := obj_type; u_name := name;
                        u_field := target_attr; u_value := new_val |} ]
          | _ => None
          end
      | ValueError => Some []
      | TypeError | OverflowError => None
      end
  | _ => Some []
  end.

(** Requests of several turns of a loop, in order; an exception in one
    turn ends it all. *)
Fixpoint gather {A} (f : A -> option (list update)) (l : list A)
  : option (list update) :=
  match l with
  | [] => Some []
  | x :: rest =>
      match f x, gather f rest with
      | Some a, Some b => Some (a ++ b)
      | _, _ => None
      end
  end.

(** [self.base_idf.idfobjects]: the objects of each type, by type, in
    the order of iteration. *)
Definition idfobjects := dict (list EpBunch).

(** [obj_type in idfobjects] and [idfobjects[obj_type]]: eppy finds a
    type whatever the case it is asked in; the entry is the one whose
    key folds to the same text. *)
Fixpoint idf_get (obj_type : str) (idf : idfobjects)
  : option (list EpBunch) :=
  match idf with
  | [] => None
  | (k, objs) :: idf' =>
      if str_eqb (key_fold obj_type) (key_fold k) then Some objs
      else idf_get obj_type idf'
  end.

(** The body of [for mod in modifications]. *)
Definition mod_requests (idf : idfobjects) (md : modification)
  : option (list update) :=
  match idf_get (object_type md) idf with
  | None => Some []
  | Some objs =>
      gather (fun obj =>
                gather (field_requests (object_type md) (coef md) obj)
                       (fields md))
             objs
  end.

(** [target_updates] at the end of the first loop. *)
Definition build_updates (idf : idfobjects) (modifications : list modification)
  : option (list update) :=
  gather (mod_requests idf) modifications.

(** [execute_modification]: the number returned and the file written;
    [None] when an exception leaves the method. *)
Definition execute_modification (p : platform) (idf : idfobjects)
    (doc : bytes) (modifications : list modification)
  : option (nat * bytes) :=
  match build_updates idf modifications with
  | None => None
  | Some target_updates =>
      match _save_with_text_replacement p target_updates doc with
      | None => None
      | Some out => Some (length target_updates, out)
      end
  end.

End Model.


(** ** Notions used to state the properties *)

Section Notions.
Context {U : Unicode} {P : PyFloat} {EP : Eppy}.

(** The label that the comment of a line holds: the text between the
    first [!] and the next, stripped, without a leading "- ". It is what
    [field_key_of] upper-cases. *)
Definition comment_label (line : str) : str :=
  let comment := strip (item1 (split BANG line)) in
  if startswith (lit "- ") comment then strip (skipn 2 comment)
  else comment.

(** The number of values up to and including the last one that is not
    blank; 0 when all are blank. *)
Fixpoint used_length (vals : list fieldval) : nat :=
  match vals with
  | [] => 0
  | val :: rest =>
      match used_length rest with
      | 0 => if is_blank val then 0 else 1
      | S k => S (S k)
      end
  end.

Definition is_key (f : str) : bool := str_eqb (lower f) (lit "key").

(** Whether a requested field of an object yields a request: it names
    an attribute of the object whose value converts to a number. *)
Definition emits (obj : EpBunch) (field : str) : bool :=
  match find_attr (normalize (strip field)) (fieldnames obj) with
  | Some ((_ :: _) as target_attr) =>
      match to_float (getattr obj target_attr (VInt 0)) with
      | Number _ => true
      | _ => false
      end
  | _ => false
  end.

(** The number of requests that the parsed model and the modifications
    determine: one for each modification, object of its type and listed
    field that yields one. *)
Definition requests_expected (idf : idfobjects)
    (modifications : list modification) : nat :=
  list_sum
    (map (fun md =>
            match idf_get (object_type md) idf with
            | None => 0
            | Some objs =>
                list_sum
                  (map (fun obj => length (filter (emits obj) (fields md)))
                       objs)
            end)
         modifications).

End Notions.

(** What a pattern matches, apart from the order in which a matcher
    tries the alternatives: [denotes r s rest cs cs'] when [r] matches
    [s] in front of [rest] and the groups closed on the way turn the
    captures [cs] into [cs']. *)
Inductive denotes : re -> str -> str -> captures -> captures -> Prop :=
| D_cls p c rest cs :
    p c = true -> denotes (Cls p) [c] rest cs cs
| D_cat a b s1 s2 rest cs cs1 cs2 :
    denotes a s1 (s2 ++ rest) cs cs1 ->
    denotes b s2 rest cs1 cs2 ->
    denotes (Cat a b) (s1 ++ s2) rest cs cs2
| D_opt_some a s rest cs cs' :
    denotes a s rest cs cs' -> denotes (Opt a) s rest cs cs'
| D_opt_none a rest cs :
    denotes (Opt a) [] rest cs cs
| D_star p s rest cs :
    forallb p s = true -> denotes (Star p) s rest cs cs
| D_grp n a s rest cs cs' :
    denotes a s rest cs cs' -> denotes (Grp n a) s rest cs ((n, s) :: cs')
| D_eol rest cs :
    rest = [] \/ rest = [NL] -> denotes Eol [] rest cs cs.

Definition sign_or_nothing (s : str) : Prop :=
  s = [] \/ s = [MINUS_SIGN] \/ s = [PLUS_SIGN].

(** The numeric tokens of the pattern: an optional sign, digits with at
    most one full stop and a digit at the end, an optional exponent. *)
Definition numeric_token `{Unicode} (s : str) : Prop :=
  exists sg ip pt fp ex,
    s = sg ++ ip ++ pt ++ fp ++ ex /\
    sign_or_nothing sg /\
    forallb isdigit ip = true /\
    (pt = [] \/ pt = [FULL_STOP]) /\
    fp <> [] /\ forallb isdigit fp = true /\
    (ex = [] \/
     exists e sg' ds,
       ex = e :: sg' ++ ds /\ (e = LETTER_E \/ e = LETTER_e) /\
       sign_or_nothing sg' /\ ds <> [] /\ forallb isdigit ds = true).

Section Rewriting.
Context {U : Unicode} {P : PyFloat}.

Definition is_cr_or_lf (c : char) : bool := (c =? CR)%Z || (c =? NL)%Z.

(** [line'] is [line] with its leading numeric token replaced by the
    text of [v]: the white space around the token, the delimiter, what
    follows it and the comment are those of [line]. Carriage returns and
    line feeds that stand right before the comment are not kept. *)
Definition token_replaced (v : float) (line line' : str) : Prop :=
  exists ws num ws2 d tail junk comment,
    line = ws ++ num ++ ws2 ++ d :: tail ++ junk ++ BANG :: comment /\
    line' = ws ++ repr v ++ ws2 ++ d :: tail ++ BANG :: comment /\
    has_char BANG (ws ++ num ++ ws2 ++ d :: tail ++ junk) = false /\
    forallb isspace ws = true /\ numeric_token num /\
    forallb isspace ws2 = true /\ (d = COMMA \/ d = SEMI) /\
    forallb is_cr_or_lf junk = true.

(** [line'] is [line] with everything before its first comma replaced
    by four spaces and the text of [v]. *)
Definition segment_replaced (v : float) (line line' : str) : Prop :=
  exists seg rest comment,
    line = seg ++ COMMA :: rest ++ BANG :: comment /\
    line' = lit "    " ++ repr v ++ COMMA :: rest ++ BANG :: comment /\
    has_char COMMA seg = false /\
    has_char BANG (seg ++ COMMA :: rest) = false.

End Rewriting.

(** Two labels that differ in one place: by the case of an ASCII
    letter, by a space in the place of an underscore, or by a space or
    an underscore that one of them has and the other has not. *)
Definition separator (c : char) : Prop := c = SPACE \/ c = UNDERSCORE.

Inductive variant1 : str -> str -> Prop :=
| V_case pre c d post :
    ascii_upper_char c = ascii_upper_char d ->
    variant1 (pre ++ c :: post) (pre ++ d :: post)
| V_swap pre c d post :
    separator c -> separator d ->
    variant1 (pre ++ c :: post) (pre ++ d :: post)
| V_drop pre c post :
    separator c -> variant1 (pre ++ c :: post) (pre ++ post)
| V_add pre c post :
    separator c -> variant1 (pre ++ post) (pre ++ c :: post).

(** Two labels that differ by case, spaces and underscores only. *)
Inductive variant : str -> str -> Prop :=
| V_same s : variant s s
| V_step a b c : variant1 a b -> variant b c -> variant a c.

(** A code point that UTF-8 can carry: a Unicode scalar value. *)
Definition scalar (c : char) : Prop :=
  (0 <= c < 0xD800 \/ 0xE000 <= c <= 0x10FFFF)%Z.

(** ** Sample documents and models

    The concrete inputs of the examples: documents as rows of text with
    a chosen line end, and numbers in the decimal instance. *)

Import Micro.

Definition text_line (s : string) : str := lit s ++ [NL].

Definition LF : bytes := [Byte.x0a].
Definition CRLF : bytes := [Byte.x0d; Byte.x0a].

Definition file_of (ending : bytes) (rows : list string) : bytes :=
  flat_map (fun r => list_byte_of_string r ++ ending) rows.

(** A record of type Zone named Z1, one field to a line. *)
Definition zone_rows : list string :=
  [ "Zone,";
    "  Z1,      !- Name";
    "  100.0;   !- Some Field" ]%string.

Definition zone_rows_patched : list string :=
  [ "Zone,";
    "  Z1,      !- Name";
    "  80.0;   !- Some Field" ]%string.

(** The Update Request (ZONE, Z1, "Some Field") = 80.0. *)
Definition zone_update : update :=
  {| u_type := lit "ZONE"; u_name := lit "Z1";
     u_field := lit "Some Field"; u_value := 80000000%Z |}.

(** A comment line holding an e with an acute accent in Latin-1 (byte
    E9), which is not valid UTF-8. *)
Definition latin1_comment : bytes :=
  list_byte_of_string "! caf" ++ [Byte.xe9] ++ LF.

Definition latin1_comment_as_utf8 : bytes :=
  list_byte_of_string "! caf" ++ [Byte.xc3; Byte.xa9] ++ LF.

Definition version_rows : list string := [ "Version,"; "  9.5;" ]%string.

(** The same record with no comment on the line of its value. *)
Definition zone_rows_bare : list string :=
  [ "Zone,";
    "  Z1,      !- Name";
    "  100.0;" ]%string.

(** A Lights object as eppy parses it, and as the document holds it:
    the lighting level is left blank, the design level being given per
    floor area. *)
Definition lights_object : EpBunch :=
  {| fieldnames :=
       map lit [ "key"; "Name"; "Zone_or_ZoneList_Name"; "Schedule_Name";
                 "Design_Level_Calculation_Method"; "Lighting_Level";
                 "Watts_per_Zone_Floor_Area"; "Watts_per_Person";
                 "Return_Air_Fraction" ]%string;
     fieldvalues :=
       [ VStr (lit "Lights"); VStr (lit "Office Lights");
         VStr (lit "Office"); VStr (lit "Lights Schedule");
         VStr (lit "Watts/Area"); VStr []; VFloat 10000000%Z; VStr [];
         VInt 0 ] |}.

Definition lights_model : idfobjects := [ (lit "LIGHTS", [lights_object]) ].

Definition lights_rows : list string :=
  [ "Lights,";
    "    Office Lights,           !- Name";
    "    Office,                  !- Zone or ZoneList Name";
    "    Lights Schedule,         !- Schedule Name";
    "    Watts/Area,              !- Design Level Calculation Method";
    "    ,                        !- Lighting Level {W}";
    "    10.0,                    !- Watts per Zone Floor Area {W/m2}";
    "    ,                        !- Watts per Person {W/person}";
    "    0;                       !- Return Air Fraction" ]%string.

(** The same object written on one line, without comments. *)
Definition lights_rows_compact : list string :=
  [ "Lights, Office Lights, Office, Lights Schedule, Watts/Area, , 10.0, , 0;"
  ]%string.

(** Scale by 0.8 the fields chosen in the interface. *)
Definition scale_fields (fs : list string) : modification :=
  {| object_type := lit "LIGHTS"; fields := map lit fs; coef := 800000%Z |}.

(** The instance of the Active Field List example, with and without the
    key that eppy puts in front. *)
Definition five_fields : EpBunch :=
  {| fieldnames :=
       map lit [ "field0"; "field1"; "field2"; "field3"; "field4" ]%string;
     fieldvalues :=
       [ VStr (lit "A"); VStr []; VInt 5; VStr []; VStr [] ] |}.

Definition five_fields_keyed : EpBunch :=
  {| fieldnames :=
       map lit [ "key"; "field0"; "field1"; "field2"; "field3"; "field4"
               ]%string;
     fieldvalues :=
       [ VStr (lit "THING"); VStr (lit "A"); VStr []; VInt 5; VStr [];
         VStr [] ] |}.

(** A state inside a block of type ZONE whose name was read as Z1. *)
Definition in_zone_z1 : state :=
  {| current_type := Some (lit "ZONE"); current_name := Some (lit "Z1");
     in_obj := true |}.

(** The request that scaling the floor-area density by 0.8 builds. *)
Definition watts_update : update :=
  {| u_type := lit "LIGHTS"; u_name := lit "Office Lights";
     u_field := lit "Watts_per_Zone_Floor_Area"; u_value := 8000000%Z |}.

(** The request built for the blank lighting level. *)
Definition level_update : update :=
  {| u_type := lit "LIGHTS"; u_name := lit "Office Lights";
     u_field := lit "Lighting_Level"; u_value := 0%Z |}.

(** [lights_rows] after [level_update]. *)
Definition lights_rows_zeroed : list string :=
  [ "Lights,";
    "    Office Lights,           !- Name";
    "    Office,                  !- Zone or ZoneList Name";
    "    Lights Schedule,         !- Schedule Name";
    "    Watts/Area,              !- Design Level Calculation Method";
    "    0.0,                        !- Lighting Level {W}";
    "    10.0,                    !- Watts per Zone Floor Area {W/m2}";
    "    ,                        !- Watts per Person {W/person}";
    "    0;                       !- Return Air Fraction" ]%string.

(** The Zone object of [zone_rows] as eppy parses it, and the
    modification that scales its field by 0.8. *)
Definition zone_object : EpBunch :=
  {| fieldnames := map lit [ "key"; "Name"; "Some_Field" ]%string;
     fieldvalues :=
       [ VStr (lit "Zone"); VStr (lit "Z1"); VFloat 100000000%Z ] |}.

Definition zone_model : idfobjects := [ (lit "ZONE", [zone_object]) ].

Definition zone_modification : modification :=
  {| object_type := lit "ZONE"; fields := [lit "Some Field"];
     coef := 800000%Z |}.

(** The record of the single-field example, on one line. *)
Definition zone_record : str := text_line "ZONE, Z1, 100.0, !- Some Field".

(** A request whose label is written with spaces, and a state inside
    the block of the Lights object. *)
Definition watts_update_spaced : update :=
  {| u_type := lit "Lights"; u_name := lit "Office Lights";
     u_field := lit "Watts per Zone Floor Area"; u_value := 8000000%Z |}.

Definition in_office_lights : state :=
  {| current_type := Some (lit "LIGHTS");
     current_name := Some (lit "OFFICE LIGHTS");
     in_obj := true |}.

(** ** The Object Index: [get_idf_object_summary], [get_all_fields],
    [get_object_sample] *)

(** One value of the summary: [{"count": ..., "all_names": [...]}]. *)
Record summary_of (F : Type) := {
  count : nat;
  all_names : list (fieldval_of F)
}.

Abbreviation summary_entry := (summary_of float).

Section Index.
Context {U : Unicode} {P : PyFloat} {EP : Eppy}.

(** [getattr(o, 'Name', 'N/A')] *)
Definition name_of (o : EpBunch) : fieldval :=
  getattr o (lit "Name") (VStr (lit "N/A")).

(** One turn of [for obj_type in self.base_idf.idfobjects]. *)
Definition summary_step (idf : idfobjects) (summary : dict summary_entry)
    (obj_type : str) : dict summary_entry :=
  let objs := dict_get_or obj_type [] idf in
  if (0 <? length objs)%nat then
    dict_set obj_type
      {| count := length objs; all_names := map name_of objs |} summary
  else summary.

Definition get_idf_object_summary (idf : idfobjects) : dict summary_entry :=
  fold_left (summary_step idf) (map fst idf) [].

(** [sum(obj['count'] for obj in summary.values())] and [len(summary)],
    the two figures that the interface shows. *)
Definition total_objects (summary : dict summary_entry) : nat :=
  list_sum (map (fun e => count (snd e)) summary).

Definition total_types (summary : dict summary_entry) : nat :=
  length summary.

Definition get_all_fields (idf : idfobjects) (object_type : str)
  : list str :=
  match idf_get object_type idf with
  | Some (obj :: _) => _get_active_fields obj
  | _ => []
  end.

Definition get_object_sample (idf : idfobjects) (object_type : str)
  : dict fieldval :=
  match idf_get object_type idf with
  | Some (obj :: _) =>
      fold_left (fun data f => dict_set f (getattr obj f (VStr [])) data)
                (_get_active_fields obj) []
  | _ => []
  end.

End Index.

(** ** The batch of cases: [parse_coef] and the loop over the
    coefficients *)

Section Batch.
Context {U : Unicode} {P : PyFloat} {EP : Eppy}.

(** The float [0.8] of the source text. *)
Variable point_eight : float.

(** Whether [open(file_path, 'w', ...)] succeeds for a file name in the
    output directory, which the file system decides: a name that holds
    a [/] needs a directory that may not be there. *)
Variable creatable : str -> bool.

(** [[float(x.strip()) for x in pieces]]: [None] when a [float] raises. *)
Fixpoint floats_of (pieces : list str) : option (list float) :=
  match pieces with
  | [] => Some []
  | x :: rest =>
      match float_of_str (strip x), floats_of rest with
      | Some v, Some vs => Some (v :: vs)
      | _, _ => None
      end
  end.

Definition parse_coef (s : str) : list float :=
  match floats_of (split COMMA s) with
  | Some coefficients => coefficients
  | None => [point_eight]
  end.

(** [mods], built from [st.session_state.field_config] for one
    coefficient. *)
Definition mods_for (field_config : dict (list str)) (coef : float)
  : list modification :=
  map (fun e => {| object_type := fst e; fields := snd e; coef := coef |})
      field_config.

(** [f"{output_prefix}_{coef}.idf"] *)
Definition file_name_for (output_prefix : str) (coef : float) : str :=
  output_prefix ++ lit "_" ++ repr coef ++ lit ".idf".

(** The loop [for idx, coef in enumerate(coefficients)], from the files
    that the output directory holds by name, which nothing removes, and
    the list [results] of names and counts so far; [None] when a call of
    [execute_modification] fails, be it on its output file. The document
    at [idf_path] is read anew by each call and is not among the files
    written. A file is taken to be its name: two names are two files of
    the directory, as they are for names without a directory part on a
    file system that compares names as texts. *)
Fixpoint generate_cases (p : platform) (idf : idfobjects) (doc : bytes)
    (field_config : dict (list str)) (output_prefix : str)
    (coefficients : list float)
    (files : dict bytes) (results : list (str * nat))
  : option (dict bytes * list (str * nat)) :=
  match coefficients with
  | [] => Some (files, results)
  | coef :: rest =>
      let mods := mods_for field_config coef in
      let file_name := file_name_for output_prefix coef in
      match execute_modification p idf doc mods with
      | None => None
      | Some (n, out) =>
          if creatable file_name then
            generate_cases p idf doc field_config output_prefix rest
              (dict_set file_name out files) (results ++ [(file_name, n)])
          else None
      end
  end.

End Batch.

(** ** Further notions used to state the properties *)

Section MoreNotions.
Context {U : Unicode} {P : PyFloat} {EP : Eppy}.

(** The first token of a line as [open_block] reads it: what stands
    before the first comma of the text before the comment, without
    semicolons, stripped and upper-cased. *)
Definition first_token (line : str) : str :=
  upper (strip (remove_char SEMI
    (item0 (split COMMA (item0 (split BANG (strip line))))))).

(** The name that [capture_name] reads from a line. *)
Definition name_token (line : str) : str :=
  upper (strip (remove_char SEMI
    (remove_char COMMA (item0 (split BANG line))))).

(** The entry of the summary for a list of objects that is not empty. *)
Definition entry_of (objs : list EpBunch) : summary_entry :=
  {| count := length objs; all_names := map name_of objs |}.

(** One entry of the summary for each type that has objects. *)
Definition summary_of_entry (e : str * list EpBunch)
  : list (str * summary_entry) :=
  if (0 <? length (snd e))%nat then [(fst e, entry_of (snd e))] else [].

(** Whether a name is a key of the Update Set under some type. *)
Definition name_pending (m : updates_map) (n : str) : bool :=
  existsb (fun e => dict_mem n (snd e)) m.

(** The value held for a type, a name and a field. *)
Definition lookup3 (m : updates_map) (t n f : str) : option float :=
  dict_get f (dict_get_or n [] (dict_get_or t [] m)).

(** No key occurs twice at any of the three levels. *)
Definition well_keyed (m : updates_map) : Prop :=
  NoDup (map fst m) /\
  forall t names, In (t, names) m ->
    NoDup (map fst names) /\
    forall n fs, In (n, fs) names -> NoDup (map fst fs).

(** Whether a request is for that type, name and field. *)
Definition request_for (t n f : str) (u : update) : bool :=
  str_eqb (upper (u_type u)) t && str_eqb (upper (u_name u)) n
  && str_eqb (upper (u_field u)) f.

(** A value that [float] takes without an exception other than
    ValueError: not [None], and no integer too large for a float. *)
Definition convertible (v : fieldval) : Prop :=
  v <> VNone /\ forall n, v = VInt n -> float_of_int n <> None.

(** An object that [execute_modification] handles without an exception:
    its values are convertible and its name is a string. *)
Definition well_formed_object (obj : EpBunch) : Prop :=
  Forall convertible (fieldvalues obj) /\
  exists name, getattr obj (lit "Name") (VStr (lit "N/A")) = VStr name.

Definition well_formed_model (idf : idfobjects) : Prop :=
  Forall (fun e => Forall well_formed_object (snd e)) idf.

(** [idfobjects[object_type][0]], when the type is a key of the model
    and has an object. *)
Definition first_object (idf : idfobjects) (object_type : str)
  : option EpBunch :=
  match idf_get object_type idf with
  | Some (obj :: _) => Some obj
  | _ => None
  end.

End MoreNotions.

(** The number of commas of a text. *)
Definition commas (s : str) : nat :=
  length (filter (fun c => (c =? COMMA)%Z) s).

(** A character that is no carriage return. *)
Definition not_cr (c : char) : Prop := c <> CR.

(** ** Further samples *)

(** A request for a Zone named Z2, which [zone_rows] does not hold. *)
Definition zone_update_z2 : update :=
  {| u_type := lit "ZONE"; u_name := lit "Z2";
     u_field := lit "Some Field"; u_value := 80000000%Z |}.

(** Two requests for the same field of the same object. *)
Definition zone_update_again : update :=
  {| u_type := lit "Zone"; u_name := lit "z1";
     u_field := lit "SOME FIELD"; u_value := 50000000%Z |}.

(** The choice of fields made in the interface for the Lights objects. *)
Definition lights_config : dict (list str) :=
  [ (lit "LIGHTS", [lit "Watts per Zone Floor Area"; lit "Schedule Name"]) ].

(** A model with a type that has no object. *)
Definition two_type_model : idfobjects :=
  [ (lit "LIGHTS", [lights_object]); (lit "PEOPLE", []);
    (lit "ZONE", [zone_object; zone_object]) ].

(** A Schedule record whose semicolon is missing, followed by the Zone
    record of [zone_rows]. *)
Definition unclosed_rows : list string :=
  [ "  Always On,   !- Name";
    "Zone,";
    "  Z1,      !- Name";
    "  100.0,   !- Some Field" ]%string.

Definition in_schedule_block : state :=
  {| current_type := Some (lit "SCHEDULE:CONSTANT"); current_name := None;
     in_obj := true |}.

(** The choice of the field of the Zone objects, and the prefix of the
    file names. *)
Definition zone_config : dict (list str) :=
  [ (lit "ZONE", [lit "Some Field"]) ].

Definition case_prefix : str := lit "Case".

(** ** Classes of characters *)

Section Classes.
Context {U : Unicode}.

(** The characters a numeric token of the pattern is made of. *)
Definition token_char (c : char) : bool :=
  isdigit c || sign c || is_char FULL_STOP c
  || one_of [LETTER_E; LETTER_e] c.

(** What the pattern relies on to tell its parts apart, and what holds
    of Python's tables: no white space is a digit, a sign, a full stop
    or a letter, and a comma or a semicolon is neither white space nor a
    digit. *)
Definition classes_apart : Prop :=
  (forall c, isspace c = true -> token_char c = false) /\
  (forall c, one_of [COMMA; SEMI] c = true ->
     isspace c = false /\ token_char c = false).

(** A character of ASCII. *)
Definition is_ascii (c : char) : bool := ((0 <=? c) && (c <? 128))%Z.

(** On a text of ASCII characters [upper] and [lower] are the ASCII
    tables, character by character, as they are in Python. *)
Definition ascii_tables : Prop :=
  forall s, forallb is_ascii s = true ->
    upper s = map ascii_upper_char s /\ lower s = map ascii_lower_char s.

(** [upper] maps a text character by character, whatever stands around
    a character, and leaves the space and the underscore as they are,
    as Python's [str.upper] does. ([str.lower] does not: what it makes
    of a capital sigma depends on what follows.) *)
Definition upper_by_char : Prop :=
  (forall a b, upper (a ++ b) = upper a ++ upper b) /\
  upper [SPACE] = [SPACE] /\ upper [UNDERSCORE] = [UNDERSCORE].

(** Two labels that differ in one place: by a part that is the same in
    upper case, by a space in the place of an underscore, or by a space
    or an underscore that one of them has and the other has not. *)
Inductive alike1 : str -> str -> Prop :=
| A_case pre x y post :
    upper x = upper y ->
    alike1 (pre ++ x ++ post) (pre ++ y ++ post)
| A_swap pre c d post :
    separator c -> separator d ->
    alike1 (pre ++ c :: post) (pre ++ d :: post)
| A_drop pre c post :
    separator c -> alike1 (pre ++ c :: post) (pre ++ post)
| A_add pre c post :
    separator c -> alike1 (pre ++ post) (pre ++ c :: post).

(** Two labels that differ by case, spaces and underscores only. *)
Inductive alike : str -> str -> Prop :=
| A_same s : alike s s
| A_step a b c : alike1 a b -> alike b c -> alike a c.

End Classes.

Section Matching.
Context {U : Unicode} {P : PyFloat}.

(** The state in which a line read inside a block is dealt with: after
    the first [if] of the loop body, the test for the semicolon and the
    capture of the name. *)
Definition state_in_block (m : updates_map) (st : state) (line : str)
  : state :=
  capture_name (close_block (open_block m st line) line) line.

(** A matched line: it is read inside a block whose type is pending, it
    holds a [!], and [matched_val] is the value [v]. *)
Definition matched (m : updates_map) (st : state) (line : str) (v : float)
  : Prop :=
  in_obj (open_block m st line) = true /\
  type_pending m (current_type (state_in_block m st line)) = true /\
  has_char BANG line = true /\
  first_match (field_key_of line) (target_fields m (state_in_block m st line))
  = Some v.

End Matching.

(** ** Further samples *)

Definition TAB : char := 9%Z.

(** The label of the Lights object with a tab in the place of a space,
    and the line of the document with the same label as its comment. *)
Definition tabbed_label : str :=
  lit "Watts per Zone" ++ [TAB] ++ lit "Floor Area".

Definition tabbed_line : str :=
  lit "    10.0,                    !- " ++ tabbed_label ++ [NL].

(** A People object as eppy parses it and as the document holds it:
    the label of its number of people begins the labels of two fields
    that hold a text. *)
Definition people_object : EpBunch :=
  {| fieldnames :=
       map lit [ "key"; "Name"; "Zone_or_ZoneList_Name";
                 "Number_of_People_Schedule_Name";
                 "Number_of_People_Calculation_Method";
                 "Number_of_People" ]%string;
     fieldvalues :=
       [ VStr (lit "People"); VStr (lit "Office People");
         VStr (lit "Office"); VStr (lit "Occupancy");
         VStr (lit "People"); VFloat 10000000%Z ] |}.

Definition people_model : idfobjects := [ (lit "PEOPLE", [people_object]) ].

Definition people_rows : list string :=
  [ "People,";
    "    Office People,           !- Name";
    "    Office,                  !- Zone or ZoneList Name";
    "    Occupancy,               !- Number of People Schedule Name";
    "    People,                  !- Number of People Calculation Method";
    "    10.0;                    !- Number of People" ]%string.

Definition people_rows_patched : list string :=
  [ "People,";
    "    Office People,           !- Name";
    "    Office,                  !- Zone or ZoneList Name";
    "    8.0,               !- Number of People Schedule Name";
    "    8.0,                  !- Number of People Calculation Method";
    "    8.0;                    !- Number of People" ]%string.

(** Scale by 0.8 the schedule name, a text, and the number of people. *)
Definition people_modification : modification :=
  {| object_type := lit "PEOPLE";
     fields := [ lit "Number of People Schedule Name";
                 lit "Number of People" ];
     coef := 800000%Z |}.

Definition people_update : update :=
  {| u_type := lit "PEOPLE"; u_name := lit "Office People";
     u_field := lit "Number_of_People"; u_value := 8000000%Z |}.

(** The Lights object with its lighting level, left blank, at the end
    of the record, and the modification that scales this field. *)
Definition level_rows : list string :=
  [ "Lights,";
    "    Office Lights,           !- Name";
    "    Office,                  !- Zone or ZoneList Name";
    "    Lights Schedule,         !- Schedule Name";
    "    LightingLevel,           !- Design Level Calculation Method";
    "    ;                        !- Lighting Level {W}" ]%string.

Definition level_object : EpBunch :=
  {| fieldnames :=
       map lit [ "key"; "Name"; "Zone_or_ZoneList_Name"; "Schedule_Name";
                 "Design_Level_Calculation_Method"; "Lighting_Level" ]%string;
     fieldvalues :=
       [ VStr (lit "Lights"); VStr (lit "Office Lights");
         VStr (lit "Office"); VStr (lit "Lights Schedule");
         VStr (lit "LightingLevel"); VStr [] ] |}.

Definition level_model : idfobjects := [ (lit "LIGHTS", [level_object]) ].

(** The modification of the Lights object asked for with its type in
    mixed case. *)
Definition scale_fields_mixed (fs : list string) : modification :=
  {| object_type := lit "Lights"; fields := map lit fs; coef := 800000%Z |}.

(** An integer too large for a float, as the value of a field. *)
Definition huge_object : EpBunch :=
  {| fieldnames := map lit [ "key"; "Name"; "Some_Field" ]%string;
     fieldvalues :=
       [ VStr (lit "Zone"); VStr (lit "Z1"); VInt (2 ^ 1024) ] |}.

Definition huge_model : idfobjects := [ (lit "ZONE", [huge_object]) ].

(** A file name without a directory part. *)
Definition SLASH : char := 47%Z.
Definition BACKSLASH : char := 92%Z.

Definition plain_name (name : str) : bool :=
  negb (has_char SLASH name) && negb (has_char BACKSLASH name).

(** The files of the output directory left by an earlier batch. *)
Definition earlier_files : dict bytes :=
  [ (lit "Case_0.5.idf", file_of LF zone_rows);
    (lit "Case_0.8.idf", file_of LF zone_rows) ].
(** * Properties *)

(** ** The loop of the patcher *)

Section PatcherFacts.
Context {U : Unicode} {P : PyFloat}.

Lemma process_line_unflagged (m : updates_map) (st : state) (line : str) :
  snd (process_line m st line) = false ->
  snd (fst (process_line m st line)) = line.
Proof.
  unfold process_line.
  destruct (in_obj (open_block m st line)); [|reflexivity].
  destruct (type_pending m _ && has_char BANG line); [|reflexivity].
  destruct (first_match _ _) as [v|]; [|reflexivity].
  destruct (substitute v line); [discriminate|reflexivity].
Qed.

Lemma process_line_no_bang (m : updates_map) (st : state) (line : str) :
  has_char BANG line = false ->
  snd (fst (process_line m st line)) = line /\
  snd (process_line m st line) = false.
Proof.
  intros Hb. unfold process_line.
  destruct (in_obj (open_block m st line)); [|split; reflexivity].
  rewrite Hb, andb_false_r. split; reflexivity.
Qed.

(** The [i]-th turn of the loop starts in the state left by the first
    [i] lines. *)
Lemma run_nth (m : updates_map) (lines : list str) :
  forall (st : state) (i : nat) (line : str),
    nth_error lines i = Some line ->
    nth_error (run m st lines) i =
      let r := process_line m (state_after m st (firstn i lines)) line in
      Some (snd (fst r), snd r).
Proof.
  induction lines as [|l ls IH]; intros st i line Hi.
  - destruct i; discriminate.
  - destruct i as [|i]; simpl in *.
    + injection Hi as ->.
      destruct (process_line m st line) as [[st' l'] hit]. reflexivity.
    + destruct (process_line m st l) as [[st' l'] hit] eqn:E. simpl.
      apply IH. exact Hi.
Qed.

Lemma run_length (m : updates_map) (lines : list str) :
  forall st, length (run m st lines) = length lines.
Proof.
  induction lines as [|l ls IH]; intros st; simpl; [reflexivity|].
  destruct (process_line m st l) as [[st' l'] hit]. simpl. now rewrite IH.
Qed.

Lemma run_nth_inv (m : updates_map) (lines : list str) :
  forall (st : state) (i : nat) (out : str) (hit : bool),
    nth_error (run m st lines) i = Some (out, hit) ->
    exists line, nth_error lines i = Some line /\
      snd (fst (process_line m (state_after m st (firstn i lines)) line))
        = out /\
      snd (process_line m (state_after m st (firstn i lines)) line) = hit.
Proof.
  intros st i out hit H.
  destruct (nth_error lines i) as [line|] eqn:E.
  - exists line. split; [reflexivity|].
    rewrite (run_nth m lines st i E) in H. simpl in H.
    injection H as H1 H2. split; assumption.
  - apply nth_error_None in E.
    assert (nth_error (run m st lines) i = None) as C
      by (apply nth_error_None; now rewrite run_length).
    congruence.
Qed.

(** With nothing pending no line is rewritten. *)
Lemma process_line_empty (st : state) (line : str) :
  snd (fst (process_line [] st line)) = line /\
  snd (process_line [] st line) = false.
Proof.
  unfold process_line.
  destruct (in_obj (open_block [] st line)); [|split; reflexivity].
  assert (forall t, type_pending ([] : updates_map) t = false) as E
    by (intros [t|]; reflexivity).
  rewrite E. split; reflexivity.
Qed.

Lemma run_empty (lines : list str) :
  forall st, run [] st lines = map (fun l => (l, false)) lines.
Proof.
  induction lines as [|l ls IH]; intros st; simpl; [reflexivity|].
  destruct (process_line_empty st l) as [H1 H2].
  destruct (process_line [] st l) as [[st' l'] hit]. simpl in *.
  subst. now rewrite IH.
Qed.

Lemma patch_lines_empty (lines : list str) : patch_lines [] lines = lines.
Proof.
  unfold patch_lines. simpl build_map. rewrite run_empty, map_map.
  simpl. apply map_id.
Qed.

(** Inside a block the name is set by the lines that hold the text
    [!- Name], and by them only. *)
Lemma process_line_name (m : updates_map) (st : state) (line : str) :
  in_obj st = true ->
  current_name (fst (fst (process_line m st line))) =
    if contains (lit "!- Name") line
    then Some (upper (strip (remove_char SEMI
                 (remove_char COMMA (item0 (split BANG line))))))
    else current_name st.
Proof.
  intros Hin.
  assert (open_block m st line = st) as E
    by (unfold open_block; now rewrite Hin).
  unfold process_line. rewrite E, Hin.
  assert (current_name (capture_name (close_block st line) line) =
          if contains (lit "!- Name") line
          then Some (upper (strip (remove_char SEMI
                       (remove_char COMMA (item0 (split BANG line))))))
          else current_name st) as N.
  { unfold capture_name, close_block.
    destruct (contains (lit "!- Name") line);
      destruct (has_char SEMI (item0 (split BANG line))); reflexivity. }
  destruct (type_pending m _ && has_char BANG line); [|exact N].
  destruct (first_match _ _) as [v|]; [|exact N].
  destruct (substitute v line); exact N.
Qed.

End PatcherFacts.

(** ** Bytes and code points *)

Lemma ord_range (b : Byte.byte) : (0 <= ord b < 256)%Z.
Proof.
  unfold ord. pose proof (Byte.to_N_bounded b). lia.
Qed.

Lemma byte_of_ord (b : Byte.byte) : byte_of (ord b) = b.
Proof.
  unfold byte_of, ord. rewrite N2Z.id, Byte.of_to_N. reflexivity.
Qed.

Lemma ord_byte_of (z : Z) : (0 <= z < 256)%Z -> ord (byte_of z) = z.
Proof.
  intros Hz. unfold byte_of, ord.
  destruct (Byte.of_N (Z.to_N z)) as [b|] eqn:E.
  - apply Byte.to_of_N_iff in E. rewrite E. lia.
  - apply Byte.of_N_None_iff in E. lia.
Qed.

Ltac bool_cases :=
  repeat match goal with
  | |- context [if ?c then _ else _] =>
      let E := fresh "E" in destruct c eqn:E; try (exfalso; lia)
  end.

Lemma utf8_decode_step (bs : bytes) :
  utf8_decode bs =
    match bs with
    | [] => Some []
    | _ :: _ =>
        match decode_one bs with
        | Some (c, rest) => option_map (cons c) (utf8_decode rest)
        | None => None
        end
    end.
Proof.
  destruct bs as [|b1 r1]; [reflexivity|].
  cbn [utf8_decode decode_one].
  destruct (ord b1 <? 0x80)%Z; [reflexivity|].
  destruct ((0xC2 <=? ord b1) && (ord b1 <=? 0xDF))%Z.
  { destruct r1 as [|b2 r2]; [reflexivity|].
    destruct (is_cont (ord b2)); reflexivity. }
  destruct ((0xE0 <=? ord b1) && (ord b1 <=? 0xEF))%Z.
  { destruct r1 as [|b2 [|b3 r3]]; try reflexivity.
    destruct (second_of_3 (ord b1) (ord b2) && is_cont (ord b3));
      reflexivity. }
  destruct ((0xF0 <=? ord b1) && (ord b1 <=? 0xF4))%Z; [|reflexivity].
  destruct r1 as [|b2 [|b3 [|b4 r4]]]; try reflexivity.
  destruct (second_of_4 (ord b1) (ord b2) && is_cont (ord b3)
            && is_cont (ord b4)); reflexivity.
Qed.

(** What one turn of the decoder reads is the encoding of what it
    returns. *)
Lemma decode_one_sound (bs rest : bytes) (c : char) :
  decode_one bs = Some (c, rest) ->
  exists enc, utf8_encode_char c = Some enc /\ bs = enc ++ rest /\
              enc <> [] /\ scalar c.
Proof.
  destruct bs as [|b1 r1]; [discriminate|].
  cbn [decode_one]. pose proof (ord_range b1) as R1.
  destruct (ord b1 <? 0x80)%Z eqn:E1.
  { intros H. injection H as <- <-. exists [b1].
    unfold utf8_encode_char, scalar. bool_cases.
    rewrite byte_of_ord. repeat split; try discriminate. lia. }
  destruct ((0xC2 <=? ord b1) && (ord b1 <=? 0xDF))%Z eqn:E2.
  { destruct r1 as [|b2 r2]; [discriminate|].
    pose proof (ord_range b2) as R2. unfold is_cont.
    destruct ((0x80 <=? ord b2) && (ord b2 <=? 0xBF))%Z eqn:E3;
      [|discriminate].
    intros H. injection H as <- <-. exists [b1; b2].
    unfold utf8_encode_char, scalar. bool_cases.
    replace (0xC0 + ((ord b1 - 0xC0) * 64 + (ord b2 - 0x80)) / 64)%Z
      with (ord b1) by (Z.div_mod_to_equations; lia).
    replace (0x80 + ((ord b1 - 0xC0) * 64 + (ord b2 - 0x80)) mod 64)%Z
      with (ord b2) by (Z.div_mod_to_equations; lia).
    rewrite !byte_of_ord. repeat split; try discriminate. lia. }
  destruct ((0xE0 <=? ord b1) && (ord b1 <=? 0xEF))%Z eqn:E3.
  { destruct r1 as [|b2 [|b3 r3]]; try discriminate.
    pose proof (ord_range b2) as R2. pose proof (ord_range b3) as R3.
    unfold second_of_3, is_cont.
    destruct ((if (ord b1 =? 0xE0)%Z
               then ((0xA0 <=? ord b2) && (ord b2 <=? 0xBF))%Z
               else if (ord b1 =? 0xED)%Z
                    then ((0x80 <=? ord b2) && (ord b2 <=? 0x9F))%Z
                    else ((0x80 <=? ord b2) && (ord b2 <=? 0xBF))%Z)
              && ((0x80 <=? ord b3) && (ord b3 <=? 0xBF))%Z) eqn:E4;
      [|discriminate].
    intros H. injection H as <- <-. exists [b1; b2; b3].
    assert (0xA0 <= ord b2 \/ 0xE0 < ord b1)%Z as Lo
      by (destruct (ord b1 =? 0xE0)%Z eqn:?; lia).
    assert (ord b2 <= 0x9F \/ ord b1 <> 0xED)%Z as Hi
      by (destruct (ord b1 =? 0xE0)%Z eqn:?;
          destruct (ord b1 =? 0xED)%Z eqn:?; lia).
    assert (0x80 <= ord b2 <= 0xBF /\ 0x80 <= ord b3 <= 0xBF)%Z as [C2 C3]
      by (destruct (ord b1 =? 0xE0)%Z eqn:?;
          destruct (ord b1 =? 0xED)%Z eqn:?; lia).
    clear E4.
    set (cp := ((ord b1 - 0xE0) * 4096 + (ord b2 - 0x80) * 64
                + (ord b3 - 0x80))%Z).
    assert (0x800 <= cp < 0xD800 \/ 0xE000 <= cp < 0x10000)%Z as Rg
      by (unfold cp; lia).
    unfold utf8_encode_char, scalar. bool_cases.
    replace (0xE0 + cp / 4096)%Z with (ord b1)
      by (unfold cp; Z.div_mod_to_equations; lia).
    replace (0x80 + (cp / 64) mod 64)%Z with (ord b2)
      by (unfold cp; Z.div_mod_to_equations; lia).
    replace (0x80 + cp mod 64)%Z with (ord b3)
      by (unfold cp; Z.div_mod_to_equations; lia).
    rewrite !byte_of_ord. repeat split; try discriminate. lia. }
  destruct ((0xF0 <=? ord b1) && (ord b1 <=? 0xF4))%Z eqn:E4;
    [|discriminate].
  destruct r1 as [|b2 [|b3 [|b4 r4]]]; try discriminate.
  pose proof (ord_range b2) as R2. pose proof (ord_range b3) as R3.
  pose proof (ord_range b4) as R4.
  unfold second_of_4, is_cont.
  destruct ((if (ord b1 =? 0xF0)%Z
             then ((0x90 <=? ord b2) && (ord b2 <=? 0xBF))%Z
             else if (ord b1 =? 0xF4)%Z
                  then ((0x80 <=? ord b2) && (ord b2 <=? 0x8F))%Z
                  else ((0x80 <=? ord b2) && (ord b2 <=? 0xBF))%Z)
            && ((0x80 <=? ord b3) && (ord b3 <=? 0xBF))%Z
            && ((0x80 <=? ord b4) && (ord b4 <=? 0xBF))%Z) eqn:E5;
    [|discriminate].
  intros H. injection H as <- <-. exists [b1; b2; b3; b4].
  assert (0x90 <= ord b2 \/ 0xF0 < ord b1)%Z as Lo
    by (destruct (ord b1 =? 0xF0)%Z eqn:?; lia).
  assert (ord b2 <= 0x8F \/ ord b1 < 0xF4)%Z as Hi
    by (destruct (ord b1 =? 0xF0)%Z eqn:?;
        destruct (ord b1 =? 0xF4)%Z eqn:?; lia).
  assert (0x80 <= ord b2 <= 0xBF /\ 0x80 <= ord b3 <= 0xBF
          /\ 0x80 <= ord b4 <= 0xBF)%Z as (C2 & C3 & C4)
    by (destruct (ord b1 =? 0xF0)%Z eqn:?;
        destruct (ord b1 =? 0xF4)%Z eqn:?; lia).
  clear E5.
  set (cp := ((ord b1 - 0xF0) * 262144 + (ord b2 - 0x80) * 4096
              + (ord b3 - 0x80) * 64 + (ord b4 - 0x80))%Z).
  assert (0x10000 <= cp <= 0x10FFFF)%Z as Rg by (unfold cp; lia).
  unfold utf8_encode_char, scalar. bool_cases.
  replace (0xF0 + cp / 262144)%Z with (ord b1)
    by (unfold cp; Z.div_mod_to_equations; lia).
  replace (0x80 + (cp / 4096) mod 64)%Z with (ord b2)
    by (unfold cp; Z.div_mod_to_equations; lia).
  replace (0x80 + (cp / 64) mod 64)%Z with (ord b3)
    by (unfold cp; Z.div_mod_to_equations; lia).
  replace (0x80 + cp mod 64)%Z with (ord b4)
    by (unfold cp; Z.div_mod_to_equations; lia).
  rewrite !byte_of_ord. repeat split; try discriminate. lia.
Qed.

Lemma utf8_decode_encode_le (n : nat) :
  forall (bs : bytes) (s : str),
    length bs <= n ->
    utf8_decode bs = Some s ->
    utf8_encode s = Some bs /\ Forall scalar s.
Proof.
  induction n as [|n IH]; intros bs s Hn H.
  - destruct bs; [|simpl in Hn; lia].
    injection H as <-. split; [reflexivity|constructor].
  - rewrite utf8_decode_step in H.
    destruct bs as [|b1 r1].
    { injection H as <-. split; [reflexivity|constructor]. }
    destruct (decode_one (b1 :: r1)) as [[c rest]|] eqn:D; [|discriminate].
    destruct (decode_one_sound _ D) as (enc & He & Hb & Hne & Hsc).
    destruct (utf8_decode rest) as [s'|] eqn:R; [|discriminate].
    injection H as <-.
    assert (length rest <= n) as Hl.
    { assert (length (b1 :: r1) = length enc + length rest) as L
        by (rewrite Hb; apply length_app).
      destruct enc; [congruence|]. simpl in *. lia. }
    destruct (IH rest s' Hl R) as [IH1 IH2].
    split; [|constructor; assumption].
    cbn [utf8_encode]. rewrite He, IH1, Hb. reflexivity.
Qed.

(** Decoding then encoding gives the bytes back. *)
Lemma utf8_decode_encode (bs : bytes) (s : str) :
  utf8_decode bs = Some s -> utf8_encode s = Some bs.
Proof.
  intros H. exact (proj1 (@utf8_decode_encode_le (length bs) bs s (le_n _) H)).
Qed.

Lemma utf8_decode_scalar (bs : bytes) (s : str) :
  utf8_decode bs = Some s -> Forall scalar s.
Proof.
  intros H. exact (proj2 (@utf8_decode_encode_le (length bs) bs s (le_n _) H)).
Qed.

Ltac bool_cases_div :=
  repeat match goal with
  | |- context [if ?c then _ else _] =>
      let E := fresh "E" in
      destruct c eqn:E; try (exfalso; Z.div_mod_to_equations; lia)
  end.

Lemma Some_eq {A} (x y : A) : Some x = Some y -> x = y.
Proof. congruence. Qed.

(** One turn of the decoder on the encoding of a code point. *)
Lemma decode_one_encode (c : char) (enc rest : bytes) :
  utf8_encode_char c = Some enc ->
  decode_one (enc ++ rest) = Some (c, rest) /\ enc <> [] /\ scalar c.
Proof.
  unfold utf8_encode_char.
  destruct (c <? 0)%Z eqn:E0; [discriminate|].
  destruct (c <? 0x80)%Z eqn:E1.
  { intros H. apply Some_eq in H. subst enc. rewrite <- ?app_comm_cons, app_nil_l; unfold decode_one.
    rewrite ord_byte_of by lia. rewrite E1.
    repeat split; try discriminate. unfold scalar. lia. }
  destruct (c <? 0x800)%Z eqn:E2.
  { intros H. apply Some_eq in H. subst enc. rewrite <- ?app_comm_cons, app_nil_l; unfold decode_one.
    rewrite !ord_byte_of by (Z.div_mod_to_equations; lia).
    unfold is_cont. bool_cases_div.
    repeat split; try discriminate; [|unfold scalar; lia].
    do 2 f_equal. Z.div_mod_to_equations; lia. }
  destruct (c <? 0x10000)%Z eqn:E3.
  { destruct ((0xD800 <=? c) && (c <=? 0xDFFF))%Z eqn:E4; [discriminate|].
    intros H. apply Some_eq in H. subst enc. rewrite <- ?app_comm_cons, app_nil_l; unfold decode_one.
    rewrite !ord_byte_of by (Z.div_mod_to_equations; lia).
    unfold second_of_3, is_cont.
    destruct (0xE0 + c / 4096 =? 0xE0)%Z eqn:Ea;
      destruct (0xE0 + c / 4096 =? 0xED)%Z eqn:Eb; bool_cases_div.
    all: repeat split; try discriminate; try (unfold scalar; lia).
    all: do 2 f_equal; Z.div_mod_to_equations; lia. }
  destruct (c <=? 0x10FFFF)%Z eqn:E4; [|discriminate].
  intros H. apply Some_eq in H. subst enc. rewrite <- ?app_comm_cons, app_nil_l; unfold decode_one.
  rewrite !ord_byte_of by (Z.div_mod_to_equations; lia).
  unfold second_of_4, is_cont.
  destruct (0xF0 + c / 262144 =? 0xF0)%Z eqn:Ea;
    destruct (0xF0 + c / 262144 =? 0xF4)%Z eqn:Eb; bool_cases_div.
  all: repeat split; try discriminate; try (unfold scalar; lia).
  all: do 2 f_equal; Z.div_mod_to_equations; lia.
Qed.

(** Encoding then decoding gives the text back. *)
Lemma utf8_encode_decode (s : str) :
  forall bs, utf8_encode s = Some bs -> utf8_decode bs = Some s.
Proof.
  induction s as [|c s IH]; intros bs H.
  - injection H as <-. reflexivity.
  - cbn [utf8_encode] in H.
    destruct (utf8_encode_char c) as [enc|] eqn:Ec; [|discriminate].
    destruct (utf8_encode s) as [bs'|] eqn:Es; [|discriminate].
    injection H as <-.
    destruct (@decode_one_encode c enc bs' Ec) as (D & Hne & _).
    rewrite utf8_decode_step.
    destruct (enc ++ bs') as [|b r] eqn:A.
    { destruct enc; [congruence|discriminate]. }
    rewrite D, (IH bs' eq_refl). reflexivity.
Qed.

Lemma utf8_encode_char_total (c : char) :
  scalar c -> exists enc, utf8_encode_char c = Some enc.
Proof.
  unfold scalar, utf8_encode_char. intros H.
  bool_cases; eexists; reflexivity.
Qed.

Lemma utf8_encode_total (s : str) :
  Forall scalar s -> exists bs, utf8_encode s = Some bs.
Proof.
  induction 1 as [|c s Hc _ [bs IH]]; [exists []; reflexivity|].
  destruct (utf8_encode_char_total Hc) as [enc He].
  exists (enc ++ bs). cbn [utf8_encode]. now rewrite He, IH.
Qed.

(** ** Lines and line ends *)

Lemma concat_lines_of (s : str) : concat (lines_of s) = s.
Proof.
  induction s as [|c s IH]; [reflexivity|].
  cbn [lines_of]. destruct (c =? NL)%Z.
  - cbn [concat app]. now rewrite IH.
  - destruct (lines_of s) as [|l ls]; cbn [concat app] in *.
    + now rewrite <- IH.
    + now rewrite <- IH.
Qed.

Lemma universal_newlines_no_cr (s : str) :
  has_char CR s = false -> universal_newlines s = s.
Proof.
  induction s as [|c s IH]; [reflexivity|].
  unfold has_char in *. cbn [existsb universal_newlines].
  intros H. apply orb_false_iff in H. destruct H as [H1 H2].
  rewrite Z.eqb_sym in H1. rewrite H1. now rewrite IH.
Qed.

Lemma write_newlines_posix (s : str) : write_newlines Posix s = s.
Proof.
  unfold write_newlines.
  induction s as [|c s IH]; [reflexivity|].
  cbn [flat_map]. rewrite IH. destruct (c =? NL)%Z eqn:E; [|reflexivity].
  apply Z.eqb_eq in E. now subst.
Qed.

Lemma scalar_universal_newlines (s : str) :
  Forall scalar s -> Forall scalar (universal_newlines s).
Proof.
  assert (scalar NL) as HNL by (unfold scalar, NL; lia).
  assert (forall n (t : str), length t <= n -> Forall scalar t ->
            Forall scalar (universal_newlines t)) as G.
  { induction n as [|n IH]; intros t Hn Ht.
    - destruct t; [constructor | simpl in Hn; lia].
    - destruct t as [|c t]; [constructor|].
      cbn [universal_newlines]. simpl in Hn.
      inversion Ht as [|? ? Hc Ht']; subst.
      destruct (c =? CR)%Z.
      + constructor; [exact HNL|]. destruct t as [|d u]; [constructor|].
        simpl in Hn. destruct (d =? NL)%Z.
        * apply IH; [lia|]. now inversion Ht'.
        * apply IH; [simpl; lia|assumption].
      + constructor; [assumption|]. apply IH; [lia|assumption]. }
  intros H. exact (G (length s) s (le_n _) H).
Qed.

(** ** Reading and writing the document *)

Section FileFacts.
Context {U : Unicode} {P : PyFloat}.

Lemma read_document_scalar (doc : bytes) :
  Forall scalar (concat (snd (read_document doc))).
Proof.
  unfold read_document.
  destruct (utf8_decode doc) as [text|] eqn:D; cbn [snd];
    rewrite concat_lines_of; apply scalar_universal_newlines.
  - exact (utf8_decode_scalar doc D).
  - unfold latin1_decode. apply Forall_forall. intros c Hc.
    apply in_map_iff in Hc. destruct Hc as (b & <- & _).
    pose proof (ord_range b). unfold scalar. lia.
Qed.

Lemma scalar_write_newlines (p : platform) (s : str) :
  Forall scalar s -> Forall scalar (write_newlines p s).
Proof.
  unfold write_newlines. induction 1 as [|c s Hc _ IH]; [constructor|].
  cbn [flat_map]. apply Forall_app. split; [|exact IH].
  destruct (c =? NL)%Z; [|now constructor].
  destruct p; repeat constructor; unfold scalar, NL, CR; lia.
Qed.

(** With nothing to update the method always writes a file. *)
Lemma save_empty_total (p : platform) (doc : bytes) :
  exists out, _save_with_text_replacement p [] doc = Some out.
Proof.
  unfold _save_with_text_replacement, write_document.
  rewrite patch_lines_empty.
  apply utf8_encode_total, scalar_write_newlines, read_document_scalar.
Qed.

(** A UTF-8 document without carriage returns, read and written back
    where the line separator is LF. *)
Lemma save_empty_utf8_posix (doc : bytes) (text : str) :
  utf8_decode doc = Some text ->
  has_char CR text = false ->
  _save_with_text_replacement Posix [] doc = Some doc.
Proof.
  intros D H.
  unfold _save_with_text_replacement, write_document, read_document.
  rewrite D. cbn [snd].
  rewrite patch_lines_empty, concat_lines_of, write_newlines_posix,
    (universal_newlines_no_cr _ H).
  exact (utf8_decode_encode doc D).
Qed.

End FileFacts.

(** ** The Object Index and the Update Set *)

Section ModelFacts.
Context {U : Unicode} {P : PyFloat} {EP : Eppy}.

Lemma last_nonblank_spec (vals : list fieldval) :
  forall idx last_idx : Z,
    last_nonblank idx last_idx vals =
      match used_length vals with
      | 0 => last_idx
      | S k => (idx + Z.of_nat k)%Z
      end.
Proof.
  induction vals as [|v vs IH]; intros idx last_idx; [reflexivity|].
  cbn [last_nonblank used_length]. rewrite IH.
  destruct (used_length vs) as [|k].
  - destruct (is_blank v); [reflexivity|]. simpl. lia.
  - lia.
Qed.

Lemma collect_active_spec (names : list str) :
  forall idx last_idx : Z,
    collect_active idx last_idx names =
      filter (fun f => negb (is_key f))
             (firstn (Z.to_nat (last_idx - idx + 1)) names).
Proof.
  induction names as [|f fs IH]; intros idx last_idx.
  - now rewrite firstn_nil.
  - cbn [collect_active]. fold (is_key f).
    destruct (is_key f) eqn:K.
    + rewrite IH.
      destruct (Z.to_nat (last_idx - idx + 1)) as [|n] eqn:E.
      * replace (Z.to_nat (last_idx - (idx + 1) + 1)) with 0 by lia.
        reflexivity.
      * replace (Z.to_nat (last_idx - (idx + 1) + 1)) with n by lia.
        cbn [firstn filter]. now rewrite K.
    + destruct (idx >? last_idx)%Z eqn:G.
      * replace (Z.to_nat (last_idx - idx + 1)) with 0 by lia. reflexivity.
      * rewrite IH.
        destruct (Z.to_nat (last_idx - idx + 1)) as [|n] eqn:E; [lia|].
        replace (Z.to_nat (last_idx - (idx + 1) + 1)) with n by lia.
        cbn [firstn filter]. now rewrite K.
Qed.

Lemma get_active_fields_spec (obj : EpBunch) :
  _get_active_fields obj =
    filter (fun f => negb (is_key f))
           (firstn (used_length (fieldvalues obj)) (fieldnames obj)).
Proof.
  unfold _get_active_fields. rewrite last_nonblank_spec.
  destruct (used_length (fieldvalues obj)) as [|k].
  - reflexivity.
  - destruct (0 + Z.of_nat k <? 0)%Z eqn:E;
      [apply Z.ltb_lt in E; exfalso; lia|].
    rewrite collect_active_spec. f_equal. f_equal. lia.
Qed.

(** A field yields one request or none, unless the method fails. *)
Lemma field_requests_length (obj_type : str) (coef : float)
    (obj : EpBunch) (field : str) (ups : list update) :
  field_requests obj_type coef obj field = Some ups ->
  length ups = if emits obj field then 1 else 0.
Proof.
  unfold field_requests, emits.
  destruct (find_attr _ _) as [[|c a]|].
  - intros H. now injection H as <-.
  - destruct (to_float _).
    + destruct (getattr obj (lit "Name") _); try discriminate.
      intros H. now injection H as <-.
    + intros H. now injection H as <-.
    + discriminate.
    + discriminate.
  - intros H. now injection H as <-.
Qed.

Lemma gather_length {A} (f : A -> option (list update)) (g : A -> nat)
    (l : list A) :
  (forall x ups, In x l -> f x = Some ups -> length ups = g x) ->
  forall ups, gather f l = Some ups -> length ups = list_sum (map g l).
Proof.
  induction l as [|x l IH]; intros Hg ups H.
  - injection H as <-. reflexivity.
  - cbn [gather] in H.
    destruct (f x) as [a|] eqn:Fx; [|discriminate].
    destruct (gather f l) as [b|] eqn:G; [|discriminate].
    injection H as <-. rewrite length_app. cbn [map list_sum].
    rewrite (Hg x a (or_introl eq_refl) Fx).
    rewrite (IH (fun y u Hy => Hg y u (or_intror Hy)) b eq_refl).
    reflexivity.
Qed.

Lemma list_sum_indicator {A} (p : A -> bool) (l : list A) :
  list_sum (map (fun x => if p x then 1 else 0) l) = length (filter p l).
Proof.
  induction l as [|x l IH]; [reflexivity|].
  cbn [map list_sum filter]. destruct (p x); simpl; now rewrite IH.
Qed.

Lemma build_updates_length (idf : idfobjects)
    (modifications : list modification) (ups : list update) :
  build_updates idf modifications = Some ups ->
  length ups = requests_expected idf modifications.
Proof.
  unfold build_updates, requests_expected.
  apply gather_length. intros md u _ H.
  unfold mod_requests in H.
  destruct (idf_get (object_type md) idf) as [objs|].
  - revert u H. apply gather_length. intros obj u _ H.
    rewrite <- list_sum_indicator.
    revert u H. apply gather_length. intros field u _ H.
    exact (field_requests_length _ _ _ _ H).
  - now injection H as <-.
Qed.

Lemma gather_app {A} (f : A -> option (list update)) (l1 l2 : list A) :
  gather f (l1 ++ l2) =
    match gather f l1, gather f l2 with
    | Some a, Some b => Some (a ++ b)
    | _, _ => None
    end.
Proof.
  induction l1 as [|x l1 IH]; cbn [app gather].
  - destruct (gather f l2); reflexivity.
  - rewrite IH. destruct (f x); [|reflexivity].
    destruct (gather f l1); [|reflexivity].
    destruct (gather f l2); [|reflexivity].
    now rewrite app_assoc.
Qed.

(** A turn of the loop that appends nothing can be left out. *)
Lemma gather_skip {A} (f : A -> option (list update)) (x : A)
    (before after : list A) :
  f x = Some [] ->
  gather f (before ++ x :: after) = gather f (before ++ after).
Proof.
  intros H. rewrite !gather_app. cbn [gather]. rewrite H.
  destruct (gather f before); [|reflexivity].
  destruct (gather f after); reflexivity.
Qed.

End ModelFacts.

(** ** The matcher and the pattern *)

Lemma star_k_sound {R} (p : char -> bool) (k : str -> option R) (res : R) :
  forall s, star_k p s k = Some res ->
    exists pre rest,
      s = pre ++ rest /\ forallb p pre = true /\ k rest = Some res.
Proof.
  induction s as [|c s IH]; cbn [star_k]; intros H.
  - exists [], []. repeat split. exact H.
  - destruct (p c) eqn:Pc.
    + destruct (star_k p s k) as [r|] eqn:E.
      * injection H as ->.
        destruct (IH eq_refl) as (pre & rest & -> & Hp & Hk).
        exists (c :: pre), rest. cbn [forallb app]. rewrite Pc, Hp.
        repeat split. exact Hk.
      * exists [], (c :: s). repeat split. exact H.
    + exists [], (c :: s). repeat split. exact H.
Qed.

(** Whatever the matcher finds is a match of the pattern. *)
Lemma re_run_sound (r : re) :
  forall (s : str) (cs : captures)
         (k : str -> captures -> option captures) (res : captures),
    re_run r s cs k = Some res ->
    exists pre rest cs',
      s = pre ++ rest /\ denotes r pre rest cs cs' /\ k rest cs' = Some res.
Proof.
  induction r as [p|a IHa b IHb|a IHa|p|n a IHa|]; intros s cs k res H;
    cbn [re_run] in H.
  - destruct s as [|c s]; [discriminate|].
    destruct (p c) eqn:Pc; [|discriminate].
    exists [c], s, cs. repeat split; [now constructor|exact H].
  - destruct (IHa _ _ _ _ H) as (p1 & r1 & cs1 & -> & D1 & H1).
    destruct (IHb _ _ _ _ H1) as (p2 & r2 & cs2 & -> & D2 & H2).
    exists (p1 ++ p2), r2, cs2. rewrite app_assoc.
    repeat split; [|exact H2]. econstructor; eassumption.
  - destruct (re_run a s cs k) as [x|] eqn:E.
    + injection H as ->.
      destruct (IHa _ _ _ _ E) as (p1 & r1 & cs1 & -> & D1 & H1).
      exists p1, r1, cs1. repeat split; [now apply D_opt_some|exact H1].
    + exists [], s, cs. repeat split; [apply D_opt_none|exact H].
  - destruct (star_k_sound _ _ _ H) as (pre & rest & -> & Hp & Hk).
    exists pre, rest, cs. repeat split; [now constructor|exact Hk].
  - destruct (IHa _ _ _ _ H) as (p1 & r1 & cs1 & -> & D1 & H1).
    exists p1, r1, ((n, p1) :: cs1). repeat split; [now constructor|].
    rewrite length_app in H1.
    replace (length p1 + length r1 - length r1) with (length p1) in H1
      by lia.
    now rewrite firstn_app, firstn_all, Nat.sub_diag, app_nil_r in H1.
  - destruct s as [|c [|d s]].
    + exists [], [], cs. repeat split; [constructor; now left|exact H].
    + destruct (c =? NL)%Z eqn:E; [|discriminate].
      apply Z.eqb_eq in E. subst c.
      exists [], [NL], cs. repeat split; [constructor; now right|exact H].
    + discriminate.
Qed.

Section PatternFacts.
Context {U : Unicode}.

Lemma sign_inv (c : char) : sign c = true -> sign_or_nothing [c].
Proof.
  unfold sign, one_of, sign_or_nothing. cbn [existsb].
  rewrite orb_false_r. intros H. apply orb_true_iff in H.
  destruct H as [H|H]; apply Z.eqb_eq in H; subst; auto.
Qed.

Lemma denotes_cls (p : char -> bool) s rest cs cs' :
  denotes (Cls p) s rest cs cs' ->
  exists c, s = [c] /\ p c = true /\ cs' = cs.
Proof. inversion 1; subst. eauto. Qed.

Lemma denotes_star (p : char -> bool) s rest cs cs' :
  denotes (Star p) s rest cs cs' -> forallb p s = true /\ cs' = cs.
Proof. inversion 1; subst. auto. Qed.

Lemma denotes_cat a b s rest cs cs' :
  denotes (Cat a b) s rest cs cs' ->
  exists s1 s2 cs1,
    s = s1 ++ s2 /\ denotes a s1 (s2 ++ rest) cs cs1 /\
    denotes b s2 rest cs1 cs'.
Proof. inversion 1; subst. eauto 6. Qed.

Lemma denotes_opt a s rest cs cs' :
  denotes (Opt a) s rest cs cs' ->
  denotes a s rest cs cs' \/ (s = [] /\ cs' = cs).
Proof. inversion 1; subst; auto. Qed.

Lemma denotes_grp n a s rest cs cs' :
  denotes (Grp n a) s rest cs cs' ->
  exists cs1, denotes a s rest cs cs1 /\ cs' = (n, s) :: cs1.
Proof. inversion 1; subst. eauto. Qed.

Lemma denotes_eol s rest cs cs' :
  denotes Eol s rest cs cs' ->
  s = [] /\ (rest = [] \/ rest = [NL]) /\ cs' = cs.
Proof. inversion 1; subst. auto. Qed.

Lemma denotes_plus (p : char -> bool) s rest cs cs' :
  denotes (Plus p) s rest cs cs' ->
  s <> [] /\ forallb p s = true /\ cs' = cs.
Proof.
  intros H. apply denotes_cat in H.
  destruct H as (s1 & s2 & cs1 & -> & H1 & H2).
  apply denotes_cls in H1. destruct H1 as (c & -> & Pc & ->).
  apply denotes_star in H2. destruct H2 as (Hs & ->).
  cbn [app forallb]. rewrite Pc, Hs. repeat split. discriminate.
Qed.

Lemma denotes_opt_sign s rest cs cs' :
  denotes (Opt (Cls sign)) s rest cs cs' -> sign_or_nothing s /\ cs' = cs.
Proof.
  intros H. apply denotes_opt in H. destruct H as [H|[-> ->]].
  - apply denotes_cls in H. destruct H as (c & -> & Hc & ->).
    split; [now apply sign_inv|reflexivity].
  - split; [now left|reflexivity].
Qed.

Lemma denotes_exponent s rest cs cs' :
  denotes exponent_pattern s rest cs cs' ->
  (exists e sg ds,
      s = e :: sg ++ ds /\ (e = LETTER_E \/ e = LETTER_e) /\
      sign_or_nothing sg /\ ds <> [] /\ forallb isdigit ds = true) /\
  cs' = cs.
Proof.
  intros H. apply denotes_cat in H.
  destruct H as (s1 & s2 & cs1 & -> & H1 & H2).
  apply denotes_cls in H1. destruct H1 as (e & -> & He & ->).
  apply denotes_cat in H2.
  destruct H2 as (sg & ds & cs2 & -> & H2 & H3).
  apply denotes_opt_sign in H2. destruct H2 as (Hsg & ->).
  apply denotes_plus in H3. destruct H3 as (Hne & Hds & ->).
  split; [|reflexivity].
  exists e, sg, ds. repeat split; try assumption.
  unfold one_of in He. cbn [existsb] in He. rewrite orb_false_r in He.
  apply orb_true_iff in He.
  destruct He as [E|E]; apply Z.eqb_eq in E; subst; auto.
Qed.

Lemma denotes_number s rest cs cs' :
  denotes number_pattern s rest cs cs' -> numeric_token s /\ cs' = cs.
Proof.
  intros H. apply denotes_cat in H.
  destruct H as (sg & s1 & cs1 & -> & H1 & H).
  apply denotes_opt_sign in H1. destruct H1 as (Hsg & ->).
  apply denotes_cat in H. destruct H as (ip & s2 & cs2 & -> & H2 & H).
  apply denotes_star in H2. destruct H2 as (Hip & ->).
  apply denotes_cat in H. destruct H as (pt & s3 & cs3 & -> & H3 & H).
  assert ((pt = [] \/ pt = [FULL_STOP]) /\ cs3 = cs) as [Hpt ->].
  { apply denotes_opt in H3. destruct H3 as [H3|[-> ->]]; [|auto].
    apply denotes_cls in H3. destruct H3 as (c & -> & Hc & ->).
    unfold is_char in Hc. apply Z.eqb_eq in Hc. subst. auto. }
  apply denotes_cat in H. destruct H as (fp & ex & cs4 & -> & H4 & H5).
  apply denotes_plus in H4. destruct H4 as (Hne & Hfp & ->).
  assert ((ex = [] \/
           exists e sg' ds,
             ex = e :: sg' ++ ds /\ (e = LETTER_E \/ e = LETTER_e) /\
             sign_or_nothing sg' /\ ds <> [] /\ forallb isdigit ds = true)
          /\ cs' = cs) as [Hex ->].
  { apply denotes_opt in H5. destruct H5 as [H5|[-> ->]]; [|auto].
    apply denotes_exponent in H5. destruct H5 as [H5 ->]. auto. }
  split; [|reflexivity].
  exists sg, ip, pt, fp, ex. repeat split; assumption.
Qed.

(** What a match of the pattern of the patcher looks like. *)
Lemma value_pattern_sound (s : str) (m : captures) :
  re_match value_pattern s = Some m ->
  exists ws num ws2 d tail rest,
    s = ws ++ num ++ ws2 ++ (d :: tail) ++ rest /\
    (rest = [] \/ rest = [NL]) /\
    forallb isspace ws = true /\ numeric_token num /\
    forallb isspace ws2 = true /\ (d = COMMA \/ d = SEMI) /\
    forallb dot tail = true /\
    group 1 m = ws /\ group 2 m = num /\ group 3 m = ws2 /\
    group 4 m = d :: tail.
Proof.
  intros H. unfold re_match in H. apply re_run_sound in H.
  destruct H as (pre & rest & cs' & -> & D & E). injection E as ->.
  apply denotes_cat in D. destruct D as (ws & s1 & c1 & -> & D1 & D).
  apply denotes_grp in D1. destruct D1 as (c0 & D1 & ->).
  apply denotes_star in D1. destruct D1 as (Hws & ->).
  apply denotes_cat in D. destruct D as (num & s2 & c2 & -> & D2 & D).
  apply denotes_grp in D2. destruct D2 as (c0 & D2 & ->).
  apply denotes_number in D2. destruct D2 as (Hnum & ->).
  apply denotes_cat in D. destruct D as (ws2 & s3 & c3 & -> & D3 & D).
  apply denotes_grp in D3. destruct D3 as (c0 & D3 & ->).
  apply denotes_star in D3. destruct D3 as (Hws2 & ->).
  apply denotes_cat in D. destruct D as (g4 & s4 & c4 & -> & D4 & D).
  apply denotes_grp in D4. destruct D4 as (c0 & D4 & ->).
  apply denotes_cat in D4. destruct D4 as (dd & tail & c5 & -> & D5 & D6).
  apply denotes_cls in D5. destruct D5 as (d & -> & Hd & ->).
  apply denotes_star in D6. destruct D6 as (Htail & ->).
  apply denotes_eol in D. destruct D as (-> & Hrest & ->).
  exists ws, num, ws2, d, tail, rest.
  rewrite app_nil_r, <- !app_assoc. cbn [app group Nat.eqb].
  repeat split; try assumption.
  unfold one_of in Hd. cbn [existsb] in Hd. rewrite orb_false_r in Hd.
  apply orb_true_iff in Hd.
  destruct Hd as [E|E]; apply Z.eqb_eq in E; subst; auto.
Qed.

End PatternFacts.

(** ** The rewriting of a matched line *)

Lemma lstrip_by_head (p : char -> bool) (s : str) (c : char) (t : str) :
  lstrip_by p s = c :: t -> p c = false.
Proof.
  induction s as [|x s IH]; cbn [lstrip_by]; [discriminate|].
  destruct (p x) eqn:Px; [exact IH|].
  intros H. injection H as <- _. exact Px.
Qed.

Lemma rstrip_by_last (p : char -> bool) (s pre : str) (c : char) :
  rstrip_by p s = pre ++ [c] -> p c = false.
Proof.
  unfold rstrip_by. intros H.
  apply (f_equal (@rev char)) in H.
  rewrite rev_involutive, rev_app_distr in H. cbn [rev app] in H.
  exact (lstrip_by_head _ _ H).
Qed.

Lemma split_once_shape (sep : char) (s : str) :
  split_once sep s = [s] /\ has_char sep s = false \/
  exists a b, split_once sep s = [a; b] /\ s = a ++ sep :: b /\
              has_char sep a = false.
Proof.
  induction s as [|c s IH]; [left; split; reflexivity|].
  cbn [split_once]. unfold has_char in *. cbn [existsb].
  destruct (c =? sep)%Z eqn:E.
  - right. exists [], s. apply Z.eqb_eq in E. subst. repeat split.
  - rewrite (Z.eqb_sym sep c), E. cbn [orb].
    destruct IH as [[-> H]|(a & b & -> & -> & H)].
    + left. split; [reflexivity|exact H].
    + right. exists (c :: a), b. cbn [existsb app].
      rewrite (Z.eqb_sym sep c), E. repeat split. exact H.
Qed.

Section SubstituteFacts.
Context {U : Unicode} {P : PyFloat}.

Lemma substitute_shape (v : float) (line line' : str) :
  substitute v line = Some line' ->
  let content := slice_to (find BANG line) line in
  let comment_part := slice_from (find BANG line) line in
  line = content ++ comment_part /\
  ((exists ws num ws2 d tail,
       rstrip_crlf content = ws ++ num ++ ws2 ++ d :: tail /\
       forallb isspace ws = true /\ numeric_token num /\
       forallb isspace ws2 = true /\ (d = COMMA \/ d = SEMI) /\
       line' = ws ++ repr v ++ ws2 ++ d :: tail ++ comment_part)
   \/
   (re_match value_pattern (rstrip_crlf content) = None /\
    exists seg rest,
      content = seg ++ COMMA :: rest /\ has_char COMMA seg = false /\
      line' = lit "    " ++ repr v ++ COMMA :: rest ++ comment_part)).
Proof.
  intros H content comment_part.
  split.
  { unfold content, comment_part, slice_to, slice_from.
    now rewrite firstn_skipn. }
  unfold substitute in H. fold content comment_part in H.
  destruct (re_match value_pattern (rstrip_crlf content)) as [m|] eqn:M.
  - left. injection H as <-.
    destruct (value_pattern_sound _ M)
      as (ws & num & ws2 & d & tail & rest & E & Hr & Hws & Hnum & Hws2
          & Hd & _ & -> & _ & -> & ->).
    exists ws, num, ws2, d, tail.
    assert (rest = []) as ->.
    { destruct Hr as [->| ->]; [reflexivity|]. exfalso.
      unfold rstrip_crlf in E.
      replace (ws ++ num ++ ws2 ++ (d :: tail) ++ [NL])
        with ((ws ++ num ++ ws2 ++ d :: tail) ++ [NL]) in E
        by (now rewrite <- !app_assoc).
      apply rstrip_by_last in E. discriminate. }
    rewrite app_nil_r in E.
    repeat split; assumption.
  - right. split; [reflexivity|].
    destruct (split_once_shape COMMA content)
      as [[E _]|(a & b & E & Hc & Ha)]; rewrite E in H; [discriminate|].
    injection H as <-. exists a, b. repeat split; assumption.
Qed.

End SubstituteFacts.

Lemma find_split (c : char) (s : str) :
  has_char c s = true ->
  exists a b,
    s = a ++ c :: b /\ has_char c a = false /\
    slice_to (find c s) s = a /\ slice_from (find c s) s = c :: b /\
    (0 <= find c s)%Z.
Proof.
  unfold has_char, slice_to, slice_from, slice_index.
  induction s as [|x s IH]; cbn [existsb find]; [discriminate|].
  rewrite (Z.eqb_sym c x).
  destruct (x =? c)%Z eqn:E.
  - intros _. apply Z.eqb_eq in E. subst. exists [], s.
    repeat split. lia.
  - cbn [orb]. intros H.
    destruct (IH H) as (a & b & -> & Ha & Ht & Hf & Hp).
    destruct (find c (a ++ c :: b) <? 0)%Z eqn:N; [exfalso; lia|].
    exists (x :: a), b. cbn [app existsb].
    rewrite (Z.eqb_sym c x), E, Ha.
    destruct (find c (a ++ c :: b) + 1 <? 0)%Z eqn:N1; [exfalso; lia|].
    replace (Z.to_nat (find c (a ++ c :: b) + 1))
      with (S (Z.to_nat (find c (a ++ c :: b)))) by lia.
    cbn [firstn skipn]. rewrite Ht, Hf. repeat split. lia.
Qed.

Lemma lstrip_by_split (p : char -> bool) (s : str) :
  exists junk, s = junk ++ lstrip_by p s /\ forallb p junk = true.
Proof.
  induction s as [|c s (junk & E & H)]; [exists []; split; reflexivity|].
  cbn [lstrip_by]. destruct (p c) eqn:Pc.
  - exists (c :: junk). cbn [app forallb]. rewrite Pc, H, <- E. auto.
  - exists []. auto.
Qed.

Lemma rstrip_by_split (p : char -> bool) (s : str) :
  exists junk, s = rstrip_by p s ++ junk /\ forallb p junk = true.
Proof.
  unfold rstrip_by.
  destruct (lstrip_by_split p (rev s)) as (junk & E & H).
  exists (rev junk). split.
  - rewrite <- rev_app_distr, <- E. now rewrite rev_involutive.
  - rewrite forallb_forall in *. intros x Hx. apply H.
    now apply in_rev.
Qed.

Lemma has_char_app (c : char) (a b : str) :
  has_char c (a ++ b) = has_char c a || has_char c b.
Proof. unfold has_char. apply existsb_app. Qed.

Section RewritingFacts.
Context {U : Unicode} {P : PyFloat}.

(** A line is rewritten when the first pending label found in its own
    label gives a value and [substitute] applies. *)
Lemma process_line_hit (m : updates_map) (st st' : state) (line line' : str) :
  process_line m st line = (st', line', true) ->
  has_char BANG line = true /\
  exists v,
    first_match (field_key_of line) (target_fields m st') = Some v /\
    substitute v line = Some line'.
Proof.
  unfold process_line.
  destruct (in_obj (open_block m st line)); [|discriminate].
  destruct (type_pending m _) eqn:T; [|discriminate].
  destruct (has_char BANG line) eqn:B; [|discriminate]. cbn [andb].
  destruct (first_match _ _) as [v|] eqn:F; [|discriminate].
  destruct (substitute v line) as [l|] eqn:S; [|discriminate].
  intros H. injection H as <- <-. split; [reflexivity|].
  exists v. split; assumption.
Qed.

Lemma substitute_cases (v : float) (line line' : str) :
  has_char BANG line = true ->
  substitute v line = Some line' ->
  token_replaced v line line' \/
  re_match value_pattern (rstrip_crlf (slice_to (find BANG line) line))
    = None /\ segment_replaced v line line'.
Proof.
  intros B S.
  destruct (find_split BANG line B) as (content & comment & E & Hc & Ht & Hf & _).
  destruct (substitute_shape v line S) as [_ [T|T]]; rewrite Ht, Hf in T.
  - left.
    destruct T as (ws & num & ws2 & d & tail & R & Hws & Hnum & Hws2 & Hd & ->).
    destruct (rstrip_by_split (fun c => (c =? CR)%Z || (c =? NL)%Z) content)
      as (junk & Ej & Hj).
    fold (rstrip_crlf content) in Ej. rewrite R in Ej.
    exists ws, num, ws2, d, tail, junk, comment.
    assert (content = ws ++ num ++ ws2 ++ d :: tail ++ junk) as Ec
      by (rewrite Ej, <- !app_assoc; reflexivity).
    repeat split; try assumption.
    + rewrite E, Ec.
      repeat (rewrite <- app_assoc || rewrite <- app_comm_cons).
      reflexivity.
    + now rewrite <- Ec.
  - right.
    destruct T as (M & seg & rest & Ec & Hs & ->).
    split; [now rewrite Ht|].
    exists seg, rest, comment. repeat split; try assumption.
    + rewrite E, Ec.
      repeat (rewrite <- app_assoc || rewrite <- app_comm_cons).
      reflexivity.
    + now rewrite <- Ec.
Qed.

End RewritingFacts.

(** ** Labels *)

Lemma startswith_refl (s : str) : startswith s s = true.
Proof.
  induction s as [|c s IH]; [reflexivity|].
  cbn [startswith]. now rewrite Z.eqb_refl, IH.
Qed.

Lemma contains_refl (s : str) : contains s s = true.
Proof.
  destruct s; cbn [contains]; [reflexivity|].
  now rewrite startswith_refl.
Qed.

Lemma remove_char_app (c : char) (a b : str) :
  remove_char c (a ++ b) = remove_char c a ++ remove_char c b.
Proof. unfold remove_char. apply filter_app. Qed.

Lemma squeeze_app (a b : str) : squeeze (a ++ b) = squeeze a ++ squeeze b.
Proof. unfold squeeze. now rewrite !remove_char_app. Qed.

Lemma squeeze_separator (c : char) : separator c -> squeeze [c] = [].
Proof. intros [-> | ->]; reflexivity. Qed.

Lemma ascii_upper_separator (c : char) :
  separator c -> ascii_upper_char c = c.
Proof. intros [-> | ->]; reflexivity. Qed.

Lemma ascii_lower_separator (c : char) :
  separator c -> ascii_lower_char c = c.
Proof. intros [-> | ->]; reflexivity. Qed.

Lemma ascii_case_agree (c d : char) :
  ascii_upper_char c = ascii_upper_char d ->
  ascii_lower_char c = ascii_lower_char d.
Proof.
  unfold ascii_upper_char, ascii_lower_char.
  destruct ((97 <=? c) && (c <=? 122))%Z eqn:A;
    destruct ((97 <=? d) && (d <=? 122))%Z eqn:B;
    destruct ((65 <=? c) && (c <=? 90))%Z eqn:C;
    destruct ((65 <=? d) && (d <=? 90))%Z eqn:D; lia.
Qed.

(** The two normal forms of a label under the ASCII tables, piece by
    piece. *)
Lemma upper_key_app (a b : str) :
  squeeze (@upper ascii_db (a ++ b))
  = squeeze (@upper ascii_db a) ++ squeeze (@upper ascii_db b).
Proof. cbn [upper ascii_db]. now rewrite map_app, squeeze_app. Qed.

Lemma normalize_app (a b : str) :
  @normalize ascii_db (a ++ b)
  = @normalize ascii_db a ++ @normalize ascii_db b.
Proof.
  unfold normalize. cbn [lower ascii_db].
  now rewrite map_app, !remove_char_app.
Qed.

Lemma normalize_separator (c : char) :
  separator c -> @normalize ascii_db [c] = [].
Proof. intros [-> | ->]; reflexivity. Qed.

Lemma upper_key_separator (c : char) :
  separator c -> squeeze (@upper ascii_db [c]) = [].
Proof. intros [-> | ->]; reflexivity. Qed.

Lemma variant1_normal_forms (a b : str) :
  variant1 a b ->
  squeeze (@upper ascii_db a) = squeeze (@upper ascii_db b) /\
  @normalize ascii_db a = @normalize ascii_db b.
Proof.
  intros V.
  destruct V as [pre c d post H|pre c d post Hc Hd|pre c post Hc|pre c post Hc].
  - change (pre ++ c :: post) with (pre ++ [c] ++ post).
    change (pre ++ d :: post) with (pre ++ [d] ++ post).
    rewrite !upper_key_app, !normalize_app. split; do 2 f_equal.
    + cbn [upper ascii_db map]. now rewrite H.
    + unfold normalize. cbn [lower ascii_db map].
      now rewrite (ascii_case_agree c d H).
  - change (pre ++ c :: post) with (pre ++ [c] ++ post).
    change (pre ++ d :: post) with (pre ++ [d] ++ post).
    rewrite !upper_key_app, !normalize_app.
    now rewrite !upper_key_separator, !normalize_separator.
  - change (pre ++ c :: post) with (pre ++ [c] ++ post).
    rewrite !upper_key_app, !normalize_app.
    now rewrite !upper_key_separator, !normalize_separator.
  - change (pre ++ c :: post) with (pre ++ [c] ++ post).
    rewrite !upper_key_app, !normalize_app.
    now rewrite !upper_key_separator, !normalize_separator.
Qed.

Lemma variant_normal_forms (a b : str) :
  variant a b ->
  squeeze (@upper ascii_db a) = squeeze (@upper ascii_db b) /\
  @normalize ascii_db a = @normalize ascii_db b.
Proof.
  induction 1 as [s|a b c V1 _ [IH1 IH2]]; [split; reflexivity|].
  destruct (variant1_normal_forms V1) as [H1 H2].
  split; congruence.
Qed.

(** ** What the patcher writes can be encoded *)

Lemma scalar_lit (s : string) : Forall scalar (lit s).
Proof.
  unfold lit. apply Forall_map, Forall_forall. intros a _.
  pose proof (N_ascii_bounded a). unfold scalar. lia.
Qed.

Lemma Forall_lstrip_by {Q : char -> Prop} (p : char -> bool) (s : str) :
  Forall Q s -> Forall Q (lstrip_by p s).
Proof.
  induction 1 as [|c s Hc Hs IH]; cbn [lstrip_by]; [constructor|].
  destruct (p c); [exact IH|now constructor].
Qed.

Lemma Forall_rstrip_by {Q : char -> Prop} (p : char -> bool) (s : str) :
  Forall Q s -> Forall Q (rstrip_by p s).
Proof.
  intros H. unfold rstrip_by.
  now apply Forall_rev, Forall_lstrip_by, Forall_rev.
Qed.

(** The decimal instance writes ASCII. *)
Lemma micro_repr_scalar (v : Z) : Forall scalar (Micro.to_str v).
Proof.
  unfold Micro.to_str. rewrite !Forall_app. repeat split.
  - destruct (v <? 0)%Z; repeat constructor.
    unfold scalar, MINUS_SIGN. lia.
  - apply scalar_lit.
  - repeat constructor. unfold scalar, FULL_STOP. lia.
  - unfold Micro.fraction.
    set (ds := map _ _).
    assert (Forall scalar ds) as H.
    { unfold ds. apply Forall_map, Forall_forall. intros i _.
      unfold scalar, Micro.ZERO_DIGIT.
      pose proof (Z.mod_pos_bound (Z.abs v mod Micro.MILLION / 10 ^ i) 10).
      lia. }
    pose proof (Forall_rstrip_by (is_char Micro.ZERO_DIGIT) H) as H'.
    destruct (rstrip_by (is_char Micro.ZERO_DIGIT) ds); [|exact H'].
    repeat constructor. unfold scalar, Micro.ZERO_DIGIT. lia.
Qed.

Section EncodableFacts.
Context {U : Unicode} {P : PyFloat}.
Hypothesis repr_scalar : forall v : float, Forall scalar (repr v).

Lemma process_line_scalar (m : updates_map) (st : state) (line : str) :
  Forall scalar line ->
  Forall scalar (snd (fst (process_line m st line))).
Proof.
  intros H.
  destruct (process_line m st line) as [[st' line'] hit] eqn:E.
  destruct hit.
  - destruct (process_line_hit _ _ _ E) as (B & v & _ & S).
    cbn [fst snd].
    destruct (substitute_cases v line B S) as [T|[_ T]].
    + destruct T as (ws & num & ws2 & d & tail & junk & comment
                     & -> & -> & _).
      repeat (rewrite Forall_app in H || rewrite Forall_cons_iff in H).
      repeat (rewrite Forall_app || rewrite Forall_cons_iff).
      pose proof (repr_scalar v). tauto.
    + destruct T as (seg & rest & comment & -> & -> & _).
      repeat (rewrite Forall_app in H || rewrite Forall_cons_iff in H).
      repeat (rewrite Forall_app || rewrite Forall_cons_iff).
      pose proof (repr_scalar v). pose proof (scalar_lit "    ").
      unfold scalar at 2, COMMA in H. tauto.
  - pose proof (process_line_unflagged m st line) as F.
    rewrite E in F. cbn [fst snd] in *. now rewrite F.
Qed.

Lemma run_scalar (m : updates_map) (lines : list str) :
  forall st,
    Forall (Forall scalar) lines ->
    Forall (Forall scalar) (map fst (run m st lines)).
Proof.
  induction lines as [|l ls IH]; intros st H; [constructor|].
  inversion H as [|? ? Hl Hls]; subst. cbn [run].
  pose proof (process_line_scalar m st Hl) as S.
  destruct (process_line m st l) as [[st' l'] hit]. cbn [map fst snd] in *.
  constructor; [exact S|]. now apply IH.
Qed.

(** The method writes a file whatever the document and the Update Set
    are. *)
Lemma save_total (p : platform) (target_updates : list update)
    (doc : bytes) :
  exists out, _save_with_text_replacement p target_updates doc = Some out.
Proof.
  unfold _save_with_text_replacement, write_document.
  apply utf8_encode_total, scalar_write_newlines, Forall_concat.
  unfold patch_lines. apply run_scalar, Forall_concat.
  apply read_document_scalar.
Qed.

End EncodableFacts.

(** ** Dictionaries *)

Lemma str_eqb_eq (a b : str) : str_eqb a b = true <-> a = b.
Proof.
  revert b. induction a as [|x a IH]; intros [|y b]; cbn [str_eqb];
    try (split; [discriminate|discriminate]); [split; reflexivity|].
  rewrite andb_true_iff, Z.eqb_eq, IH. split.
  - intros [-> ->]. reflexivity.
  - intros H. injection H as -> ->. split; reflexivity.
Qed.

Lemma str_eqb_refl (a : str) : str_eqb a a = true.
Proof. now apply str_eqb_eq. Qed.

Lemma str_eqb_neq (a b : str) : str_eqb a b = false <-> a <> b.
Proof.
  rewrite <- str_eqb_eq. destruct (str_eqb a b); split; congruence.
Qed.

Lemma str_eqb_sym (a b : str) : str_eqb a b = str_eqb b a.
Proof.
  destruct (str_eqb a b) eqn:E.
  - apply str_eqb_eq in E. subst. now rewrite str_eqb_refl.
  - symmetry. apply str_eqb_neq. apply str_eqb_neq in E. congruence.
Qed.

Lemma dict_get_set {A} (k k' : str) (v : A) (d : list (str * A)) :
  dict_get k (dict_set k' v d)
  = if str_eqb k k' then Some v else dict_get k d.
Proof.
  induction d as [|[k0 v0] d IH]; cbn [dict_set dict_get].
  - destruct (str_eqb k k'); reflexivity.
  - destruct (str_eqb k' k0) eqn:E; cbn [dict_get].
    + apply str_eqb_eq in E. subst k0.
      destruct (str_eqb k k'); reflexivity.
    + rewrite IH. destruct (str_eqb k k0) eqn:E0; [|reflexivity].
      apply str_eqb_eq in E0. subst k0.
      now rewrite str_eqb_sym, E.
Qed.

Lemma dict_get_in {A} (k : str) (v : A) (d : dict A) :
  dict_get k d = Some v -> In (k, v) d.
Proof.
  induction d as [|[k0 v0] d IH]; cbn [dict_get]; [discriminate|].
  destruct (str_eqb k k0) eqn:E.
  - apply str_eqb_eq in E. intros H. injection H as ->. subst. now left.
  - intros H. right. now apply IH.
Qed.

Lemma dict_get_none {A} (k : str) (d : dict A) :
  dict_get k d = None <-> ~ In k (map fst d).
Proof.
  induction d as [|[k0 v0] d IH]; cbn [dict_get map fst In].
  - tauto.
  - destruct (str_eqb k k0) eqn:E.
    + apply str_eqb_eq in E. subst. split; [discriminate|tauto].
    + apply str_eqb_neq in E. rewrite IH. split.
      * intros H [H1|H1]; [congruence|tauto].
      * tauto.
Qed.

Lemma dict_set_keys {A} (k : str) (v : A) (d : dict A) :
  map fst (dict_set k v d)
  = if dict_mem k d then map fst d else map fst d ++ [k].
Proof.
  unfold dict_mem.
  induction d as [|[k0 v0] d IH]; cbn [dict_set dict_get map fst app];
    [reflexivity|].
  destruct (str_eqb k k0) eqn:E; cbn [map fst].
  - apply str_eqb_eq in E. now subst.
  - rewrite IH. destruct (dict_get k d); reflexivity.
Qed.

Lemma dict_set_nodup {A} (k : str) (v : A) (d : dict A) :
  NoDup (map fst d) -> NoDup (map fst (dict_set k v d)).
Proof.
  intros H. rewrite dict_set_keys. unfold dict_mem.
  destruct (dict_get k d) eqn:E; [exact H|].
  apply dict_get_none in E.
  apply NoDup_app; [exact H|repeat constructor; intros []|].
  intros x Hx [<-|[]]. contradiction.
Qed.

(** In a dictionary without repeated keys every entry is found under
    its key. *)
Lemma dict_get_entry {A} (k : str) (v : A) (d : dict A) :
  NoDup (map fst d) -> In (k, v) d -> dict_get k d = Some v.
Proof.
  induction d as [|[k0 v0] d IH]; cbn [map fst In dict_get]; [tauto|].
  intros N [H|H]; inversion N as [|? ? Hn Hd]; subst.
  - injection H as -> ->. now rewrite str_eqb_refl.
  - destruct (str_eqb k k0) eqn:E; [|now apply IH].
    apply str_eqb_eq in E. subst k0. exfalso. apply Hn.
    change k with (fst (k, v)). now apply in_map.
Qed.

Lemma dict_get_or_set {A} (k k' : str) (dflt v : A) (d : list (str * A)) :
  dict_get_or k dflt (dict_set k' v d)
  = if str_eqb k k' then v else dict_get_or k dflt d.
Proof.
  unfold dict_get_or. rewrite dict_get_set.
  destruct (str_eqb k k'); reflexivity.
Qed.

(** [if k not in d: d[k] = {}] does not change what [d.get(k, {})]
    gives. *)
Lemma dict_get_or_ensure {A} (k k' : str) (dflt : A) (d : list (str * A)) :
  dict_get_or k dflt (if dict_mem k' d then d else dict_set k' dflt d)
  = dict_get_or k dflt d.
Proof.
  unfold dict_mem. destruct (dict_get k' d) eqn:E; [reflexivity|].
  rewrite dict_get_or_set. destruct (str_eqb k k') eqn:K; [|reflexivity].
  apply str_eqb_eq in K. subst. unfold dict_get_or. now rewrite E.
Qed.

Lemma dict_get_or_absent {A} (k : str) (dflt : A) (d : dict A) :
  dict_mem k d = false -> dict_get_or k dflt d = dflt.
Proof.
  unfold dict_mem, dict_get_or.
  destruct (dict_get k d); [discriminate|reflexivity].
Qed.

Lemma dict_set_in {A} (k k' : str) (v v' : A) (d : dict A) :
  In (k, v) (dict_set k' v' d) -> (k = k' /\ v = v') \/ In (k, v) d.
Proof.
  induction d as [|[k0 v0] d IH]; cbn [dict_set In].
  - intros [H|[]]. injection H as <- <-. now left.
  - destruct (str_eqb k' k0); cbn [In].
    + intros [H|H]; [injection H as <- <-; now left|tauto].
    + intros [H|H]; [tauto|]. destruct (IH H); tauto.
Qed.

Lemma find_app {A} (p : A -> bool) (l1 l2 : list A) :
  List.find p (l1 ++ l2)
  = match List.find p l1 with
    | Some x => Some x
    | None => List.find p l2
    end.
Proof.
  induction l1 as [|x l1 IH]; cbn [app List.find]; [reflexivity|].
  destruct (p x); [reflexivity|exact IH].
Qed.

(** ** The Update Set *)

Section UpdateSetFacts.
Context {U : Unicode} {P : PyFloat}.

Lemma lookup3_add_update (m : updates_map) (u : update) (t n f : str) :
  lookup3 (add_update m u) t n f
  = if request_for t n f u then Some (u_value u) else lookup3 m t n f.
Proof.
  unfold lookup3, add_update, request_for, fields_map, updates_map, dict.
  cbv zeta.
  rewrite dict_get_or_set, (str_eqb_sym t).
  destruct (str_eqb (upper (u_type u)) t) eqn:Et; cbn [andb].
  - apply str_eqb_eq in Et. subst t.
    rewrite dict_get_or_set, (str_eqb_sym n).
    destruct (str_eqb (upper (u_name u)) n) eqn:En; cbn [andb].
    + apply str_eqb_eq in En. subst n.
      rewrite dict_get_set, (str_eqb_sym f).
      destruct (str_eqb (upper (u_field u)) f); [reflexivity|].
      repeat setoid_rewrite dict_get_or_ensure; reflexivity.
    + repeat setoid_rewrite dict_get_or_ensure; reflexivity.
  - repeat setoid_rewrite dict_get_or_ensure; reflexivity.
Qed.

Lemma lookup3_fold (ups : list update) :
  forall (m : updates_map) (t n f : str),
    lookup3 (fold_left add_update ups m) t n f
    = match List.find (request_for t n f) (rev ups) with
      | Some u => Some (u_value u)
      | None => lookup3 m t n f
      end.
Proof.
  induction ups as [|u ups IH]; intros m t n f; [reflexivity|].
  cbn [fold_left rev]. rewrite IH, find_app, lookup3_add_update.
  destruct (List.find (request_for t n f) (rev ups)); [reflexivity|].
  cbn [List.find]. destruct (request_for t n f u); reflexivity.
Qed.

Lemma ensure_nodup {A} (k : str) (dflt : A) (d : dict A) :
  NoDup (map fst d) ->
  NoDup (map fst (if dict_mem k d then d else dict_set k dflt d)).
Proof.
  intros H. destruct (dict_mem k d); [exact H|now apply dict_set_nodup].
Qed.

Lemma ensure_in {A} (k k' : str) (v dflt : A) (d : dict A) :
  In (k, v) (if dict_mem k' d then d else dict_set k' dflt d) ->
  In (k, v) d \/ v = dflt.
Proof.
  destruct (dict_mem k' d); [tauto|].
  intros H. destruct (dict_set_in _ _ _ _ _ H) as [[_ ->]|H']; tauto.
Qed.

Lemma dict_get_or_in {A} (k : str) (dflt : A) (d : dict A) :
  dict_get_or k dflt d = dflt \/ In (k, dict_get_or k dflt d) d.
Proof.
  unfold dict_get_or. destruct (dict_get k d) eqn:E; [|now left].
  right. now apply dict_get_in.
Qed.

Lemma add_update_well_keyed (m : updates_map) (u : update) :
  well_keyed m -> well_keyed (add_update m u).
Proof.
  intros [Hm Hin]. unfold add_update. cbv zeta.
  set (t := upper (u_type u)). set (n := upper (u_name u)).
  set (f := upper (u_field u)).
  set (m1 := if dict_mem t m then m else dict_set t [] m).
  set (names := dict_get_or t [] m1).
  set (names1 := if dict_mem n names then names else dict_set n [] names).
  set (fs := dict_get_or n [] names1).
  assert (forall t' ns, In (t', ns) m1 ->
            NoDup (map fst ns) /\
            forall n' fs', In (n', fs') ns -> NoDup (map fst fs')) as H1.
  { intros t' ns H. destruct (ensure_in _ _ _ _ _ H) as [H'| ->].
    - now apply (Hin t').
    - split; [constructor|intros ? ? []]. }
  assert (NoDup (map fst names) /\
          forall n' fs', In (n', fs') names -> NoDup (map fst fs')) as H2.
  { destruct (dict_get_or_in t [] m1) as [E|E]; fold names in E.
    - rewrite E. split; [constructor|intros ? ? []].
    - exact (H1 _ _ E). }
  assert (NoDup (map fst names1) /\
          forall n' fs', In (n', fs') names1 -> NoDup (map fst fs')) as H3.
  { split; [apply ensure_nodup, H2|].
    intros n' fs' H. destruct (ensure_in _ _ _ _ _ H) as [H'| ->].
    - exact (proj2 H2 _ _ H').
    - constructor. }
  assert (NoDup (map fst fs)) as H4.
  { destruct (dict_get_or_in n [] names1) as [E|E]; fold fs in E.
    - rewrite E. constructor.
    - exact (proj2 H3 _ _ E). }
  split.
  - apply dict_set_nodup, ensure_nodup, Hm.
  - intros t' ns H. destruct (dict_set_in _ _ _ _ _ H) as [[_ ->]|H'].
    + split; [apply dict_set_nodup, H3|].
      intros n' fs' Hn. destruct (dict_set_in _ _ _ _ _ Hn) as [[_ ->]|Hn'].
      * now apply dict_set_nodup.
      * exact (proj2 H3 _ _ Hn').
    + exact (H1 _ _ H').
Qed.

Lemma build_map_well_keyed (ups : list update) : well_keyed (build_map ups).
Proof.
  unfold build_map.
  assert (forall m, well_keyed m -> well_keyed (fold_left add_update ups m))
    as G.
  { induction ups as [|u ups IH]; intros m H; [exact H|].
    cbn [fold_left]. apply IH, add_update_well_keyed, H. }
  apply G. split; [constructor|intros ? ? []].
Qed.

End UpdateSetFacts.

(** ** Blocks, types and names *)

Section BlockFacts.
Context {U : Unicode} {P : PyFloat}.

(** What the first [if] of the loop body can do. *)
Lemma open_block_cases (m : updates_map) (st : state) (line : str) :
  open_block m st line = st \/
  (in_obj st = false /\ dict_mem (first_token line) m = true /\
   open_block m st line
   = {| current_type := Some (first_token line);
        current_name := Some (lit "N/A");
        in_obj := true |}) \/
  (in_obj st = false /\
   open_block m st line
   = {| current_type := Some (lit "UNKNOWN");
        current_name := current_name st;
        in_obj := true |}).
Proof.
  unfold open_block. fold (first_token line).
  destruct (in_obj st); cbn [negb andb]; [now left|].
  destruct (negb (str_eqb (strip line) [])
            && negb (startswith [BANG] (strip line))); [|now left].
  destruct (dict_mem (first_token line) m) eqn:E.
  - right. left. repeat split.
  - destruct (has_char COMMA (strip line) || has_char SEMI (strip line));
      [right; right; split; reflexivity|now left].
Qed.

(** The state after the line, whatever is done to the line. *)
Lemma process_line_state (m : updates_map) (st : state) (line : str) :
  fst (fst (process_line m st line))
  = if in_obj (open_block m st line)
    then capture_name (close_block (open_block m st line) line) line
    else open_block m st line.
Proof.
  unfold process_line.
  destruct (in_obj (open_block m st line)); [|reflexivity].
  destruct (type_pending m _ && has_char BANG line); [|reflexivity].
  destruct (first_match _ _) as [v|]; [|reflexivity].
  destruct (substitute v line); reflexivity.
Qed.

Lemma capture_close_type (st : state) (line : str) :
  current_type (capture_name (close_block st line) line) = current_type st.
Proof.
  unfold capture_name, close_block.
  destruct (contains (lit "!- Name") line);
    destruct (has_char SEMI (item0 (split BANG line))); reflexivity.
Qed.

Lemma capture_close_in_obj (st : state) (line : str) :
  in_obj (capture_name (close_block st line) line)
  = in_obj st && negb (has_char SEMI (item0 (split BANG line))).
Proof.
  unfold capture_name, close_block.
  destruct (contains (lit "!- Name") line);
    destruct (has_char SEMI (item0 (split BANG line))); cbn [in_obj negb];
    rewrite ?andb_true_r, ?andb_false_r; reflexivity.
Qed.

Lemma capture_close_name (st : state) (line : str) :
  current_name (capture_name (close_block st line) line)
  = if contains (lit "!- Name") line then Some (name_token line)
    else current_name st.
Proof.
  unfold capture_name, close_block. fold (name_token line).
  destruct (contains (lit "!- Name") line);
    destruct (has_char SEMI (item0 (split BANG line))); reflexivity.
Qed.

(** A line is rewritten only in a state whose type and name are
    pending with at least one field. *)
Lemma process_line_idle (m : updates_map) (st : state) (line : str) :
  type_pending m (current_type (fst (fst (process_line m st line)))) = false
  \/ target_fields m (fst (fst (process_line m st line))) = [] ->
  snd (fst (process_line m st line)) = line /\
  snd (process_line m st line) = false.
Proof.
  unfold process_line.
  destruct (in_obj (open_block m st line)); [|split; reflexivity].
  set (st2 := capture_name (close_block (open_block m st line) line) line).
  assert (fst (fst
            (if type_pending m (current_type st2) && has_char BANG line
             then match first_match (field_key_of line) (target_fields m st2)
                  with
                  | Some matched_val =>
                      match substitute matched_val line with
                      | Some line' => (st2, line', true)
                      | None => (st2, line, false)
                      end
                  | None => (st2, line, false)
                  end
             else (st2, line, false))) = st2) as E.
  { destruct (type_pending m _ && has_char BANG line); [|reflexivity].
    destruct (first_match _ _) as [v|]; [|reflexivity].
    destruct (substitute v line); reflexivity. }
  rewrite E. intros [H|H].
  - rewrite H. split; reflexivity.
  - rewrite H. cbn [first_match].
    destruct (type_pending m _ && has_char BANG line); split; reflexivity.
Qed.

(** While no line opens a block of a pending type, the type of the
    state is never pending. *)
Lemma type_stays_idle (m : updates_map) (st : state) (line : str) :
  dict_mem (lit "UNKNOWN") m = false ->
  dict_mem (first_token line) m = false ->
  type_pending m (current_type st) = false ->
  type_pending m (current_type (fst (fst (process_line m st line)))) = false.
Proof.
  intros Hu Hl Hst. rewrite process_line_state.
  assert (type_pending m (current_type (open_block m st line)) = false) as O.
  { destruct (open_block_cases m st line) as [->|[(_ & E & _)|(_ & ->)]].
    - exact Hst.
    - congruence.
    - exact Hu. }
  destruct (in_obj (open_block m st line)); [|exact O].
  now rewrite capture_close_type.
Qed.

Lemma run_idle_types (m : updates_map) (lines : list str) :
  dict_mem (lit "UNKNOWN") m = false ->
  (forall line, In line lines -> dict_mem (first_token line) m = false) ->
  forall st,
    type_pending m (current_type st) = false ->
    run m st lines = map (fun l => (l, false)) lines.
Proof.
  intros Hu. induction lines as [|l ls IH]; intros Hl st Hst; [reflexivity|].
  cbn [run map].
  pose proof (type_stays_idle m st l Hu (Hl l (or_introl eq_refl)) Hst) as T.
  destruct (process_line_idle m st l (or_introl T)) as [E1 E2].
  destruct (process_line m st l) as [[st' l'] hit]. cbn [fst snd] in *.
  subst. f_equal. apply IH; [|exact T].
  intros line H. apply Hl. now right.
Qed.

(** A name that is no key of the Update Set has no fields pending. *)
Lemma target_fields_absent (m : updates_map) (st : state) :
  match current_name st with
  | Some n => name_pending m n = false
  | None => True
  end ->
  target_fields m st = [].
Proof.
  unfold target_fields, name_pending.
  destruct (current_type st) as [t|]; [|reflexivity].
  destruct (current_name st) as [n|]; [|reflexivity].
  intros H.
  match goal with
  | |- dict_get_or n _ ?X = _ => set (names := X)
  end.
  assert (names = [] \/ In (t, names) m) as [E|E]
    by apply dict_get_or_in.
  - rewrite E. reflexivity.
  - apply dict_get_or_absent.
    destruct (dict_mem n names) eqn:D; [|reflexivity].
    rewrite <- H. symmetry. apply existsb_exists.
    exists (t, names). split; assumption.
Qed.

Lemma name_stays_absent (m : updates_map) (st : state) (line : str) :
  name_pending m (lit "N/A") = false ->
  (contains (lit "!- Name") line = true ->
   name_pending m (name_token line) = false) ->
  match current_name st with
  | Some n => name_pending m n = false
  | None => True
  end ->
  match current_name (fst (fst (process_line m st line))) with
  | Some n => name_pending m n = false
  | None => True
  end.
Proof.
  intros Hna Hl Hst. rewrite process_line_state.
  assert (match current_name (open_block m st line) with
          | Some n => name_pending m n = false
          | None => True
          end) as O.
  { destruct (open_block_cases m st line) as [->|[(_ & _ & ->)|(_ & ->)]].
    - exact Hst.
    - exact Hna.
    - exact Hst. }
  destruct (in_obj (open_block m st line)); [|exact O].
  rewrite capture_close_name.
  destruct (contains (lit "!- Name") line); [now apply Hl|exact O].
Qed.

Lemma run_absent_names (m : updates_map) (lines : list str) :
  name_pending m (lit "N/A") = false ->
  (forall line, In line lines ->
     contains (lit "!- Name") line = true ->
     name_pending m (name_token line) = false) ->
  forall st,
    match current_name st with
    | Some n => name_pending m n = false
    | None => True
    end ->
    run m st lines = map (fun l => (l, false)) lines.
Proof.
  intros Hna. induction lines as [|l ls IH]; intros Hl st Hst; [reflexivity|].
  cbn [run map].
  pose proof (name_stays_absent m st l Hna (Hl l (or_introl eq_refl)) Hst)
    as T.
  destruct (process_line_idle m st l
              (or_intror (target_fields_absent m _ T))) as [E1 E2].
  destruct (process_line m st l) as [[st' l'] hit]. cbn [fst snd] in *.
  subst. f_equal. apply IH; [|exact T].
  intros line H. apply Hl. now right.
Qed.

End BlockFacts.

(** ** When [execute_modification] returns *)

Section TotalFacts.
Context {U : Unicode} {P : PyFloat} {EP : Eppy}.

Lemma find_attr_in (norm_field : str) (attrs : list str) (attr : str) :
  find_attr norm_field attrs = Some attr ->
  In attr attrs /\ str_eqb (normalize attr) norm_field = true.
Proof.
  induction attrs as [|a l IH]; [discriminate|]. cbn [find_attr].
  destruct (str_eqb (normalize a) norm_field) eqn:Q.
  - intros H. apply Some_eq in H. subst. split; [now left|exact Q].
  - intros H. destruct (IH H). split; [now right|assumption].
Qed.

Lemma index_of_found (f : str) (names : list str) :
  In f names -> exists i, index_of f names = Some i.
Proof.
  induction names as [|n ns IH]; intros H; [destruct H|].
  cbn [index_of]. destruct (str_eqb f n) eqn:Q; [now exists 0|].
  destruct H as [H|H]; [subst; now rewrite str_eqb_refl in Q|].
  destruct (IH H) as [i ->]. now exists (S i).
Qed.

(** The value of a declared field is one of the values of the object,
    or the empty string when the object stops before it. *)
Lemma getattr_found (obj : EpBunch) (name : str) (dflt : fieldval) :
  In name (fieldnames obj) ->
  In (getattr obj name dflt) (fieldvalues obj) \/
  getattr obj name dflt = VStr [].
Proof.
  intros H. unfold getattr.
  destruct (index_of_found name (fieldnames obj) H) as [i ->].
  destruct (nth_in_or_default i (fieldvalues obj) (VStr [])) as [I|Q];
    [now left|now right].
Qed.

Lemma field_requests_total (obj_type : str) (coef : float)
    (obj : EpBunch) (field : str) :
  well_formed_object obj ->
  exists ups, field_requests obj_type coef obj field = Some ups.
Proof.
  intros [Hv [name Hn]]. unfold field_requests. rewrite Hn.
  destruct (find_attr _ _) as [[|c a]|] eqn:F; try (eexists; reflexivity).
  apply find_attr_in in F. destruct F as [F _].
  destruct (getattr_found obj (c :: a) (VInt 0) F) as [G|G].
  - rewrite Forall_forall in Hv. destruct (Hv _ G) as [N O].
    destruct (getattr obj (c :: a) (VInt 0)) as [|s|n|x]; [congruence|..];
      cbn [to_float]; try (eexists; reflexivity).
    + destruct s as [|d s]; [eexists; reflexivity|].
      destruct (float_of_str (d :: s)); eexists; reflexivity.
    + specialize (O n eq_refl).
      destruct (float_of_int n); [eexists; reflexivity|congruence].
  - rewrite G. eexists. reflexivity.
Qed.

Lemma idf_get_in (t : str) (idf : idfobjects) (objs : list EpBunch) :
  idf_get t idf = Some objs -> exists k, In (k, objs) idf.
Proof.
  induction idf as [|[k o] l IH]; [discriminate|]. cbn [idf_get].
  destruct (str_eqb (key_fold t) (key_fold k)).
  - intros H. apply Some_eq in H. subst. exists k. now left.
  - intros H. destruct (IH H) as [k' I]. exists k'. now right.
Qed.

Lemma gather_total {A} (f : A -> option (list update)) (l : list A) :
  (forall x, In x l -> exists a, f x = Some a) ->
  exists b, gather f l = Some b.
Proof.
  induction l as [|x l IH]; intros H; [eexists; reflexivity|].
  destruct (H x (or_introl eq_refl)) as [a Ha].
  destruct (IH (fun y Hy => H y (or_intror Hy))) as [b Hb].
  exists (a ++ b). cbn [gather]. now rewrite Ha, Hb.
Qed.

Lemma build_updates_total (idf : idfobjects)
    (modifications : list modification) :
  well_formed_model idf ->
  exists ups, build_updates idf modifications = Some ups.
Proof.
  intros W. unfold build_updates. apply gather_total. intros md _.
  unfold mod_requests.
  destruct (idf_get (object_type md) idf) as [objs|] eqn:G;
    [|eexists; reflexivity].
  apply idf_get_in in G. destruct G as [k G].
  unfold well_formed_model in W.
  rewrite Forall_forall in W. specialize (W _ G). cbn [snd] in W.
  rewrite Forall_forall in W.
  apply gather_total. intros obj Ho.
  apply gather_total. intros field _.
  apply field_requests_total. now apply W.
Qed.

End TotalFacts.

(** ** Carriage returns *)

Lemma has_char_false (c : char) (s : str) :
  has_char c s = false <-> Forall (fun x => x <> c) s.
Proof.
  unfold has_char. induction s as [|x s IH]; cbn [existsb].
  - split; [constructor|reflexivity].
  - rewrite orb_false_iff, IH, Forall_cons_iff, Z.eqb_neq.
    split; intros [H1 H2]; split; congruence.
Qed.

Lemma universal_newlines_not_cr (s : str) :
  Forall not_cr (universal_newlines s).
Proof.
  assert (not_cr NL) as HNL by (unfold not_cr, NL, CR; lia).
  assert (forall n (t : str), length t <= n ->
            Forall not_cr (universal_newlines t)) as G.
  { induction n as [|n IH]; intros t Hn.
    - destruct t; [constructor | simpl in Hn; lia].
    - destruct t as [|c t]; [constructor|].
      cbn [universal_newlines]. simpl in Hn.
      destruct (c =? CR)%Z eqn:E.
      + constructor; [exact HNL|]. destruct t as [|d u]; [constructor|].
        simpl in Hn. destruct (d =? NL)%Z; apply IH; simpl; lia.
      + constructor; [apply Z.eqb_neq in E; exact E|]. apply IH. lia. }
  exact (G (length s) s (le_n _)).
Qed.

Lemma digits_of_uint (d : Decimal.uint) :
  Forall (fun c => 48 <= c <= 57)%Z (lit (NilEmpty.string_of_uint d)).
Proof.
  induction d; cbn [NilEmpty.string_of_uint];
    try (constructor; [unfold lit; cbn; lia|exact IHd]).
  constructor.
Qed.

(** The decimal instance writes digits, a minus sign and a full stop. *)
Lemma micro_repr_plain (v : Z) :
  Forall (fun c => 45 <= c <= 57)%Z (Micro.to_str v).
Proof.
  unfold Micro.to_str. rewrite !Forall_app. repeat split.
  - destruct (v <? 0)%Z; repeat constructor; unfold MINUS_SIGN; lia.
  - eapply Forall_impl; [|apply digits_of_uint]. cbv beta. lia.
  - repeat constructor; unfold FULL_STOP; lia.
  - unfold Micro.fraction.
    set (ds := map _ _).
    assert (Forall (fun c => 45 <= c <= 57)%Z ds) as H.
    { unfold ds. apply Forall_map, Forall_forall. intros i _.
      unfold Micro.ZERO_DIGIT.
      pose proof (Z.mod_pos_bound (Z.abs v mod Micro.MILLION / 10 ^ i) 10).
      lia. }
    pose proof (Forall_rstrip_by (is_char Micro.ZERO_DIGIT) H) as H'.
    destruct (rstrip_by (is_char Micro.ZERO_DIGIT) ds); [|exact H'].
    repeat constructor; unfold Micro.ZERO_DIGIT; lia.
Qed.

Section PreservedFacts.
Context {U : Unicode} {P : PyFloat}.
Variable Q : char -> Prop.
Hypothesis Q_space : Q SPACE.
Hypothesis Q_repr : forall v : float, Forall Q (repr v).

(** Every character of a line written is a character of the line read,
    a character of the text of a value, a space or a comma. *)
Lemma process_line_keeps (m : updates_map) (st : state) (line : str) :
  Forall Q line ->
  Forall Q (snd (fst (process_line m st line))).
Proof.
  intros H.
  destruct (process_line m st line) as [[st' line'] hit] eqn:E.
  destruct hit.
  - destruct (process_line_hit _ _ _ E) as (B & v & _ & S).
    cbn [fst snd].
    destruct (substitute_cases v line B S) as [T|[_ T]].
    + destruct T as (ws & num & ws2 & d & tail & junk & comment
                     & -> & -> & _).
      repeat (rewrite Forall_app in H || rewrite Forall_cons_iff in H).
      repeat (rewrite Forall_app || rewrite Forall_cons_iff).
      pose proof (Q_repr v). tauto.
    + destruct T as (seg & rest & comment & -> & -> & _).
      repeat (rewrite Forall_app in H || rewrite Forall_cons_iff in H).
      repeat (rewrite Forall_app || rewrite Forall_cons_iff).
      pose proof (Q_repr v).
      assert (Forall Q (lit "    ")) by (repeat constructor; exact Q_space).
      tauto.
  - pose proof (process_line_unflagged m st line) as F.
    rewrite E in F. cbn [fst snd] in *. now rewrite F.
Qed.

Lemma patch_lines_keep (target_updates : list update) (lines : list str) :
  Forall (Forall Q) lines ->
  Forall (Forall Q) (patch_lines target_updates lines).
Proof.
  unfold patch_lines. generalize (build_map target_updates) as m.
  generalize initial as st. intros st m. revert st.
  induction lines as [|l ls IH]; intros st H; [constructor|].
  inversion H as [|? ? Hl Hls]; subst. cbn [run].
  pose proof (process_line_keeps m st Hl) as S.
  destruct (process_line m st l) as [[st' l'] hit]. cbn [map fst snd] in *.
  constructor; [exact S|]. now apply IH.
Qed.

End PreservedFacts.

(** ** The Object Index *)

Lemma dict_set_fresh {A} (k : str) (v : A) (d : dict A) :
  ~ In k (map fst d) -> dict_set k v d = d ++ [(k, v)].
Proof.
  induction d as [|[k0 v0] d IH]; cbn [dict_set map fst In app];
    [reflexivity|].
  intros H. destruct (str_eqb k k0) eqn:E.
  - apply str_eqb_eq in E. subst. tauto.
  - rewrite IH; [reflexivity|tauto].
Qed.

Lemma dict_mem_keys {A} (k : str) (d : dict A) :
  existsb (str_eqb k) (map fst d) = dict_mem k d.
Proof.
  unfold dict_mem.
  induction d as [|[k0 v0] d IH]; cbn [map fst existsb dict_get];
    [reflexivity|].
  destruct (str_eqb k k0); [reflexivity|exact IH].
Qed.

Lemma fold_dict_set_get {A} (h : str -> A) (l : list str) :
  forall (acc : dict A) (f : str),
    dict_get f (fold_left (fun data g => dict_set g (h g) data) l acc)
    = if existsb (str_eqb f) l then Some (h f) else dict_get f acc.
Proof.
  induction l as [|g l IH]; intros acc f; [reflexivity|].
  cbn [fold_left existsb]. rewrite IH, dict_get_set.
  destruct (existsb (str_eqb f) l); [now rewrite orb_true_r|].
  rewrite orb_false_r. destruct (str_eqb f g) eqn:E; [|reflexivity].
  apply str_eqb_eq in E. now subst.
Qed.

Section IndexFacts.
Context {U : Unicode} {P : PyFloat}.

Lemma summary_fold_get (idf : idfobjects) (keys : list str) :
  forall (acc : dict summary_entry) (t : str),
    dict_get t (fold_left (summary_step idf) keys acc)
    = if existsb (str_eqb t) keys
         && (0 <? length (dict_get_or t [] idf))%nat
      then Some (entry_of (dict_get_or t [] idf))
      else dict_get t acc.
Proof.
  induction keys as [|k ks IH]; intros acc t; [reflexivity|].
  cbn [fold_left existsb]. rewrite IH.
  destruct (existsb (str_eqb t) ks && (0 <? length (dict_get_or t [] idf))%nat)
    eqn:E.
  - apply andb_true_iff in E. destruct E as [E1 E2].
    now rewrite E1, E2, orb_true_r.
  - unfold summary_step.
    destruct (str_eqb t k) eqn:K; cbn [orb].
    + apply str_eqb_eq in K. subst k.
      destruct (0 <? length (dict_get_or t [] idf))%nat; [|reflexivity].
      now rewrite dict_get_set, str_eqb_refl.
    + rewrite E.
      destruct (0 <? length (dict_get_or k [] idf))%nat; [|reflexivity].
      now rewrite dict_get_set, K.
Qed.

Lemma summary_get (idf : idfobjects) (t : str) :
  dict_get t (get_idf_object_summary idf)
  = match dict_get t idf with
    | Some (obj :: rest) => Some (entry_of (obj :: rest))
    | _ => None
    end.
Proof.
  unfold get_idf_object_summary. rewrite summary_fold_get, dict_mem_keys.
  unfold dict_mem, dict_get_or.
  destruct (dict_get t idf) as [[|obj rest]|]; reflexivity.
Qed.

Lemma summary_fold_list (idf : idfobjects) (l : list (str * list EpBunch)) :
  forall acc : dict summary_entry,
    (forall e, In e l -> dict_get_or (fst e) [] idf = snd e) ->
    NoDup (map fst l) ->
    (forall e, In e l -> ~ In (fst e) (map fst acc)) ->
    fold_left (summary_step idf) (map fst l) acc
    = acc ++ flat_map summary_of_entry l.
Proof.
  induction l as [|[k v] l IH]; intros acc Hg Hn Hf.
  - cbn. now rewrite app_nil_r.
  - cbn [map fst fold_left flat_map]. inversion Hn as [|? ? Hk Hl]; subst.
    assert (summary_step idf acc k = acc ++ summary_of_entry (k, v)) as S.
    { unfold summary_step, summary_of_entry.
      pose proof (Hg (k, v) (or_introl eq_refl)) as G. cbn [fst snd] in *.
      rewrite G.
      destruct (0 <? length v)%nat; [|now rewrite app_nil_r].
      apply dict_set_fresh. exact (Hf (k, v) (or_introl eq_refl)). }
    rewrite S, IH, <- app_assoc; [reflexivity| |exact Hl|].
    + intros e He. apply Hg. now right.
    + intros e He. rewrite map_app, in_app_iff. intros [H|H].
      * exact (Hf e (or_intror He) H).
      * unfold summary_of_entry in H. cbn [fst snd] in H.
        destruct (0 <? length v)%nat; [|destruct H].
        destruct H as [H|[]]. cbn [fst] in H. apply Hk. rewrite H.
        now apply in_map.
Qed.

Lemma summary_list (idf : idfobjects) :
  NoDup (map fst idf) ->
  get_idf_object_summary idf = flat_map summary_of_entry idf.
Proof.
  intros N. unfold get_idf_object_summary.
  rewrite (summary_fold_list idf idf []); [reflexivity| |exact N|].
  - intros [k v] H. cbn [fst snd]. unfold dict_get_or.
    now rewrite (dict_get_entry k v idf N H).
  - intros e _ [].
Qed.

Lemma total_objects_flat_map (l : list (str * list EpBunch)) :
  total_objects (flat_map summary_of_entry l)
  = list_sum (map (fun e => length (snd e)) l).
Proof.
  unfold total_objects.
  induction l as [|[k v] l IH]; [reflexivity|].
  cbn [flat_map map list_sum]. rewrite map_app, list_sum_app, IH.
  unfold summary_of_entry. cbn [fst snd].
  destruct v as [|o v]; cbn; [reflexivity|]. now rewrite Nat.add_0_r.
Qed.

Lemma total_types_flat_map (l : list (str * list EpBunch)) :
  total_types (flat_map summary_of_entry l)
  = length (filter (fun e => (0 <? length (snd e))%nat) l).
Proof.
  unfold total_types.
  induction l as [|[k v] l IH]; [reflexivity|].
  cbn [flat_map filter]. rewrite length_app, IH.
  unfold summary_of_entry. cbn [fst snd].
  destruct (0 <? length v)%nat; reflexivity.
Qed.

End IndexFacts.

(** ** The batch of cases *)

Section BatchFacts.
Context {U : Unicode} {P : PyFloat} {EP : Eppy}.

Lemma floats_of_length (pieces : list str) (l : list float) :
  floats_of pieces = Some l -> length l = length pieces.
Proof.
  revert l. induction pieces as [|x rest IH]; intros l H.
  - injection H as <-. reflexivity.
  - cbn [floats_of] in H.
    destruct (float_of_str (strip x)); [|discriminate].
    destruct (floats_of rest) as [vs|]; [|discriminate].
    injection H as <-. cbn [length]. now rewrite (IH vs).
Qed.

Lemma floats_of_bad (pieces : list str) (x : str) :
  In x pieces -> float_of_str (strip x) = None -> floats_of pieces = None.
Proof.
  induction pieces as [|y rest IH]; intros H Hx; [destruct H|].
  destruct H as [H|H]; cbn [floats_of].
  - subst. now rewrite Hx.
  - rewrite (IH H Hx). destruct (float_of_str (strip y)); reflexivity.
Qed.

Lemma split_not_nil (sep : char) (s : str) : split sep s <> [].
Proof.
  destruct s as [|c s]; cbn [split]; [discriminate|].
  destruct (c =? sep)%Z; [discriminate|].
  destruct (split sep s); discriminate.
Qed.

Lemma split_length (sep : char) (s : str) :
  length (split sep s) = S (length (filter (fun c => (c =? sep)%Z) s)).
Proof.
  induction s as [|c s IH]; [reflexivity|].
  cbn [split filter]. destruct (c =? sep)%Z; cbn [length].
  - now rewrite IH.
  - destruct (split sep s) as [|p ps]; [discriminate|exact IH].
Qed.

(** The number of requests does not depend on the coefficient. *)
Lemma requests_expected_mods_for (idf : idfobjects)
    (field_config : dict (list str)) (c c' : float) :
  requests_expected idf (mods_for field_config c)
  = requests_expected idf (mods_for field_config c').
Proof.
  unfold requests_expected, mods_for. rewrite !map_map. reflexivity.
Qed.

End BatchFacts.

Section BatchRunFacts.
Context {U : Unicode} {P : PyFloat} {EP : Eppy}.
Variable creatable : str -> bool.

Lemma execute_modification_count (p : platform) (idf : idfobjects)
    (doc : bytes) (mods : list modification) (n : nat) (out : bytes) :
  execute_modification p idf doc mods = Some (n, out) ->
  n = requests_expected idf mods.
Proof.
  unfold execute_modification.
  destruct (build_updates idf mods) as [ups|] eqn:B; [|discriminate].
  destruct (_save_with_text_replacement p ups doc); [|discriminate].
  intros H. injection H as <- _. exact (build_updates_length _ _ B).
Qed.

(** The output of one case, computed on its own. *)
Lemma generate_cases_spec (p : platform) (idf : idfobjects) (doc : bytes)
    (field_config : dict (list str)) (output_prefix : str)
    (coefficients : list float) :
  forall files results files' results',
    generate_cases creatable p idf doc field_config output_prefix
      coefficients files results = Some (files', results') ->
    results'
    = results ++ map (fun c => (file_name_for output_prefix c,
                                requests_expected idf
                                  (mods_for field_config c)))
                     coefficients /\
    forall name,
      dict_get name files'
      = match List.find
                (fun c => str_eqb name (file_name_for output_prefix c))
                (rev coefficients) with
        | Some c =>
            option_map snd
              (execute_modification p idf doc (mods_for field_config c))
        | None => dict_get name files
        end.
Proof.
  induction coefficients as [|c cs IH]; intros files results files' results' H.
  - injection H as <- <-. split; [now rewrite app_nil_r|reflexivity].
  - cbn [generate_cases] in H.
    destruct (execute_modification p idf doc (mods_for field_config c))
      as [[n out]|] eqn:E; [|discriminate].
    destruct (creatable (file_name_for output_prefix c)); [|discriminate].
    destruct (IH _ _ _ _ H) as [R F]. split.
    + rewrite R, <- app_assoc. cbn [map app].
      now rewrite (execute_modification_count _ _ _ _ E).
    + intros name. rewrite F. cbn [rev]. rewrite find_app.
      destruct (List.find _ (rev cs)); [reflexivity|].
      cbn [List.find]. rewrite dict_get_set.
      destruct (str_eqb name (file_name_for output_prefix c));
        [now rewrite E|reflexivity].
Qed.

Lemma generate_cases_total (p : platform) (idf : idfobjects) (doc : bytes)
    (field_config : dict (list str)) (output_prefix : str)
    (coefficients : list float) :
  (forall c, In c coefficients ->
     exists r, execute_modification p idf doc (mods_for field_config c)
               = Some r) ->
  (forall c, In c coefficients ->
     creatable (file_name_for output_prefix c) = true) ->
  forall files results,
    exists r, generate_cases creatable p idf doc field_config output_prefix
                coefficients files results = Some r.
Proof.
  induction coefficients as [|c cs IH]; intros H C files results.
  - eexists. reflexivity.
  - cbn [generate_cases].
    destruct (H c (or_introl eq_refl)) as [[n out] E]. rewrite E.
    rewrite (C c (or_introl eq_refl)).
    apply IH; intros c' Hc; [apply H|apply C]; now right.
Qed.

(** Inside a block, lines without a semicolon before the comment keep
    the type and keep the block open. *)
Lemma state_after_in_block (m : updates_map) (lines : list str) :
  (forall l, In l lines -> has_char SEMI (item0 (split BANG l)) = false) ->
  forall st,
    in_obj st = true ->
    current_type (state_after m st lines) = current_type st /\
    in_obj (state_after m st lines) = true.
Proof.
  induction lines as [|l ls IH]; intros Hl st Hin; [split; [reflexivity|exact Hin]|].
  cbn [state_after].
  assert (open_block m st l = st) as O
    by (unfold open_block; now rewrite Hin).
  pose proof (process_line_state m st l) as S. rewrite O, Hin in S.
  assert (in_obj (fst (fst (process_line m st l))) = true) as I.
  { rewrite S, capture_close_in_obj, Hin, (Hl l (or_introl eq_refl)).
    reflexivity. }
  assert (current_type (fst (fst (process_line m st l))) = current_type st)
    as T by (rewrite S; apply capture_close_type).
  destruct (IH (fun x Hx => Hl x (or_intror Hx)) _ I) as [T' I'].
  split; [congruence|exact I'].
Qed.

End BatchRunFacts.

Section ReturnFacts.
Context {U : Unicode} {P : PyFloat} {EP : Eppy}.

Lemma execute_modification_total (p : platform) (idf : idfobjects)
    (doc : bytes) (mods : list modification) :
  well_formed_model idf ->
  (forall v : float, Forall scalar (repr v)) ->
  exists out,
    execute_modification p idf doc mods
    = Some (requests_expected idf mods, out).
Proof.
  intros W R. unfold execute_modification.
  destruct (build_updates_total mods W) as [ups B]. rewrite B.
  destruct (save_total R p ups doc) as [out S]. rewrite S.
  exists out. now rewrite (build_updates_length _ _ B).
Qed.

(** Inside a block whose type is not pending nothing is rewritten
    before a semicolon closes the block. *)
Lemma run_in_idle_block (m : updates_map) (lines : list str) :
  (forall l, In l lines -> has_char SEMI (item0 (split BANG l)) = false) ->
  forall st,
    in_obj st = true ->
    type_pending m (current_type st) = false ->
    run m st lines = map (fun l => (l, false)) lines.
Proof.
  induction lines as [|l ls IH]; intros Hl st Hin Ht; [reflexivity|].
  cbn [run map].
  assert (open_block m st l = st) as O
    by (unfold open_block; now rewrite Hin).
  pose proof (process_line_state m st l) as S. rewrite O, Hin in S.
  assert (in_obj (fst (fst (process_line m st l))) = true) as I.
  { rewrite S, capture_close_in_obj, Hin, (Hl l (or_introl eq_refl)).
    reflexivity. }
  assert (type_pending m (current_type (fst (fst (process_line m st l))))
          = false) as T
    by (rewrite S, capture_close_type; exact Ht).
  destruct (process_line_idle m st l (or_introl T)) as [E1 E2].
  destruct (process_line m st l) as [[st' l'] hit]. cbn [fst snd] in *.
  subst. f_equal. apply IH; [|exact I|exact T].
  intros x Hx. apply Hl. now right.
Qed.

Lemma micro_repr_not_cr (v : Z) : Forall not_cr (Micro.to_str v).
Proof.
  eapply Forall_impl; [|apply micro_repr_plain].
  cbv beta. unfold not_cr, CR. lia.
Qed.

End ReturnFacts.

(** ** Samples and coefficients *)

Section SampleFacts.
Context {U : Unicode} {P : PyFloat} {EP : Eppy}.

Lemma index_of_in (f : str) (names : list str) :
  In f names -> exists i, index_of f names = Some i.
Proof.
  induction names as [|n ns IH]; intros H; [destruct H|].
  cbn [index_of]. destruct (str_eqb f n) eqn:E; [now exists 0|].
  destruct H as [H|H]; [subst; now rewrite str_eqb_refl in E|].
  destruct (IH H) as [i ->]. now exists (S i).
Qed.

(** The default of [getattr] is not used for a declared field. *)
Lemma getattr_declared (obj : EpBunch) (f : str) (d d' : fieldval) :
  In f (fieldnames obj) -> getattr obj f d = getattr obj f d'.
Proof.
  intros H. unfold getattr.
  now destruct (index_of_in f (fieldnames obj) H) as [i ->].
Qed.

Lemma active_field_declared (obj : EpBunch) (f : str) :
  In f (_get_active_fields obj) -> In f (fieldnames obj).
Proof.
  rewrite get_active_fields_spec, filter_In. intros [H _].
  rewrite <- (firstn_skipn (used_length (fieldvalues obj)) (fieldnames obj)).
  apply in_or_app. now left.
Qed.

Lemma existsb_str_eqb_in (f : str) (l : list str) :
  existsb (str_eqb f) l = true -> In f l.
Proof.
  rewrite existsb_exists. intros (x & H & E).
  apply str_eqb_eq in E. now subst.
Qed.

Lemma floats_of_pieces (pieces : list str) (l : list float) :
  floats_of pieces = Some l ->
  Forall2 (fun x v => float_of_str (strip x) = Some v) pieces l.
Proof.
  revert l. induction pieces as [|x xs IH]; intros l H; cbn [floats_of] in H.
  - apply Some_eq in H. subst. constructor.
  - destruct (float_of_str (strip x)) as [v|] eqn:E; [|discriminate].
    destruct (floats_of xs) as [vs|]; [|discriminate].
    apply Some_eq in H. subst. constructor; [exact E|now apply IH].
Qed.

Lemma floats_of_good (pieces : list str) :
  (forall x, In x pieces -> float_of_str (strip x) <> None) ->
  exists l, floats_of pieces = Some l.
Proof.
  induction pieces as [|x xs IH]; intros H; [now exists []|].
  cbn [floats_of].
  destruct (float_of_str (strip x)) as [v|] eqn:E;
    [|exfalso; apply (H x); [now left|exact E]].
  destruct IH as [vs ->]; [intros y Hy; apply H; now right|].
  now exists (v :: vs).
Qed.

End SampleFacts.

(** ** The matcher finds every match *)

Lemma star_k_complete {R} (p : char -> bool) (k : str -> option R) :
  forall pre rest x,
    forallb p pre = true -> k rest = Some x ->
    exists y, star_k p (pre ++ rest) k = Some y.
Proof.
  induction pre as [|c pre IH]; intros rest x Hp Hk; cbn [app].
  - destruct rest as [|c r]; cbn [star_k]; [eauto|].
    destruct (p c); [|eauto]. destruct (star_k p r k); eauto.
  - cbn [forallb] in Hp. apply andb_true_iff in Hp. destruct Hp as [Pc Hp].
    cbn [star_k]. rewrite Pc. destruct (IH rest x Hp Hk) as [y ->]. eauto.
Qed.

(** When the pattern matches a prefix after which the continuation
    succeeds, the matcher succeeds, be it on an alternative it tries
    earlier. *)
Lemma re_run_complete (r : re) (pre rest : str) (cs cs' : captures) :
  denotes r pre rest cs cs' ->
  forall (k : str -> captures -> option captures) (x : captures),
    k rest cs' = Some x ->
    exists y, re_run r (pre ++ rest) cs k = Some y.
Proof.
  induction 1 as [p c rest cs Pc
                 |a b s1 s2 rest cs cs1 cs2 _ IH1 _ IH2
                 |a s rest cs cs' _ IH
                 |a rest cs
                 |p s rest cs Hs
                 |n a s rest cs cs' _ IH
                 |rest cs Hr]; intros k x Hk; cbn [re_run].
  - cbn [app]. rewrite Pc. eauto.
  - destruct (IH2 k x Hk) as [y Hy].
    rewrite <- app_assoc.
    exact (IH1 (fun s' cs' => re_run b s' cs' k) y Hy).
  - destruct (IH k x Hk) as [y ->]. eauto.
  - cbn [app]. destruct (re_run a rest cs k); eauto.
  - exact (star_k_complete p (fun s' => k s' cs) s rest Hs Hk).
  - apply (IH _ x).
    rewrite length_app.
    replace (length s + length rest - length rest) with (length s) by lia.
    now rewrite firstn_app, firstn_all, Nat.sub_diag, app_nil_r.
  - cbn [app]. destruct Hr as [-> | ->]; [eauto|].
    rewrite Z.eqb_refl. eauto.
Qed.

Section PatternComplete.
Context {U : Unicode}.

Lemma plus_denotes (p : char -> bool) (s rest : str) (cs : captures) :
  s <> [] -> forallb p s = true -> denotes (Plus p) s rest cs cs.
Proof.
  destruct s as [|c s]; [congruence|]. intros _ H.
  cbn [forallb] in H. apply andb_true_iff in H. destruct H as [Pc Hs].
  change (c :: s) with ([c] ++ s). unfold Plus.
  eapply D_cat; [apply D_cls; exact Pc|apply D_star; exact Hs].
Qed.

Lemma sign_denotes (sg rest : str) (cs : captures) :
  sign_or_nothing sg -> denotes (Opt (Cls sign)) sg rest cs cs.
Proof.
  intros [->|[->| ->]];
    [apply D_opt_none|apply D_opt_some, D_cls; reflexivity..].
Qed.

Lemma number_denotes (num rest : str) (cs : captures) :
  numeric_token num -> denotes number_pattern num rest cs cs.
Proof.
  intros (sg & ip & pt & fp & ex & -> & Hsg & Hip & Hpt & Hne & Hfp & Hex).
  unfold number_pattern.
  eapply D_cat; [now apply sign_denotes|].
  eapply D_cat; [now apply D_star|].
  eapply D_cat.
  { destruct Hpt as [->| ->];
      [apply D_opt_none|apply D_opt_some, D_cls; reflexivity]. }
  eapply D_cat; [now apply plus_denotes|].
  destruct Hex as [->|(e & sg' & ds & -> & He & Hsg' & Hds & Hd)];
    [apply D_opt_none|].
  apply D_opt_some. unfold exponent_pattern.
  change (e :: sg' ++ ds) with ([e] ++ sg' ++ ds).
  eapply D_cat.
  { apply D_cls. destruct He as [->| ->]; reflexivity. }
  eapply D_cat; [now apply sign_denotes|now apply plus_denotes].
Qed.

(** A text of the shape of the pattern is matched. *)
Lemma value_pattern_complete (ws num ws2 : str) (d : char) (tail : str) :
  forallb isspace ws = true -> numeric_token num ->
  forallb isspace ws2 = true -> d = COMMA \/ d = SEMI ->
  forallb dot tail = true ->
  exists m, re_match value_pattern (ws ++ num ++ ws2 ++ d :: tail) = Some m.
Proof.
  intros Hws Hnum Hws2 Hd Htail. unfold re_match.
  assert (denotes value_pattern
            (ws ++ num ++ ws2 ++ (d :: tail) ++ []) [] []
            [(4, d :: tail); (3, ws2); (2, num); (1, ws)]) as D.
  { unfold value_pattern.
    eapply D_cat; [apply D_grp; now apply D_star|].
    eapply D_cat; [apply D_grp; now apply number_denotes|].
    eapply D_cat; [apply D_grp; now apply D_star|].
    eapply D_cat; [|apply D_eol; now left].
    apply D_grp. change (d :: tail) with ([d] ++ tail).
    eapply D_cat; [|now apply D_star].
    apply D_cls. destruct Hd as [->| ->]; reflexivity. }
  rewrite app_nil_r in D.
  destruct (re_run_complete D (fun _ cs => Some cs) eq_refl) as [y Hy].
  rewrite app_nil_r in Hy. eauto.
Qed.

(** A run of characters of a class in front of a character that is not
    of it is found in one way only. *)
Lemma span_unique (p : char -> bool) (a b a' b' : str) :
  forallb p a = true -> forallb p a' = true ->
  match b with [] => True | c :: _ => p c = false end ->
  match b' with [] => True | c :: _ => p c = false end ->
  a ++ b = a' ++ b' -> a = a' /\ b = b'.
Proof.
  revert a'. induction a as [|x a IH]; intros a' Ha Ha' Hb Hb' E.
  - destruct a' as [|y a']; [now split|]. exfalso.
    cbn [app] in E. subst b. cbn [forallb] in Ha'.
    apply andb_true_iff in Ha'. destruct Ha' as [Py _]. congruence.
  - destruct a' as [|y a'].
    + exfalso. cbn [app] in E. subst b'. cbn [forallb] in Ha.
      apply andb_true_iff in Ha. destruct Ha as [Px _]. congruence.
    + cbn [app] in E. injection E as -> E.
      cbn [forallb] in Ha, Ha'.
      apply andb_true_iff in Ha. apply andb_true_iff in Ha'.
      destruct (IH a' (proj2 Ha) (proj2 Ha') Hb Hb' E) as [-> ->].
      now split.
Qed.

Lemma sign_token (c : char) : sign c = true -> token_char c = true.
Proof.
  intros H. unfold token_char. rewrite H. now rewrite orb_true_r.
Qed.

Lemma digits_token (s : str) :
  forallb isdigit s = true -> forallb token_char s = true.
Proof.
  rewrite !forallb_forall. intros H c Hc. unfold token_char.
  now rewrite (H c Hc).
Qed.

Lemma sign_or_nothing_token (s : str) :
  sign_or_nothing s -> forallb token_char s = true.
Proof. intros [->|[->| ->]]; reflexivity || (cbn [forallb];
  rewrite sign_token; reflexivity). Qed.

(** A numeric token is not empty and made of token characters. *)
Lemma numeric_token_chars (num : str) :
  numeric_token num -> num <> [] /\ forallb token_char num = true.
Proof.
  intros (sg & ip & pt & fp & ex & -> & Hsg & Hip & Hpt & Hne & Hfp & Hex).
  split.
  - intros E. apply app_eq_nil in E. destruct E as [_ E].
    apply app_eq_nil in E. destruct E as [_ E].
    apply app_eq_nil in E. destruct E as [_ E].
    apply app_eq_nil in E. destruct E as [E _]. contradiction.
  - rewrite !forallb_app.
    rewrite (sign_or_nothing_token Hsg), (digits_token _ Hip),
      (digits_token _ Hfp).
    assert (forallb token_char pt = true) as ->.
    { destruct Hpt as [->| ->]; [reflexivity|]. cbn [forallb].
      unfold token_char, is_char. rewrite Z.eqb_refl.
      now rewrite !orb_true_r. }
    cbn [andb].
    destruct Hex as [->|(e & sg' & ds & -> & He & Hsg' & _ & Hd)];
      [reflexivity|].
    cbn [forallb]. rewrite forallb_app.
    rewrite (sign_or_nothing_token Hsg'), (digits_token _ Hd).
    cbn [andb]. rewrite andb_true_r.
    unfold token_char. destruct He as [->| ->]; cbn [one_of existsb];
      rewrite Z.eqb_refl; now rewrite ?orb_true_r.
Qed.

End PatternComplete.

Section PatternGroups.
Context {U : Unicode}.
Hypothesis apart : classes_apart.

Lemma token_not_space (c : char) : token_char c = true -> isspace c = false.
Proof.
  intros H. destruct (isspace c) eqn:S; [|reflexivity].
  rewrite (proj1 apart c S) in H. discriminate.
Qed.

Lemma delimiter_classes (d : char) :
  d = COMMA \/ d = SEMI -> isspace d = false /\ token_char d = false.
Proof.
  intros H. apply (proj2 apart).
  destruct H as [->| ->]; reflexivity.
Qed.

(** The groups of the match of a text of the shape of the pattern are
    the parts of the text. *)
Lemma value_pattern_groups (ws num ws2 : str) (d : char) (tail : str) :
  forallb isspace ws = true -> numeric_token num ->
  forallb isspace ws2 = true -> d = COMMA \/ d = SEMI ->
  forallb dot tail = true ->
  exists m,
    re_match value_pattern (ws ++ num ++ ws2 ++ d :: tail) = Some m /\
    group 1 m = ws /\ group 3 m = ws2 /\ group 4 m = d :: tail.
Proof.
  intros Hws Hnum Hws2 Hd Htail.
  destruct (value_pattern_complete ws ws2 tail Hws Hnum Hws2 Hd Htail)
    as [m M].
  exists m. split; [exact M|].
  destruct (value_pattern_sound _ M)
    as (ws' & num' & ws2' & d' & tail' & rest' & E & Hr & Hws' & Hnum'
        & Hws2' & Hd' & Htail' & -> & _ & -> & ->).
  destruct (numeric_token_chars Hnum) as [Nn Nc].
  destruct (numeric_token_chars Hnum') as [Nn' Nc'].
  destruct (delimiter_classes Hd) as [Ds Dt].
  destruct (delimiter_classes Hd') as [Ds' Dt'].
  assert (ws = ws' /\
          num ++ ws2 ++ d :: tail = num' ++ ws2' ++ (d' :: tail') ++ rest')
    as [<- E1].
  { apply (span_unique isspace); try assumption.
    - destruct num as [|c n]; [congruence|]. cbn [app].
      cbn [forallb] in Nc. apply andb_true_iff in Nc.
      apply token_not_space, Nc.
    - destruct num' as [|c n]; [congruence|]. cbn [app].
      cbn [forallb] in Nc'. apply andb_true_iff in Nc'.
      apply token_not_space, Nc'. }
  assert (num = num' /\ ws2 ++ d :: tail = ws2' ++ (d' :: tail') ++ rest')
    as [<- E2].
  { apply (span_unique token_char); try assumption.
    - destruct ws2 as [|c w]; cbn [app]; [exact Dt|].
      cbn [forallb] in Hws2. apply andb_true_iff in Hws2.
      apply (proj1 apart), Hws2.
    - destruct ws2' as [|c w]; cbn [app]; [exact Dt'|].
      cbn [forallb] in Hws2'. apply andb_true_iff in Hws2'.
      apply (proj1 apart), Hws2'. }
  assert (ws2 = ws2' /\ d :: tail = (d' :: tail') ++ rest') as [<- E3].
  { apply (span_unique isspace); assumption. }
  repeat split. cbn [app] in E3. injection E3 as <- E3.
  destruct Hr as [->| ->]; [rewrite app_nil_r in E3; now subst|].
  exfalso. assert (forallb dot [NL] = false) as N by reflexivity.
  rewrite E3, forallb_app, N, andb_false_r in Htail. discriminate.
Qed.

(** A text in which a comma or a semicolon follows the leading white
    space holds no number for the pattern. *)
Lemma blank_value_no_match (ws : str) (d : char) (tail : str) :
  forallb isspace ws = true -> d = COMMA \/ d = SEMI ->
  re_match value_pattern (ws ++ d :: tail) = None.
Proof.
  intros Hws Hd.
  destruct (re_match value_pattern (ws ++ d :: tail)) as [m|] eqn:M;
    [exfalso|reflexivity].
  destruct (value_pattern_sound _ M)
    as (ws' & num' & ws2' & d' & tail' & rest' & E & _ & Hws' & Hnum'
        & _).
  destruct (numeric_token_chars Hnum') as [Nn' Nc'].
  destruct (delimiter_classes Hd) as [Ds Dt].
  assert (ws = ws' /\
          d :: tail = num' ++ ws2' ++ (d' :: tail') ++ rest') as [_ E1].
  { apply (span_unique isspace); try assumption.
    destruct num' as [|c n]; [congruence|]. cbn [app].
    cbn [forallb] in Nc'. apply andb_true_iff in Nc'.
    apply token_not_space, Nc'. }
  destruct num' as [|c n]; [congruence|]. cbn [app] in E1.
  injection E1 as <- _. cbn [forallb] in Nc'.
  apply andb_true_iff in Nc'. destruct Nc' as [Nc' _]. congruence.
Qed.

End PatternGroups.

(** ** Every line of a shape is rewritten *)

Lemma lstrip_by_app (p : char -> bool) (x y : str) :
  forallb p x = true -> lstrip_by p (x ++ y) = lstrip_by p y.
Proof.
  induction x as [|c x IH]; [reflexivity|]. cbn [forallb app lstrip_by].
  intros H. apply andb_true_iff in H. destruct H as [-> H]. now apply IH.
Qed.

Lemma rstrip_by_junk (p : char -> bool) (pre : str) (c : char) (junk : str) :
  p c = false -> forallb p junk = true ->
  rstrip_by p ((pre ++ [c]) ++ junk) = pre ++ [c].
Proof.
  intros Pc Hj. unfold rstrip_by.
  rewrite rev_app_distr, lstrip_by_app.
  - rewrite rev_app_distr. cbn [rev app lstrip_by]. rewrite Pc.
    change (c :: rev pre) with ([c] ++ rev pre).
    now rewrite rev_app_distr, rev_involutive.
  - rewrite forallb_forall in *. intros x Hx. apply Hj. now apply in_rev.
Qed.

Lemma first_cut_unique (c : char) (a b a' b' : str) :
  has_char c a = false -> has_char c a' = false ->
  a ++ c :: b = a' ++ c :: b' -> a = a' /\ b = b'.
Proof.
  intros Ha Ha' E.
  assert (forall s, has_char c s = false ->
            forallb (fun x => negb (x =? c)%Z) s = true) as F.
  { intros s H. apply has_char_false in H. rewrite forallb_forall.
    rewrite Forall_forall in H. intros x Hx. apply negb_true_iff.
    apply Z.eqb_neq. now apply H. }
  destruct (span_unique (fun x => negb (x =? c)%Z) a (c :: b) a' (c :: b')
              (F a Ha) (F a' Ha')) as [E1 E2]; try assumption;
    try (now rewrite Z.eqb_refl).
  split; [exact E1|]. now injection E2.
Qed.

Lemma slices_at_bang (content comment : str) :
  has_char BANG content = false ->
  slice_to (find BANG (content ++ BANG :: comment))
    (content ++ BANG :: comment) = content /\
  slice_from (find BANG (content ++ BANG :: comment))
    (content ++ BANG :: comment) = BANG :: comment.
Proof.
  intros H.
  assert (has_char BANG (content ++ BANG :: comment) = true) as B.
  { rewrite has_char_app. unfold has_char at 2. cbn [existsb].
    rewrite Z.eqb_refl. now rewrite orb_true_r. }
  destruct (find_split BANG _ B) as (a & b & E & Ha & Ht & Hf & _).
  destruct (first_cut_unique BANG content comment a b H Ha E) as [<- <-].
  split; assumption.
Qed.

Section SubstituteComplete.
Context {U : Unicode} {P : PyFloat}.
Hypothesis apart : classes_apart.

(** The text before the comment, without the line ends that may stand
    before the comment. *)
Lemma rstrip_crlf_content (front : str) (d : char) (tail junk : str) :
  d = COMMA \/ d = SEMI ->
  existsb is_cr_or_lf tail = false ->
  forallb is_cr_or_lf junk = true ->
  rstrip_crlf ((front ++ d :: tail) ++ junk) = front ++ d :: tail.
Proof.
  intros Hd Ht Hj.
  assert (d :: tail <> []) as Ne by discriminate.
  destruct (exists_last Ne) as (pre & c & E).
  assert (is_cr_or_lf c = false) as Pc.
  { assert (In c (d :: tail)) as I
      by (rewrite E; apply in_or_app; right; now left).
    destruct I as [<-|I].
    - destruct Hd as [->| ->]; reflexivity.
    - destruct (is_cr_or_lf c) eqn:Q; [|reflexivity].
      assert (existsb is_cr_or_lf tail = true) as X
        by (apply existsb_exists; eauto).
      congruence. }
  rewrite E, app_assoc. unfold rstrip_crlf.
  exact (@rstrip_by_junk (fun c => (c =? CR)%Z || (c =? NL)%Z)
           (front ++ pre) c junk Pc Hj).
Qed.

Lemma no_line_end_dot (s : str) :
  existsb is_cr_or_lf s = false -> forallb dot s = true.
Proof.
  induction s as [|c s IH]; [reflexivity|]. cbn [existsb forallb].
  intros H. apply orb_false_iff in H. destruct H as [Hc Hs].
  rewrite (IH Hs), andb_true_r. unfold is_cr_or_lf in Hc.
  apply orb_false_iff in Hc. unfold dot. now rewrite (proj2 Hc).
Qed.

(** The numeric token of a line of the shape of the pattern is
    replaced, and nothing else. *)
Lemma substitute_token (v : float) (ws num ws2 : str) (d : char)
    (tail junk comment : str) :
  has_char BANG (ws ++ num ++ ws2 ++ d :: tail ++ junk) = false ->
  forallb isspace ws = true -> numeric_token num ->
  forallb isspace ws2 = true -> d = COMMA \/ d = SEMI ->
  existsb is_cr_or_lf tail = false ->
  forallb is_cr_or_lf junk = true ->
  substitute v (ws ++ num ++ ws2 ++ d :: tail ++ junk ++ BANG :: comment)
  = Some (ws ++ repr v ++ ws2 ++ d :: tail ++ BANG :: comment).
Proof.
  intros B Hws Hnum Hws2 Hd Ht Hj.
  replace (ws ++ num ++ ws2 ++ d :: tail ++ junk ++ BANG :: comment)
    with ((ws ++ num ++ ws2 ++ d :: tail ++ junk) ++ BANG :: comment)
    by (repeat (rewrite <- app_assoc || rewrite <- app_comm_cons);
        reflexivity).
  unfold substitute.
  destruct (slices_at_bang _ comment B) as [-> ->].
  replace (ws ++ num ++ ws2 ++ d :: tail ++ junk)
    with (((ws ++ num ++ ws2) ++ d :: tail) ++ junk)
    by (repeat (rewrite <- app_assoc || rewrite <- app_comm_cons);
        reflexivity).
  rewrite (rstrip_crlf_content _ _ _ Hd Ht Hj), <- !app_assoc.
  destruct (value_pattern_groups apart ws ws2 tail Hws Hnum Hws2 Hd
              (no_line_end_dot _ Ht)) as (m & -> & -> & -> & ->).
  now rewrite <- app_comm_cons.
Qed.

(** Where the pattern does not apply, what stands before the first
    comma is replaced. *)
Lemma substitute_segment (v : float) (seg rest comment : str) :
  has_char COMMA seg = false ->
  has_char BANG (seg ++ COMMA :: rest) = false ->
  re_match value_pattern (rstrip_crlf (seg ++ COMMA :: rest)) = None ->
  substitute v (seg ++ COMMA :: rest ++ BANG :: comment)
  = Some (lit "    " ++ repr v ++ COMMA :: rest ++ BANG :: comment).
Proof.
  intros Hs B M.
  replace (seg ++ COMMA :: rest ++ BANG :: comment)
    with ((seg ++ COMMA :: rest) ++ BANG :: comment)
    by (now rewrite <- app_assoc, <- app_comm_cons).
  unfold substitute.
  destruct (slices_at_bang _ comment B) as [-> ->]. rewrite M.
  destruct (split_once_shape COMMA (seg ++ COMMA :: rest))
    as [[_ H]|(a & b & -> & E & Ha)].
  - rewrite has_char_app in H. unfold has_char at 2 in H.
    cbn [existsb] in H. rewrite Z.eqb_refl in H.
    now rewrite orb_true_r in H.
  - destruct (first_cut_unique COMMA seg rest a b Hs Ha E) as [<- <-].
    reflexivity.
Qed.

(** Where the pattern does not apply and there is no comma, the line
    stays. *)
Lemma substitute_none (v : float) (content comment : str) :
  has_char COMMA content = false ->
  has_char BANG content = false ->
  re_match value_pattern (rstrip_crlf content) = None ->
  substitute v (content ++ BANG :: comment) = None.
Proof.
  intros Hc B M. unfold substitute.
  destruct (slices_at_bang _ comment B) as [-> ->]. rewrite M.
  destruct (split_once_shape COMMA content)
    as [[-> _]|(a & b & _ & -> & _)]; [reflexivity|].
  rewrite has_char_app in Hc. unfold has_char at 2 in Hc.
  cbn [existsb] in Hc. rewrite Z.eqb_refl in Hc.
  now rewrite orb_true_r in Hc.
Qed.

(** A line whose label matches is rewritten whenever [substitute]
    applies. *)
Lemma process_line_matched (m : updates_map) (st : state) (line : str)
    (v : float) :
  in_obj (open_block m st line) = true ->
  type_pending m (current_type (fst (fst (process_line m st line)))) = true ->
  has_char BANG line = true ->
  first_match (field_key_of line)
    (target_fields m (fst (fst (process_line m st line)))) = Some v ->
  process_line m st line
  = match substitute v line with
    | Some line' => (fst (fst (process_line m st line)), line', true)
    | None => (fst (fst (process_line m st line)), line, false)
    end.
Proof.
  rewrite process_line_state. intros I. rewrite I. intros T B F.
  unfold process_line. rewrite I, T, B. cbn [andb]. rewrite F.
  destruct (substitute v line); reflexivity.
Qed.

(** A line no pending label is found in is not rewritten. *)
Lemma process_line_unmatched (m : updates_map) (st : state) (line : str) :
  first_match (field_key_of line)
    (target_fields m (fst (fst (process_line m st line)))) = None ->
  process_line m st line = (fst (fst (process_line m st line)), line, false).
Proof.
  rewrite process_line_state. unfold process_line.
  destruct (in_obj (open_block m st line)); [|reflexivity].
  intros F. rewrite F.
  destruct (type_pending m _ && has_char BANG line); reflexivity.
Qed.

End SubstituteComplete.

(** ** Labels of ASCII characters under any tables *)

Lemma ascii_upper_char_ascii (c d : char) :
  ascii_upper_char c = ascii_upper_char d ->
  is_ascii c = true -> is_ascii d = true.
Proof.
  unfold ascii_upper_char, is_ascii.
  destruct ((97 <=? c) && (c <=? 122))%Z eqn:A;
    destruct ((97 <=? d) && (d <=? 122))%Z eqn:B; lia.
Qed.

Lemma variant1_ascii (a b : str) :
  variant1 a b -> forallb is_ascii a = true -> forallb is_ascii b = true.
Proof.
  intros V.
  assert (forall c, separator c -> is_ascii c = true) as S
    by (intros c [->| ->]; reflexivity).
  destruct V as [pre c d post H|pre c d post Hc Hd|pre c post Hc
                |pre c post Hc];
    rewrite !forallb_app; cbn [forallb]; intros A;
    apply andb_true_iff in A; destruct A as [A1 A].
  - apply andb_true_iff in A. destruct A as [A2 A3].
    now rewrite A1, A3, (ascii_upper_char_ascii c d H A2).
  - apply andb_true_iff in A. destruct A as [A2 A3].
    now rewrite A1, A3, (S d Hd).
  - apply andb_true_iff in A. destruct A as [A2 A3].
    now rewrite A1, A3.
  - now rewrite A1, A, (S c Hc).
Qed.

Lemma variant_ascii (a b : str) :
  variant a b -> forallb is_ascii a = true -> forallb is_ascii b = true.
Proof.
  induction 1 as [s|a b c V1 _ IH]; [auto|].
  intros A. apply IH. exact (variant1_ascii V1 A).
Qed.

Lemma field_key_of_label `{Unicode} (line : str) :
  field_key_of line = upper (comment_label line).
Proof.
  unfold field_key_of, comment_label.
  destruct (startswith (lit "- ") (strip (item1 (split BANG line))));
    reflexivity.
Qed.

Section LabelFacts.
Context {U : Unicode} {P : PyFloat}.
Hypothesis tables : ascii_tables.

(** Labels of ASCII characters that differ by case, spaces and
    underscores have one normal form in the patcher and one in
    [execute_modification]. *)
Lemma variant_forms (a b : str) :
  forallb is_ascii a = true -> variant a b ->
  squeeze (upper a) = squeeze (upper b) /\ normalize a = normalize b.
Proof.
  intros A V. pose proof (variant_ascii V A) as B.
  destruct (tables a A) as [Ua La]. destruct (tables b B) as [Ub Lb].
  destruct (variant_normal_forms V) as [H1 H2].
  unfold normalize in *. rewrite Ua, Ub, La, Lb. split; assumption.
Qed.

Hypothesis by_char : upper_by_char.

Lemma upper_separator (c : char) : separator c -> squeeze (upper [c]) = [].
Proof.
  destruct by_char as (_ & S & N).
  intros [->| ->]; [rewrite S|rewrite N]; reflexivity.
Qed.

Lemma upper_squeeze_app (a b : str) :
  squeeze (upper (a ++ b)) = squeeze (upper a) ++ squeeze (upper b).
Proof. rewrite (proj1 by_char). apply squeeze_app. Qed.

(** Labels that differ by case, spaces and underscores have one normal
    form in the patcher. *)
Lemma alike1_form (a b : str) :
  alike1 a b -> squeeze (upper a) = squeeze (upper b).
Proof.
  intros V.
  destruct V as [pre x y post H|pre c d post Hc Hd|pre c post Hc
                |pre c post Hc].
  - rewrite !upper_squeeze_app. now rewrite H.
  - change (pre ++ c :: post) with (pre ++ [c] ++ post).
    change (pre ++ d :: post) with (pre ++ [d] ++ post).
    rewrite !upper_squeeze_app. now rewrite !upper_separator.
  - change (pre ++ c :: post) with (pre ++ [c] ++ post).
    rewrite !upper_squeeze_app. now rewrite upper_separator.
  - change (pre ++ c :: post) with (pre ++ [c] ++ post).
    rewrite !upper_squeeze_app. now rewrite upper_separator.
Qed.

Lemma alike_form (a b : str) :
  alike a b -> squeeze (upper a) = squeeze (upper b).
Proof.
  induction 1 as [s|a b c V1 _ IH]; [reflexivity|].
  rewrite (alike1_form V1). exact IH.
Qed.

Lemma first_match_head (key tk : str) (v : float) (d : fields_map) :
  contains (squeeze tk) (squeeze key) = true ->
  first_match key ((tk, v) :: d) = Some v.
Proof. intros H. cbn [first_match]. now rewrite H. Qed.

Lemma first_match_key (key key' : str) (d : fields_map) :
  squeeze key = squeeze key' -> first_match key d = first_match key' d.
Proof.
  intros E. induction d as [|[tk tv] d IH]; [reflexivity|].
  cbn [first_match]. now rewrite E, IH.
Qed.

Lemma first_match_none (key : str) (d : fields_map) :
  (forall tk tv, In (tk, tv) d ->
     contains (squeeze tk) (squeeze key) = false) ->
  first_match key d = None.
Proof.
  induction d as [|[tk tv] d IH]; intros H; [reflexivity|].
  cbn [first_match]. rewrite (H tk tv (or_introl eq_refl)).
  apply IH. intros k w I. apply (H k w). now right.
Qed.

Lemma find_attr_head (attr : str) (attrs : list str) (norm_field : str) :
  normalize attr = norm_field ->
  find_attr norm_field (attr :: attrs) = Some attr.
Proof.
  intros E. cbn [find_attr]. rewrite E. now rewrite str_eqb_refl.
Qed.

End LabelFacts.

(** ** The keys of the Update Set *)

Lemma dict_get_of_in {A} (k : str) (v : A) (d : dict A) :
  In (k, v) d -> exists v', dict_get k d = Some v'.
Proof.
  induction d as [|[k0 v0] d IH]; intros H; [destruct H|].
  cbn [dict_get]. destruct (str_eqb k k0) eqn:Q; [eauto|].
  destruct H as [H|H]; [|now apply IH].
  injection H as -> ->. now rewrite str_eqb_refl in Q.
Qed.

Section KeyFacts.
Context {U : Unicode} {P : PyFloat}.

(** Every key under which the loop looks a label up comes from a
    request for the current type and name. *)
Lemma target_fields_keys (ups : list update) (st : state) (f : str)
    (v : float) :
  In (f, v) (target_fields (build_map ups) st) ->
  exists u, In u ups /\
    current_type st = Some (upper (u_type u)) /\
    current_name st = Some (upper (u_name u)) /\
    upper (u_field u) = f.
Proof.
  unfold target_fields.
  destruct (current_type st) as [t|]; [|intros []].
  destruct (current_name st) as [n|]; [|intros []].
  intros I. destruct (dict_get_of_in _ _ _ I) as [v' G].
  change (lookup3 (build_map ups) t n f = Some v') in G.
  unfold build_map in G. rewrite lookup3_fold in G.
  destruct (List.find (request_for t n f) (rev ups)) as [u|] eqn:F;
    [|discriminate].
  apply find_some in F. destruct F as [Iu R].
  unfold request_for in R.
  apply andb_true_iff in R. destruct R as [R R3].
  apply andb_true_iff in R. destruct R as [R1 R2].
  apply str_eqb_eq in R1, R2, R3.
  exists u. rewrite <- in_rev in Iu. repeat split; congruence.
Qed.

(** A line in whose label no pending label of the current object is
    found is not rewritten. *)
Lemma line_kept (ups : list update) (st : state) (line : str) :
  (forall u, In u ups ->
     current_type (fst (fst (process_line (build_map ups) st line)))
       = Some (upper (u_type u)) ->
     current_name (fst (fst (process_line (build_map ups) st line)))
       = Some (upper (u_name u)) ->
     contains (squeeze (upper (u_field u))) (squeeze (field_key_of line))
       = false) ->
  process_line (build_map ups) st line
  = (fst (fst (process_line (build_map ups) st line)), line, false).
Proof.
  intros H. apply process_line_unmatched. apply first_match_none.
  intros tk tv I.
  destruct (target_fields_keys _ _ _ _ I) as (u & Iu & T & N & <-).
  now apply H.
Qed.

End KeyFacts.

(** ** The lines of a file and the lines of its text *)

Lemma lf_byte_ord (b : Byte.byte) :
  Byte.eqb b Byte.x0a = (ord b =? 10)%Z.
Proof. destruct b; reflexivity. Qed.

Lemma byte_of_not_lf (z : Z) :
  (0 <= z < 256)%Z -> z <> 10%Z -> Byte.eqb (byte_of z) Byte.x0a = false.
Proof.
  intros R N. rewrite lf_byte_ord, (ord_byte_of R). now apply Z.eqb_neq.
Qed.

(** The encoding of a character other than LF holds no LF byte. *)
Lemma utf8_char_no_lf (c : char) (enc : bytes) :
  utf8_encode_char c = Some enc -> c <> NL ->
  enc <> [] /\ forallb (fun b => negb (Byte.eqb b Byte.x0a)) enc = true.
Proof.
  unfold utf8_encode_char, NL. intros H N.
  destruct (c <? 0)%Z eqn:E0; [discriminate|].
  destruct (c <? 0x80)%Z eqn:E1.
  { apply Some_eq in H. subst enc. split; [discriminate|].
    cbn [forallb]. rewrite byte_of_not_lf by lia. reflexivity. }
  destruct (c <? 0x800)%Z eqn:E2.
  { apply Some_eq in H. subst enc. split; [discriminate|].
    cbn [forallb].
    rewrite !byte_of_not_lf by (Z.div_mod_to_equations; lia).
    reflexivity. }
  destruct (c <? 0x10000)%Z eqn:E3.
  { destruct ((0xD800 <=? c) && (c <=? 0xDFFF))%Z; [discriminate|].
    apply Some_eq in H. subst enc. split; [discriminate|].
    cbn [forallb].
    rewrite !byte_of_not_lf by (Z.div_mod_to_equations; lia).
    reflexivity. }
  destruct (c <=? 0x10FFFF)%Z eqn:E4; [|discriminate].
  apply Some_eq in H. subst enc. split; [discriminate|].
  cbn [forallb].
  rewrite !byte_of_not_lf by (Z.div_mod_to_equations; lia).
  reflexivity.
Qed.

Lemma utf8_encode_app (a b : str) :
  utf8_encode (a ++ b)
  = match utf8_encode a, utf8_encode b with
    | Some x, Some y => Some (x ++ y)
    | _, _ => None
    end.
Proof.
  induction a as [|c a IH]; cbn [app utf8_encode].
  - destruct (utf8_encode b); reflexivity.
  - rewrite IH. destruct (utf8_encode_char c); [|reflexivity].
    destruct (utf8_encode a); [|reflexivity].
    destruct (utf8_encode b); [|reflexivity].
    now rewrite app_assoc.
Qed.

(** The encoding of a text made of lines is made of the encodings of
    the lines. *)
Lemma utf8_encode_concat (ls : list str) :
  forall out, utf8_encode (concat ls) = Some out ->
    exists segs,
      Forall2 (fun l b => utf8_encode l = Some b) ls segs /\
      out = concat segs.
Proof.
  induction ls as [|l ls IH]; intros out H; cbn [concat] in H.
  - apply Some_eq in H. subst. exists []. split; [constructor|reflexivity].
  - rewrite utf8_encode_app in H.
    destruct (utf8_encode l) as [x|] eqn:El; [|discriminate].
    destruct (utf8_encode (concat ls)) as [y|] eqn:Ec; [|discriminate].
    apply Some_eq in H. subst.
    destruct (IH y eq_refl) as (segs & F & ->).
    exists (x :: segs). split; [now constructor|reflexivity].
Qed.

Lemma byte_lines_front (enc rest : bytes) :
  enc <> [] ->
  forallb (fun b => negb (Byte.eqb b Byte.x0a)) enc = true ->
  byte_lines (enc ++ rest)
  = match byte_lines rest with
    | [] => [enc]
    | l :: ls => (enc ++ l) :: ls
    end.
Proof.
  induction enc as [|b enc IH]; [congruence|]. intros _ H.
  cbn [forallb] in H. apply andb_true_iff in H. destruct H as [Hb He].
  apply negb_true_iff in Hb. cbn [app byte_lines]. rewrite Hb.
  destruct enc as [|b' enc'].
  - cbn [app]. destruct (byte_lines rest); reflexivity.
  - rewrite IH by (discriminate || exact He).
    destruct (byte_lines rest); reflexivity.
Qed.

(** The lines of a file in UTF-8 are the encodings of the lines of its
    text. *)
Lemma byte_lines_of_text (text : str) :
  forall doc, utf8_encode text = Some doc ->
    Forall2 (fun l b => utf8_encode l = Some b)
            (lines_of text) (byte_lines doc).
Proof.
  induction text as [|c text IH]; intros doc H; cbn [utf8_encode] in H.
  - apply Some_eq in H. subst. constructor.
  - destruct (utf8_encode_char c) as [enc|] eqn:Ec; [|discriminate].
    destruct (utf8_encode text) as [bs|] eqn:Et; [|discriminate].
    apply Some_eq in H. subst doc. specialize (IH bs eq_refl).
    cbn [lines_of]. destruct (c =? NL)%Z eqn:N.
    + apply Z.eqb_eq in N. subst c.
      assert (enc = [Byte.x0a]) as ->
        by (apply Some_eq; rewrite <- Ec; reflexivity).
      cbn [app byte_lines Byte.eqb]. constructor; [reflexivity|exact IH].
    + apply Z.eqb_neq in N.
      destruct (utf8_char_no_lf Ec N) as [Ne Hf].
      rewrite (@byte_lines_front enc bs Ne Hf).
      inversion IH as [|l b ls bls Hl Hls E1 E2]; subst.
      * constructor; [|constructor]. cbn [utf8_encode].
        now rewrite Ec, app_nil_r.
      * constructor; [|exact Hls]. cbn [utf8_encode]. now rewrite Ec, Hl.
Qed.

Lemma Forall2_nth_error {A B} (R : A -> B -> Prop) (l : list A)
    (l' : list B) :
  Forall2 R l l' ->
  forall i x, nth_error l i = Some x ->
    exists y, nth_error l' i = Some y /\ R x y.
Proof.
  induction 1 as [|a b l l' Hab _ IH]; intros i x H.
  - destruct i; discriminate.
  - destruct i as [|i]; cbn [nth_error] in *.
    + apply Some_eq in H. subst. eauto.
    + now apply IH.
Qed.

Section FileFrame.
Context {U : Unicode} {P : PyFloat}.

(** On a document in UTF-8 without carriage returns, where the line
    separator is LF, the file written is made of the encodings of the
    lines written, and the encoding of a line that was not rewritten
    is the line of the input file, byte for byte. *)
Lemma untouched_bytes (target_updates : list update) (doc : bytes)
    (text : str) (out : bytes) :
  utf8_decode doc = Some text ->
  has_char CR text = false ->
  _save_with_text_replacement Posix target_updates doc = Some out ->
  exists segs,
    out = concat segs /\
    Forall2 (fun l b => utf8_encode l = Some b)
      (patch_lines target_updates (snd (read_document doc))) segs /\
    length segs = length (byte_lines doc) /\
    forall i line,
      nth_error (run (build_map target_updates) initial
                   (snd (read_document doc))) i = Some (line, false) ->
      nth_error (byte_lines doc) i <> None /\
      nth_error segs i = nth_error (byte_lines doc) i.
Proof.
  intros D C S.
  pose proof (byte_lines_of_text _ (utf8_decode_encode _ D)) as In.
  unfold _save_with_text_replacement, write_document in S.
  rewrite write_newlines_posix in S.
  destruct (utf8_encode_concat _ S) as (segs & Out & ->).
  assert (snd (read_document doc) = lines_of text) as L.
  { unfold read_document. rewrite D. cbn [snd].
    now rewrite (universal_newlines_no_cr _ C). }
  rewrite L in *.
  exists segs. split; [reflexivity|]. split; [exact Out|]. split.
  - pose proof (Forall2_length Out) as L1.
    pose proof (Forall2_length In) as L2.
    unfold patch_lines in L1. rewrite length_map, run_length in L1.
    etransitivity; [symmetry; exact L1|exact L2].
  - intros i line H.
    destruct (run_nth_inv _ _ _ _ H) as (line0 & Hl & Ho & Hf).
    assert (line = line0) as <-.
    { rewrite <- Ho. apply process_line_unflagged. exact Hf. }
    assert (nth_error (patch_lines target_updates (lines_of text)) i
            = Some line) as Hp
      by (unfold patch_lines; now rewrite nth_error_map, H).
    destruct (Forall2_nth_error In _ Hl) as (b & Hb & Eb).
    destruct (Forall2_nth_error Out _ Hp) as (b' & Hb' & Eb').
    assert (b' = b) as -> by congruence. split.
    + intros X. pose proof (eq_trans (eq_sym X) Hb) as Y. discriminate Y.
    + etransitivity; [exact Hb'|symmetry; exact Hb].
Qed.

End FileFrame.

(** ** Matched lines *)

Lemma lstrip_by_keep (p : char -> bool) (x : str) (c : char) (y : str) :
  p c = false -> lstrip_by p (x ++ c :: y) = lstrip_by p x ++ c :: y.
Proof.
  intros Pc. induction x as [|h t IH]; cbn [app lstrip_by].
  - now rewrite Pc.
  - destruct (p h); [exact IH|reflexivity].
Qed.

Lemma rstrip_by_keep (p : char -> bool) (a : str) (c : char) (b : str) :
  p c = false -> rstrip_by p (a ++ c :: b) = a ++ c :: rstrip_by p b.
Proof.
  intros Pc. unfold rstrip_by.
  rewrite rev_app_distr. cbn [rev]. rewrite <- app_assoc. cbn [app].
  rewrite (@lstrip_by_keep p (rev b) c (rev a) Pc).
  rewrite rev_app_distr. cbn [rev]. rewrite rev_involutive.
  now rewrite <- app_assoc.
Qed.

Section MatchedFacts.
Context {U : Unicode} {P : PyFloat}.

(** What the loop does with a matched line. *)
Lemma matched_line (m : updates_map) (st : state) (line : str) (v : float) :
  matched m st line v ->
  process_line m st line
  = match substitute v line with
    | Some line' => (state_in_block m st line, line', true)
    | None => (state_in_block m st line, line, false)
    end.
Proof.
  intros (I & T & B & F). unfold state_in_block in *.
  unfold process_line. rewrite I, T, B. cbn [andb]. rewrite F.
  destruct (substitute v line); reflexivity.
Qed.

Lemma hit_is_matched (m : updates_map) (st st' : state) (line line' : str) :
  process_line m st line = (st', line', true) ->
  st' = state_in_block m st line /\
  exists v, matched m st line v /\ substitute v line = Some line'.
Proof.
  unfold process_line, matched, state_in_block.
  destruct (in_obj (open_block m st line)); [|discriminate].
  destruct (type_pending m _) eqn:T; [|discriminate].
  destruct (has_char BANG line) eqn:B; [|discriminate]. cbn [andb].
  destruct (first_match _ _) as [v|] eqn:F; [|discriminate].
  destruct (substitute v line) as [l|] eqn:S; [|discriminate].
  intros H. injection H as <- <-. split; [reflexivity|].
  exists v. repeat split; assumption.
Qed.

Hypothesis apart : classes_apart.

Lemma space_not_comma (ws : str) :
  forallb isspace ws = true -> has_char COMMA ws = false.
Proof.
  intros H. apply has_char_false. rewrite Forall_forall.
  rewrite forallb_forall in H. intros c Hc E. subst c.
  specialize (H _ Hc).
  destruct (delimiter_classes apart (or_introl eq_refl)) as [S _].
  congruence.
Qed.

(** A blank value followed by a comma gives way to four spaces and the
    value. *)
Lemma blank_before_comma (v : float) (ws rest comment : str) :
  forallb isspace ws = true ->
  has_char BANG (ws ++ COMMA :: rest) = false ->
  substitute v (ws ++ COMMA :: rest ++ BANG :: comment)
  = Some (lit "    " ++ repr v ++ COMMA :: rest ++ BANG :: comment).
Proof.
  intros Hws B. apply substitute_segment.
  - now apply space_not_comma.
  - exact B.
  - unfold rstrip_crlf. rewrite rstrip_by_keep by reflexivity.
    apply (blank_value_no_match apart); [exact Hws|now left].
Qed.

(** A blank value that ends its record, with no comma before the
    comment, is left as it is. *)
Lemma blank_before_semicolon (v : float) (ws rest comment : str) :
  forallb isspace ws = true ->
  has_char COMMA rest = false ->
  has_char BANG (ws ++ SEMI :: rest) = false ->
  substitute v ((ws ++ SEMI :: rest) ++ BANG :: comment) = None.
Proof.
  intros Hws Hc B. apply substitute_none.
  - rewrite has_char_app, (space_not_comma _ Hws).
    unfold has_char at 1. cbn [existsb orb].
    exact Hc.
  - exact B.
  - unfold rstrip_crlf. rewrite rstrip_by_keep by reflexivity.
    apply (blank_value_no_match apart); [exact Hws|now right].
Qed.

End MatchedFacts.

(** ** The ASCII tables *)

Lemma ascii_classes_apart : @classes_apart ascii_db.
Proof.
  unfold classes_apart, token_char, sign, one_of, is_char.
  cbn [isspace isdigit ascii_db existsb].
  unfold ascii_isspace, ascii_isdigit, COMMA, SEMI, PLUS_SIGN, MINUS_SIGN,
    FULL_STOP, LETTER_E, LETTER_e.
  split; [intros c H|intros c H; split]; lia.
Qed.

Lemma ascii_db_tables : @ascii_tables ascii_db.
Proof. intros s _. split; reflexivity. Qed.

Lemma ascii_db_upper_by_char : @upper_by_char ascii_db.
Proof.
  split; [|split; reflexivity]. intros a b. cbn [upper ascii_db].
  apply map_app.
Qed.

Section KeptFacts.
Context {U : Unicode} {P : PyFloat}.

(** A line, read inside a block or not, in whose label no pending
    label of the current object is found is not rewritten. *)
Lemma line_kept_in_block (ups : list update) (st : state) (line : str) :
  (forall u, In u ups ->
     current_type (state_in_block (build_map ups) st line)
       = Some (upper (u_type u)) ->
     current_name (state_in_block (build_map ups) st line)
       = Some (upper (u_name u)) ->
     contains (squeeze (upper (u_field u))) (squeeze (field_key_of line))
       = false) ->
  snd (fst (process_line (build_map ups) st line)) = line /\
  snd (process_line (build_map ups) st line) = false.
Proof.
  intros H.
  destruct (in_obj (open_block (build_map ups) st line)) eqn:S.
  - assert (fst (fst (process_line (build_map ups) st line))
            = state_in_block (build_map ups) st line) as E
      by (rewrite process_line_state, S; reflexivity).
    rewrite (line_kept ups st line); [split; reflexivity|].
    rewrite E. exact H.
  - unfold process_line. rewrite S. split; reflexivity.
Qed.

End KeptFacts.

(** An exception in one turn of a loop ends it all. *)
Lemma gather_none `{PyFloat} {A} (f : A -> option (list update)) (x : A)
    (l : list A) :
  In x l -> f x = None -> gather f l = None.
Proof.
  induction l as [|y l IH]; intros I N; [destruct I|].
  cbn [gather]. destruct I as [->|I].
  - now rewrite N.
  - rewrite (IH I N). destruct (f y); reflexivity.
Qed.

(** * The claims *)

Section FrameClaims.
Context {U : Unicode} {P : PyFloat}.

(** C10. A line without [!] is appended to [new_lines] as it is and is
    not counted as rewritten, wherever it stands in the document and
    whatever is pending. *)
Theorem line_without_comment_is_copied
    (target_updates : list update) (lines : list str) (i : nat) (line : str) :
  nth_error lines i = Some line ->
  has_char BANG line = false ->
  nth_error (run (build_map target_updates) initial lines) i
    = Some (line, false) /\
  nth_error (patch_lines target_updates lines) i = Some line.
Proof.
  intros Hl Hb.
  assert (nth_error (run (build_map target_updates) initial lines) i
          = Some (line, false)) as R.
  { rewrite (run_nth _ _ _ _ Hl). cbv zeta.
    destruct (process_line_no_bang (build_map target_updates)
                (state_after (build_map target_updates) initial
                   (firstn i lines)) line Hb) as [H1 H2].
    now rewrite H1, H2. }
  split; [exact R|].
  unfold patch_lines. rewrite nth_error_map, R. reflexivity.
Qed.

(** C3, as amended. With an empty Update Set the lines written are the
    lines read and a file is always written; that file is the input
    file, byte for byte, when the input is valid UTF-8 without carriage
    returns and the line separator of the platform is LF. *)
Theorem empty_update_set_keeps_the_lines (doc : bytes) :
  patch_lines [] (snd (read_document doc)) = snd (read_document doc) /\
  (forall p, exists out, _save_with_text_replacement p [] doc = Some out) /\
  (forall text,
      utf8_decode doc = Some text ->
      has_char CR text = false ->
      _save_with_text_replacement Posix [] doc = Some doc).
Proof.
  split; [apply patch_lines_empty|].
  split; [intros p; apply save_empty_total|].
  intros text. apply save_empty_utf8_posix.
Qed.

(** C8, as amended. The document is decoded as UTF-8 and, exactly when
    that fails, as Latin-1, which refuses no byte sequence: reading
    never fails because of the encoding, and with nothing to update a
    file is always written. Whatever was used for reading, the file
    written is UTF-8: it decodes as UTF-8 to the lines written. *)
Theorem reading_falls_back_and_writing_is_utf8 (doc : bytes) :
  (fst (read_document doc) = Utf8 /\
     (exists text, utf8_decode doc = Some text /\
        snd (read_document doc) = lines_of (universal_newlines text))
   \/
   fst (read_document doc) = Latin1 /\ utf8_decode doc = None /\
     snd (read_document doc)
       = lines_of (universal_newlines (latin1_decode doc))) /\
  (forall p target_updates out,
      _save_with_text_replacement p target_updates doc = Some out ->
      utf8_decode out
        = Some (write_newlines p
                  (concat (patch_lines target_updates
                             (snd (read_document doc)))))) /\
  (forall p, exists out, _save_with_text_replacement p [] doc = Some out).
Proof.
  split; [|split].
  - unfold read_document.
    destruct (utf8_decode doc) as [text|]; [left|right]; cbn [fst snd].
    + split; [reflexivity|]. exists text. split; reflexivity.
    + repeat split.
  - intros p target_updates out H.
    unfold _save_with_text_replacement, write_document in H.
    exact (utf8_encode_decode _ H).
  - intros p. apply save_empty_total.
Qed.

End FrameClaims.

(** C10, witness: the value line of the sample record without its
    comment, inside the block of Z1 with an update pending for it. *)
Lemma line_without_comment_is_copied_witness :
  nth_error (run (build_map [zone_update]) initial
               (map text_line zone_rows_bare)) 2
    = Some (text_line "  100.0;", false) /\
  nth_error (patch_lines [zone_update] (map text_line zone_rows_bare)) 2
    = Some (text_line "  100.0;").
Proof.
  apply (@line_without_comment_is_copied ascii_db micro
           [zone_update] (map text_line zone_rows_bare) 2
           (text_line "  100.0;")); vm_compute; reflexivity.
Defined.

(** C3, witness: an ASCII document with LF line ends. *)
Lemma empty_update_set_keeps_the_lines_witness :
  _save_with_text_replacement Posix [] (file_of LF version_rows)
    = Some (file_of LF version_rows).
Proof.
  eapply (proj2 (proj2 (@empty_update_set_keeps_the_lines ascii_db micro
                          (file_of LF version_rows)))).
  - vm_compute. reflexivity.
  - vm_compute. reflexivity.
Defined.

(** C3, counterexample: with an empty Update Set the output file is not
    the input file for a CR LF document where the line separator is LF,
    for an LF document where it is CR LF, and for a Latin-1 document. *)
Lemma empty_update_set_changes_the_file :
  _save_with_text_replacement Posix [] (file_of CRLF version_rows)
    = Some (file_of LF version_rows) /\
  _save_with_text_replacement Windows [] (file_of LF version_rows)
    = Some (file_of CRLF version_rows) /\
  _save_with_text_replacement Posix [] latin1_comment
    = Some latin1_comment_as_utf8 /\
  file_of LF version_rows <> file_of CRLF version_rows /\
  latin1_comment_as_utf8 <> latin1_comment.
Proof.
  repeat split; try (vm_compute; reflexivity); vm_compute; discriminate.
Qed.

(** C8, counterexample: a Latin-1 document is read as Latin-1 and
    written as UTF-8; the bytes written are not the Latin-1 encoding of
    the lines written. *)
Lemma latin1_document_is_written_as_utf8 :
  fst (read_document latin1_comment) = Latin1 /\
  write_document Posix (patch_lines [] (snd (read_document latin1_comment)))
    = Some latin1_comment_as_utf8 /\
  encode (fst (read_document latin1_comment))
         (write_newlines Posix
            (concat (patch_lines [] (snd (read_document latin1_comment)))))
    = Some latin1_comment /\
  latin1_comment_as_utf8 <> latin1_comment.
Proof.
  repeat split; try (vm_compute; reflexivity); vm_compute; discriminate.
Qed.

Section StateClaims.
Context {U : Unicode} {P : PyFloat}.

(** C6, as amended. On a line read inside a block (one already open, or
    opened by the line itself) [current_name] is set exactly when the
    line holds the text [!- Name] somewhere, whatever follows it; the
    value is the part of the line before the first [!] with its commas
    and semicolons removed, stripped and upper-cased. On every other
    line of a block the name stays. *)
Theorem name_is_captured_where_the_marker_occurs
    (m : updates_map) (st : state) (line : str) :
  in_obj (open_block m st line) = true ->
  current_name (fst (fst (process_line m st line))) =
    if contains (lit "!- Name") line
    then Some (upper (strip (remove_char SEMI
                 (remove_char COMMA (item0 (split BANG line))))))
    else current_name (open_block m st line).
Proof.
  intros Hin.
  pose proof (process_line_name m (open_block m st line) line Hin) as N.
  assert (process_line m (open_block m st line) line = process_line m st line)
    as E.
  { unfold process_line.
    assert (open_block m (open_block m st line) line = open_block m st line)
      as -> by (unfold open_block at 1; now rewrite Hin).
    reflexivity. }
  now rewrite E in N.
Qed.

End StateClaims.

(** C6, witness: the name line of the sample record. *)
Lemma name_is_captured_where_the_marker_occurs_witness :
  current_name
    (fst (fst (process_line (build_map [zone_update])
                 {| current_type := Some (lit "ZONE");
                    current_name := Some (lit "N/A");
                    in_obj := true |}
                 (text_line "  Z1,      !- Name"))))
  = Some (lit "Z1").
Proof.
  rewrite (@name_is_captured_where_the_marker_occurs ascii_db micro);
    vm_compute; reflexivity.
Defined.

(** C6, counterexample. Inside a block whose name is Z1, a line whose
    label is "Name of External Interface" sets the name, though its
    label is not "Name"; a line whose label is "Name", written without
    the dash, does not set it. *)
Lemma name_capture_is_by_substring :
  comment_label
    (text_line "    PtolemyServer;           !- Name of External Interface")
    = lit "Name of External Interface" /\
  current_name
    (fst (fst (process_line (build_map [zone_update]) in_zone_z1
       (text_line
          "    PtolemyServer;           !- Name of External Interface"))))
    = Some (lit "PTOLEMYSERVER") /\
  comment_label (text_line "    Z9,           ! Name") = lit "Name" /\
  current_name
    (fst (fst (process_line (build_map [zone_update]) in_zone_z1
       (text_line "    Z9,           ! Name"))))
    = Some (lit "Z1").
Proof.
  vm_compute. repeat split.
Qed.

(** C9, as amended. The Active Field List is made of the declared
    labels up to and including the last one whose value is not blank,
    without the key label: a blank field before that last one is kept,
    the blank fields after it are dropped, and a number, 0 included, is
    never blank. For the instance with the values "A", "", 5, "", "" the
    list is field0, field1, field2, with or without the key in front,
    and it is the same list with a 0 in place of the blank field. *)
Theorem active_fields_reach_the_last_value :
  (forall (U : Unicode) (P : PyFloat) (obj : EpBunch),
      _get_active_fields obj =
        filter (fun f => negb (is_key f))
               (firstn (used_length (fieldvalues obj)) (fieldnames obj)) /\
      (forall n, is_blank (VInt n) = false) /\
      (forall x, is_blank (VFloat x) = false)) /\
  _get_active_fields five_fields
    = map lit ["field0"; "field1"; "field2"]%string /\
  _get_active_fields five_fields_keyed
    = map lit ["field0"; "field1"; "field2"]%string /\
  _get_active_fields
    {| fieldnames := fieldnames five_fields;
       fieldvalues := [ VStr (lit "A"); VInt 0; VInt 5; VStr []; VStr [] ] |}
    = map lit ["field0"; "field1"; "field2"]%string.
Proof.
  split.
  - intros U P obj. split; [apply get_active_fields_spec|].
    split; reflexivity.
  - vm_compute. repeat split.
Qed.

(** C9, counterexample: the list of the instance of the claim is not
    field0, field2. *)
Lemma active_fields_keep_inner_blank :
  _get_active_fields five_fields <> map lit ["field0"; "field2"]%string /\
  _get_active_fields five_fields_keyed <> map lit ["field0"; "field2"]%string.
Proof.
  split; vm_compute; discriminate.
Qed.


(** C2, as amended. Every line that the loop appends to [new_lines]
    without having rewritten it is the line of [lines] at the same
    position, as [readlines] returned it, and [new_lines] has as many
    lines as [lines]. When the document is valid UTF-8 without carriage
    returns and the line separator is LF, the file written is made of
    the encodings of the lines written, one for each line of the input
    file, and the encoding of a line that was not rewritten is the line
    of the input file at the same position, byte for byte, its LF
    included, whatever the Update Set. *)
Theorem unsubstituted_lines_are_copied :
  (forall (U : Unicode) (P : PyFloat)
          (target_updates : list update) (lines : list str) (i : nat)
          (out : str),
      nth_error (run (build_map target_updates) initial lines) i
        = Some (out, false) ->
      nth_error lines i = Some out /\
      nth_error (patch_lines target_updates lines) i = Some out /\
      length (patch_lines target_updates lines) = length lines) /\
  (forall (U : Unicode) (P : PyFloat)
          (target_updates : list update) (doc : bytes) (text : str)
          (out : bytes),
      utf8_decode doc = Some text ->
      has_char CR text = false ->
      _save_with_text_replacement Posix target_updates doc = Some out ->
      exists segs,
        out = concat segs /\
        Forall2 (fun l b => utf8_encode l = Some b)
          (patch_lines target_updates (snd (read_document doc))) segs /\
        length segs = length (byte_lines doc) /\
        forall i line,
          nth_error (run (build_map target_updates) initial
                       (snd (read_document doc))) i = Some (line, false) ->
          nth_error (byte_lines doc) i <> None /\
          nth_error segs i = nth_error (byte_lines doc) i).
Proof.
  split.
  - intros U P target_updates lines i out H.
    destruct (run_nth_inv _ _ _ _ H) as (line & Hl & Ho & Hf).
    assert (out = line) as ->.
    { rewrite <- Ho. apply process_line_unflagged. exact Hf. }
    repeat split.
    + exact Hl.
    + unfold patch_lines. rewrite nth_error_map, H. reflexivity.
    + unfold patch_lines. now rewrite length_map, run_length.
  - intros U P target_updates doc text out. apply untouched_bytes.
Qed.

(** C2, witness: the sample record with LF line ends and an update
    pending for its last line; its first two lines are not rewritten. *)
Lemma unsubstituted_lines_are_copied_witness :
  exists segs,
    file_of LF zone_rows_patched = concat segs /\
    Forall2 (fun l b => utf8_encode l = Some b)
      (patch_lines [zone_update]
         (snd (read_document (file_of LF zone_rows)))) segs /\
    length segs = length (byte_lines (file_of LF zone_rows)) /\
    forall i line,
      nth_error (run (build_map [zone_update]) initial
                   (snd (read_document (file_of LF zone_rows)))) i
        = Some (line, false) ->
      nth_error (byte_lines (file_of LF zone_rows)) i <> None /\
      nth_error segs i = nth_error (byte_lines (file_of LF zone_rows)) i.
Proof.
  apply (proj2 unsubstituted_lines_are_copied ascii_db micro
           [zone_update] (file_of LF zone_rows)
           (concat (map text_line zone_rows))
           (file_of LF zone_rows_patched)).
  - vm_compute. reflexivity.
  - vm_compute. reflexivity.
  - vm_compute. reflexivity.
Defined.

(** C2, counterexample: the first line of the sample record is not
    rewritten, yet on disk it is not the line of the input: a CR LF
    document comes out with LF where the line separator is LF, and an
    LF document with CR LF where it is CR LF. *)
Lemma untouched_line_changes_on_disk :
  nth_error (run (build_map [zone_update]) initial
               (snd (read_document (file_of CRLF zone_rows)))) 0
    = Some (text_line "Zone,", false) /\
  _save_with_text_replacement Posix [zone_update] (file_of CRLF zone_rows)
    = Some (file_of LF zone_rows_patched) /\
  nth_error (byte_lines (file_of CRLF zone_rows)) 0
    = Some (list_byte_of_string "Zone," ++ CRLF) /\
  nth_error (byte_lines (file_of LF zone_rows_patched)) 0
    = Some (list_byte_of_string "Zone," ++ LF) /\
  _save_with_text_replacement Windows [zone_update] (file_of LF zone_rows)
    = Some (file_of CRLF zone_rows_patched).
Proof.
  vm_compute. repeat split.
Qed.

(** C1. [execute_modification] returns the number of Update Requests it
    built, which the parsed model and the modifications determine: the
    document has no part in it, and nothing counts the lines rewritten.
    For the Lights object written on one line without comments the
    method returns 1 while the loop rewrites no line and the file comes
    out as it went in. *)
Theorem count_is_returned_without_substitution :
  (forall (U : Unicode) (P : PyFloat) (EP : Eppy)
          (p : platform) (idf : idfobjects) (doc : bytes)
          (modifications : list modification) (n : nat) (out : bytes),
      execute_modification p idf doc modifications = Some (n, out) ->
      n = requests_expected idf modifications /\
      exists target_updates,
        build_updates idf modifications = Some target_updates /\
        n = length target_updates) /\
  build_updates lights_model
    [scale_fields ["Watts per Zone Floor Area"]%string]
    = Some [watts_update] /\
  execute_modification Posix lights_model (file_of LF lights_rows_compact)
    [scale_fields ["Watts per Zone Floor Area"]%string]
    = Some (1, file_of LF lights_rows_compact) /\
  substitutions [watts_update]
    (snd (read_document (file_of LF lights_rows_compact))) = 0.
Proof.
  split.
  - intros U P EP p idf doc modifications n out H.
    split; [exact (execute_modification_count _ _ _ _ H)|].
    unfold execute_modification in H.
    destruct (build_updates idf modifications) as [ups|]; [|discriminate].
    destruct (_save_with_text_replacement p ups doc); [|discriminate].
    exists ups. split; [reflexivity|]. now injection H.
  - vm_compute. repeat split.
Qed.

(** C4, as amended. A matched line is rewritten with the value of the
    first pending label found in its own label, in one of two ways, and
    in no other. When the text before the comment is white space, a
    numeric token, white space and a comma or semicolon with whatever
    follows, the numeric token alone is replaced: the white space, the
    delimiter, what follows it and the comment stay. Every matched line
    of that shape is rewritten so, provided the tables of characters
    keep white space, the characters of numbers and the two delimiters
    apart, as Python's do, and what follows the delimiter holds no
    carriage return and no line feed, as in every line read. Otherwise,
    when the text before the comment holds a comma, everything before
    the first comma is replaced by four spaces and the value; and a
    matched line of neither kind is left as it is. Inside the block of
    type ZONE named Z1, with the Update Request
    (ZONE, Z1, "Some Field") = 80.0, the field line
    [  100.0;   !- Some Field] becomes [  80.0;   !- Some Field]; the
    record written on one line, [ZONE, Z1, 100.0, !- Some Field],
    becomes [    80.0, Z1, 100.0, !- Some Field]; and
    [execute_modification] on the record written one field to a line
    returns 1. *)
Theorem matched_line_is_rewritten_in_place :
  (forall (U : Unicode) (P : PyFloat) (m : updates_map) (st st' : state)
          (line line' : str),
      process_line m st line = (st', line', true) ->
      exists v,
        matched m st line v /\
        first_match (field_key_of line) (target_fields m st') = Some v /\
        (token_replaced v line line' \/
         re_match value_pattern
           (rstrip_crlf (slice_to (find BANG line) line)) = None /\
         segment_replaced v line line')) /\
  (forall (U : Unicode) (P : PyFloat) (m : updates_map) (st : state)
          (v : float) (ws num ws2 : str) (d : char)
          (tail junk comment : str),
      classes_apart ->
      matched m st
        (ws ++ num ++ ws2 ++ d :: tail ++ junk ++ BANG :: comment) v ->
      has_char BANG (ws ++ num ++ ws2 ++ d :: tail ++ junk) = false ->
      forallb isspace ws = true -> numeric_token num ->
      forallb isspace ws2 = true -> d = COMMA \/ d = SEMI ->
      existsb is_cr_or_lf tail = false ->
      forallb is_cr_or_lf junk = true ->
      snd (fst (process_line m st
             (ws ++ num ++ ws2 ++ d :: tail ++ junk ++ BANG :: comment)))
        = ws ++ repr v ++ ws2 ++ d :: tail ++ BANG :: comment /\
      snd (process_line m st
             (ws ++ num ++ ws2 ++ d :: tail ++ junk ++ BANG :: comment))
        = true) /\
  (forall (U : Unicode) (P : PyFloat) (m : updates_map) (st : state)
          (v : float) (content comment : str),
      matched m st (content ++ BANG :: comment) v ->
      has_char BANG content = false ->
      re_match value_pattern (rstrip_crlf content) = None ->
      (forall seg rest,
          content = seg ++ COMMA :: rest -> has_char COMMA seg = false ->
          process_line m st (content ++ BANG :: comment)
          = (state_in_block m st (content ++ BANG :: comment),
             lit "    " ++ repr v ++ COMMA :: rest ++ BANG :: comment,
             true)) /\
      (has_char COMMA content = false ->
       process_line m st (content ++ BANG :: comment)
       = (state_in_block m st (content ++ BANG :: comment),
          content ++ BANG :: comment, false))) /\
  snd (fst (process_line (build_map [zone_update]) in_zone_z1
              (text_line "  100.0;   !- Some Field")))
    = text_line "  80.0;   !- Some Field" /\
  snd (fst (process_line (build_map [zone_update]) in_zone_z1 zone_record))
    = text_line "    80.0, Z1, 100.0, !- Some Field" /\
  execute_modification Posix zone_model (file_of LF zone_rows)
    [zone_modification]
    = Some (1, file_of LF zone_rows_patched).
Proof.
  split; [|split; [|split]].
  - intros U P m st st' line line' H.
    destruct (process_line_hit _ _ _ H) as (B & v & F & S).
    destruct (hit_is_matched _ _ _ H) as (_ & v' & M & S').
    assert (v' = v) as ->.
    { destruct (hit_is_matched _ _ _ H) as (E & _).
      destruct M as (_ & _ & _ & F'). rewrite <- E in F'. congruence. }
    exists v. split; [exact M|]. split; [exact F|].
    exact (substitute_cases v line B S).
  - intros U P m st v ws num ws2 d tail junk comment A M B
           Hws Hnum Hws2 Hd Ht Hj.
    rewrite (matched_line M).
    rewrite (substitute_token A v ws ws2 tail junk comment B Hws Hnum Hws2
               Hd Ht Hj).
    split; reflexivity.
  - intros U P m st v content comment M B R. split.
    + intros seg rest -> Hs. rewrite (matched_line M).
      replace ((seg ++ COMMA :: rest) ++ BANG :: comment)
        with (seg ++ COMMA :: rest ++ BANG :: comment)
        by (now rewrite <- app_assoc, <- app_comm_cons).
      now rewrite (substitute_segment v seg rest comment Hs B R).
    + intros Hc. rewrite (matched_line M).
      now rewrite (substitute_none v content comment Hc B R).
  - vm_compute. repeat split.
Qed.

(** C4, witness: the field line of the sample record, read inside the
    block of Z1. *)
Lemma matched_line_is_rewritten_in_place_witness :
  snd (fst (process_line (build_map [zone_update]) in_zone_z1
              (lit "  " ++ lit "100.0" ++ [] ++ SEMI :: lit "   " ++ []
                 ++ BANG :: text_line "- Some Field")))
    = lit "  " ++ repr 80000000%Z ++ [] ++ SEMI :: lit "   "
        ++ BANG :: text_line "- Some Field" /\
  snd (process_line (build_map [zone_update]) in_zone_z1
         (lit "  " ++ lit "100.0" ++ [] ++ SEMI :: lit "   " ++ []
            ++ BANG :: text_line "- Some Field"))
    = true.
Proof.
  apply (proj1 (proj2 matched_line_is_rewritten_in_place) ascii_db micro
           (build_map [zone_update]) in_zone_z1 80000000%Z
           (lit "  ") (lit "100.0") [] SEMI (lit "   ") []
           (text_line "- Some Field")).
  - exact ascii_classes_apart.
  - repeat split; vm_compute; reflexivity.
  - vm_compute. reflexivity.
  - vm_compute. reflexivity.
  - exists [], (lit "100"), [FULL_STOP], (lit "0"), [].
    repeat split; try (vm_compute; reflexivity); try discriminate.
    + now left.
    + now right.
    + now left.
  - reflexivity.
  - now right.
  - vm_compute. reflexivity.
  - reflexivity.
Defined.

(** C4, counterexample: inside the block of ZONE named Z1 the record
    of the claim does not become [ZONE, Z1, 80.0, !- Some Field]; its
    type token is replaced, not its third value. Read as a document of
    its own it is not rewritten at all, its name never being read. *)
Lemma single_line_record_loses_its_type_token :
  process_line (build_map [zone_update]) in_zone_z1 zone_record
    = (in_zone_z1, text_line "    80.0, Z1, 100.0, !- Some Field", true) /\
  text_line "    80.0, Z1, 100.0, !- Some Field"
    <> text_line "ZONE, Z1, 80.0, !- Some Field" /\
  patch_lines [zone_update] [zone_record] = [zone_record].
Proof.
  repeat split; try (vm_compute; reflexivity); vm_compute; discriminate.
Qed.

(** C5, as amended. Two labels that differ by case, by space
    characters and by underscores only are one label for the patcher:
    a pending label gives its value on a line whose comment holds the
    other as its label, and each can stand for the other as pending
    label and as label of a comment. Two such labels of ASCII
    characters also name the same attribute when the Update Set is
    built. A request for "Watts per Zone Floor Area" rewrites the line
    whose comment is [!- Watts_per_Zone_Floor_Area], and the label
    written in lower case with spaces names the attribute
    Watts_per_Zone_Floor_Area. Nothing but the space character and the
    underscore is left out of a label, a tab is not. *)
Theorem labels_match_up_to_case_spaces_and_underscores :
  (forall (U : Unicode) (P : PyFloat),
      upper_by_char ->
      forall a b : str,
        alike a b ->
        (forall (line : str) (v : float) (d : fields_map),
            comment_label line = b ->
            first_match (field_key_of line) ((upper a, v) :: d) = Some v) /\
        (forall (key : str) (v : float) (d : fields_map),
            first_match key ((upper a, v) :: d)
            = first_match key ((upper b, v) :: d)) /\
        (forall d : fields_map,
            first_match (upper a) d = first_match (upper b) d)) /\
  (forall (U : Unicode),
      ascii_tables ->
      forall a b : str,
        forallb is_ascii a = true -> variant a b ->
        (forall attrs : list str,
            find_attr (normalize a) attrs = find_attr (normalize b) attrs) /\
        (forall attrs : list str,
            find_attr (normalize a) (b :: attrs) = Some b)) /\
  process_line (build_map [watts_update_spaced]) in_office_lights
    (text_line "    10.0,                    !- Watts_per_Zone_Floor_Area")
    = (in_office_lights,
       text_line "    8.0,                    !- Watts_per_Zone_Floor_Area",
       true) /\
  find_attr (normalize (strip (lit "watts per zone floor area")))
    (fieldnames lights_object)
    = Some (lit "Watts_per_Zone_Floor_Area").
Proof.
  split; [|split].
  - intros U P C a b V. pose proof (alike_form C V) as H1.
    repeat split.
    + intros line v d L. apply first_match_head.
      rewrite field_key_of_label, L, H1. apply contains_refl.
    + intros key v d. cbn [first_match]. now rewrite H1.
    + intros d. now apply first_match_key.
  - intros U T a b A V. destruct (variant_forms T A V) as [_ H2].
    split.
    + intros attrs. now rewrite H2.
    + intros attrs. now apply find_attr_head.
  - vm_compute. repeat split.
Qed.

(** C5, witness: the label of the claim as pending label, on a line
    whose comment holds the label written with underscores. *)
Lemma labels_match_up_to_case_spaces_and_underscores_witness :
  first_match
    (field_key_of
       (text_line "    10.0,          !- Watts_per_Zone_Floor_Area"))
    [(@upper ascii_db (lit "Watts per Zone Floor Area"), 8000000%Z)]
  = Some 8000000%Z.
Proof.
  refine (proj1
    (proj1 labels_match_up_to_case_spaces_and_underscores
       ascii_db micro ascii_db_upper_by_char
       (lit "Watts per Zone Floor Area") (lit "Watts_per_Zone_Floor_Area")
       _)
    (text_line "    10.0,          !- Watts_per_Zone_Floor_Area")
    8000000%Z [] _).
  - apply (A_step (b := lit "Watts_per Zone Floor Area")).
    { exact (A_swap (lit "Watts") (lit "per Zone Floor Area")
               (or_introl eq_refl) (or_intror eq_refl)). }
    apply (A_step (b := lit "Watts_per_Zone Floor Area")).
    { exact (A_swap (lit "Watts_per") (lit "Zone Floor Area")
               (or_introl eq_refl) (or_intror eq_refl)). }
    apply (A_step (b := lit "Watts_per_Zone_Floor Area")).
    { exact (A_swap (lit "Watts_per_Zone") (lit "Floor Area")
               (or_introl eq_refl) (or_intror eq_refl)). }
    apply (A_step (b := lit "Watts_per_Zone_Floor_Area")).
    { exact (A_swap (lit "Watts_per_Zone_Floor") (lit "Area")
               (or_introl eq_refl) (or_intror eq_refl)). }
    apply A_same.
  - vm_compute. reflexivity.
Defined.

(** C5, counterexample: a tab is white space, yet a label with a tab
    in the place of a space is another label. The pending label
    "Watts per Zone Floor Area" is not found on the line whose comment
    holds the label with a tab, which is left as it is, and the label
    with a tab names no attribute of the Lights object. With a space in
    the place of the tab the same line is rewritten. *)
Lemma tab_in_a_label_is_kept :
  ascii_isspace TAB = true /\
  comment_label tabbed_line = tabbed_label /\
  first_match (field_key_of tabbed_line)
    (target_fields (build_map [watts_update_spaced]) in_office_lights)
    = None /\
  process_line (build_map [watts_update_spaced]) in_office_lights
    tabbed_line
    = (in_office_lights, tabbed_line, false) /\
  find_attr (normalize (strip tabbed_label)) (fieldnames lights_object)
    = None /\
  process_line (build_map [watts_update_spaced]) in_office_lights
    (text_line "    10.0,                    !- Watts per Zone Floor Area")
    = (in_office_lights,
       text_line "    8.0,                    !- Watts per Zone Floor Area",
       true).
Proof.
  vm_compute. repeat split.
Qed.

Section UpdateSetClaims.
Context {U : Unicode} {P : PyFloat}.

(** C7, as amended. A field whose value is a string that is not empty
    and that [float] refuses yields no Update Request, and the requests
    of the object are those of its other fields, so it is not counted
    and the fields after it are still dealt with. Its line in the
    document is left as it is unless the label of a request of the same
    object is found in its label: a line is not rewritten when no
    pending label of the current type and name is contained in the
    label of its comment. A field whose value is the empty string is
    taken as 0.0: it yields the Update Request of [round(0.0 * coef, 6)].
    A matched line whose value is blank before a comma is rewritten as
    four spaces, the value and what followed the blank; one whose blank
    value ends the record, with a semicolon and no comma before the
    comment, is left as it is. *)
Theorem unparseable_field_is_skipped :
  (forall (obj_type : str) (coef : float) (obj : EpBunch) (field : str)
          (target_attr : str) (s : str),
      find_attr (normalize (strip field)) (fieldnames obj)
        = Some target_attr ->
      target_attr <> [] ->
      getattr obj target_attr (VInt 0) = VStr s ->
      (s <> [] -> float_of_str s = None ->
         field_requests obj_type coef obj field = Some [] /\
         forall before after,
           gather (field_requests obj_type coef obj)
                  (before ++ field :: after)
           = gather (field_requests obj_type coef obj) (before ++ after)) /\
      (s = [] ->
         forall name,
           getattr obj (lit "Name") (VStr (lit "N/A")) = VStr name ->
           field_requests obj_type coef obj field
           = Some [ {| u_type := obj_type; u_name := name;
                       u_field := target_attr;
                       u_value := round6_mul fzero coef |} ])) /\
  (forall (target_updates : list update) (st : state) (line : str),
      (forall u, In u target_updates ->
         current_type (state_in_block (build_map target_updates) st line)
           = Some (upper (u_type u)) ->
         current_name (state_in_block (build_map target_updates) st line)
           = Some (upper (u_name u)) ->
         contains (squeeze (upper (u_field u)))
                  (squeeze (upper (comment_label line))) = false) ->
      snd (fst (process_line (build_map target_updates) st line)) = line /\
      snd (process_line (build_map target_updates) st line) = false) /\
  (forall (m : updates_map) (st : state) (v : float)
          (ws rest comment : str),
      classes_apart ->
      forallb isspace ws = true ->
      (matched m st (ws ++ COMMA :: rest ++ BANG :: comment) v ->
       has_char BANG (ws ++ COMMA :: rest) = false ->
       process_line m st (ws ++ COMMA :: rest ++ BANG :: comment)
       = (state_in_block m st (ws ++ COMMA :: rest ++ BANG :: comment),
          lit "    " ++ repr v ++ COMMA :: rest ++ BANG :: comment,
          true)) /\
      (matched m st ((ws ++ SEMI :: rest) ++ BANG :: comment) v ->
       has_char BANG (ws ++ SEMI :: rest) = false ->
       has_char COMMA rest = false ->
       process_line m st ((ws ++ SEMI :: rest) ++ BANG :: comment)
       = (state_in_block m st ((ws ++ SEMI :: rest) ++ BANG :: comment),
          (ws ++ SEMI :: rest) ++ BANG :: comment, false))).
Proof.
  split; [|split].
  - intros obj_type coef obj field target_attr s F Ne G.
    assert (forall v, to_float (VStr s) = v ->
              field_requests obj_type coef obj field =
                match v with
                | Number val_num =>
                    match getattr obj (lit "Name") (VStr (lit "N/A")) with
                    | VStr name =>
                        Some [ {| u_type := obj_type; u_name := name;
                                  u_field := target_attr;
                                  u_value := round6_mul val_num coef |} ]
                    | _ => None
                    end
                | ValueError => Some []
                | TypeError | OverflowError => None
                end) as R.
    { intros v <-. unfold field_requests. rewrite F.
      destruct target_attr as [|c a]; [congruence|]. rewrite G.
      reflexivity. }
    split.
    + intros Hs Hf.
      assert (field_requests obj_type coef obj field = Some []) as E.
      { rewrite (R ValueError); [reflexivity|].
        destruct s as [|c s']; [congruence|]. cbn [to_float].
        now rewrite Hf. }
      split; [exact E|]. intros before after. now apply gather_skip.
    + intros -> name Hn. rewrite (R (Number fzero) eq_refl), Hn.
      reflexivity.
  - intros target_updates st line H. apply line_kept_in_block.
    intros u Iu T N. rewrite field_key_of_label. now apply (H u Iu).
  - intros m st v ws rest comment A Hws. split.
    + intros M B. rewrite (matched_line M).
      now rewrite (blank_before_comma A v ws rest comment Hws B).
    + intros M B Hc. rewrite (matched_line M).
      now rewrite (blank_before_semicolon A v ws rest comment Hws Hc B).
Qed.

End UpdateSetClaims.

(** C7, witness: the schedule name of the Lights object, a text that is
    no number; with the request for the floor-area density pending, its
    line is left as it is. *)
Lemma unparseable_field_is_skipped_witness :
  (field_requests (lit "LIGHTS") 800000%Z lights_object (lit "Schedule Name")
     = Some [] /\
   forall before after,
     gather (field_requests (lit "LIGHTS") 800000%Z lights_object)
            (before ++ lit "Schedule Name" :: after)
     = gather (field_requests (lit "LIGHTS") 800000%Z lights_object)
              (before ++ after)) /\
  (snd (fst (process_line (build_map [watts_update]) in_office_lights
               (text_line "    Lights Schedule,         !- Schedule Name")))
     = text_line "    Lights Schedule,         !- Schedule Name" /\
   snd (process_line (build_map [watts_update]) in_office_lights
          (text_line "    Lights Schedule,         !- Schedule Name"))
     = false).
Proof.
  split.
  - assert (find_attr (normalize (strip (lit "Schedule Name")))
              (fieldnames lights_object) = Some (lit "Schedule_Name")) as F
      by (vm_compute; reflexivity).
    assert (lit "Schedule_Name" <> []) as Ne by (vm_compute; discriminate).
    assert (getattr lights_object (lit "Schedule_Name") (VInt 0)
            = VStr (lit "Lights Schedule")) as G
      by (vm_compute; reflexivity).
    apply (proj1 (proj1 (@unparseable_field_is_skipped ascii_db micro)
                    (lit "LIGHTS") 800000%Z lights_object
                    (lit "Schedule Name") (lit "Schedule_Name")
                    (lit "Lights Schedule") F Ne G)).
    + vm_compute. discriminate.
    + vm_compute. reflexivity.
  - apply (proj1 (proj2 (@unparseable_field_is_skipped ascii_db micro))
             [watts_update] in_office_lights
             (text_line "    Lights Schedule,         !- Schedule Name")).
    intros u [<-|[]] _ _. vm_compute. reflexivity.
Defined.

(** C7, counterexample. The lighting level of the Lights object is the
    empty string: a request of value 0.0 is built for it, it is counted,
    and the blank field of the document is rewritten as 0.0. The
    schedule name of the People object is a text: no request is built
    for it and it is not counted, yet its line is rewritten with the
    value of the request for the number of people, whose label begins
    its own, and so is the line of the calculation method. A blank
    lighting level that ends its record is counted too, and there the
    file comes out as it went in. *)
Lemma skipped_and_empty_fields_are_rewritten :
  getattr lights_object (lit "Lighting_Level") (VInt 0) = VStr [] /\
  field_requests (lit "LIGHTS") 800000%Z lights_object (lit "Lighting Level")
    = Some [level_update] /\
  execute_modification Posix lights_model (file_of LF lights_rows)
    [scale_fields ["Lighting Level"]%string]
    = Some (1, file_of LF lights_rows_zeroed) /\
  field_requests (lit "PEOPLE") 800000%Z people_object
    (lit "Number of People Schedule Name") = Some [] /\
  build_updates people_model [people_modification] = Some [people_update] /\
  execute_modification Posix people_model (file_of LF people_rows)
    [people_modification]
    = Some (1, file_of LF people_rows_patched) /\
  nth_error people_rows 3
    = Some
        "    Occupancy,               !- Number of People Schedule Name"%string
  /\
  nth_error people_rows_patched 3
    = Some
        "    8.0,               !- Number of People Schedule Name"%string /\
  execute_modification Posix level_model (file_of LF level_rows)
    [scale_fields ["Lighting Level"]%string]
    = Some (1, file_of LF level_rows).
Proof.
  vm_compute. repeat split.
Qed.

(** * Further properties *)

Section PatcherExtras.
Context {U : Unicode} {P : PyFloat} {EP : Eppy}.

(** X1. Whatever the bytes of the document and whatever the Update Set,
    [_save_with_text_replacement] writes a file, provided the text
    written for a number is made of code points that UTF-8 can carry:
    neither the decoding, nor a line of any shape, nor the encoding of
    the result makes it fail. *)
Theorem patcher_always_writes_a_file
    (p : platform) (target_updates : list update) (doc : bytes) :
  (forall v : float, Forall scalar (repr v)) ->
  exists out, _save_with_text_replacement p target_updates doc = Some out.
Proof.
  intros R. exact (save_total R p target_updates doc).
Qed.

(** X2. On a parsed model none of whose values is [None] or an integer
    too large for a float, and whose object names are strings,
    [execute_modification] returns, with the number of requests as its
    count, whatever the modifications ask for: an object type or a
    field that does not exist and a text that is no number are passed
    over without an exception. *)
Theorem execute_modification_returns
    (p : platform) (idf : idfobjects) (doc : bytes)
    (modifications : list modification) :
  well_formed_model idf ->
  (forall v : float, Forall scalar (repr v)) ->
  exists out,
    execute_modification p idf doc modifications
    = Some (requests_expected idf modifications, out).
Proof.
  intros W R. exact (execute_modification_total p doc modifications W R).
Qed.

(** X3. When no line of the document has a pending object type as its
    first token, and no request is for a type called UNKNOWN, no line
    is rewritten: the lines written are the lines read. *)
Theorem absent_types_leave_the_lines_unchanged
    (target_updates : list update) (lines : list str) :
  dict_mem (lit "UNKNOWN") (build_map target_updates) = false ->
  (forall line, In line lines ->
     dict_mem (first_token line) (build_map target_updates) = false) ->
  patch_lines target_updates lines = lines /\
  substitutions target_updates lines = 0.
Proof.
  intros Hu Hl. unfold patch_lines, substitutions.
  rewrite (run_idle_types _ lines Hu Hl initial eq_refl).
  rewrite map_map. cbn [fst]. rewrite map_id. split; [reflexivity|].
  induction lines as [|l ls IH]; [reflexivity|].
  cbn [map filter snd]. apply IH. intros line H. apply Hl. now right.
Qed.

(** X4. When no request is for the name N/A and no line that holds the
    text [!- Name] gives a name for which a request is pending, no line
    is rewritten: a request for an instance that the document does not
    hold changes nothing. *)
Theorem absent_names_leave_the_lines_unchanged
    (target_updates : list update) (lines : list str) :
  name_pending (build_map target_updates) (lit "N/A") = false ->
  (forall line, In line lines ->
     contains (lit "!- Name") line = true ->
     name_pending (build_map target_updates) (name_token line) = false) ->
  patch_lines target_updates lines = lines /\
  substitutions target_updates lines = 0.
Proof.
  intros Hn Hl. unfold patch_lines, substitutions.
  rewrite (run_absent_names _ lines Hn Hl initial I).
  rewrite map_map. cbn [fst]. rewrite map_id. split; [reflexivity|].
  clear Hl. induction lines as [|l ls IH]; [reflexivity|exact IH].
Qed.

(** X5. The value that the Update Set holds for a type, a name and a
    field, compared after upper-casing, is the value of the last
    request for them, and there is none when no request is for them;
    no key occurs twice at any of the three levels of the map. *)
Theorem last_request_wins
    (target_updates : list update) (t n f : str) :
  lookup3 (build_map target_updates) t n f
  = option_map (@u_value float)
      (List.find (request_for t n f) (rev target_updates)) /\
  well_keyed (build_map target_updates).
Proof.
  split; [|apply build_map_well_keyed].
  unfold build_map. rewrite lookup3_fold.
  destruct (List.find _ _); reflexivity.
Qed.

(** X6. Inside a block whose type is not pending, no line is rewritten
    as long as no line has a semicolon before its comment: after a
    record whose semicolon is missing, the records that follow are read
    as part of it and are left as they are, whatever their type. *)
Theorem unclosed_block_swallows_what_follows
    (m : updates_map) (st : state) (lines : list str) :
  in_obj st = true ->
  type_pending m (current_type st) = false ->
  (forall l, In l lines -> has_char SEMI (item0 (split BANG l)) = false) ->
  run m st lines = map (fun l => (l, false)) lines /\
  current_type (state_after m st lines) = current_type st /\
  in_obj (state_after m st lines) = true.
Proof.
  intros Hin Ht Hl. split.
  - exact (run_in_idle_block m lines Hl st Hin Ht).
  - exact (state_after_in_block m lines Hl st Hin).
Qed.

(** X7. Where the line separator is LF, a file that the patcher wrote
    is written back unchanged by the patcher with an empty Update Set,
    provided the text written for a number holds no carriage return:
    the output is UTF-8 with LF line ends, which the patcher keeps. *)
Theorem output_is_kept_by_the_empty_patch
    (target_updates : list update) (doc out : bytes) :
  (forall v : float, Forall not_cr (repr v)) ->
  _save_with_text_replacement Posix target_updates doc = Some out ->
  _save_with_text_replacement Posix [] out = Some out.
Proof.
  intros R S.
  unfold _save_with_text_replacement, write_document in S.
  pose proof (utf8_encode_decode _ S) as D.
  refine (save_empty_utf8_posix out D _).
  rewrite write_newlines_posix. apply has_char_false.
  change (Forall not_cr
            (concat (patch_lines target_updates (snd (read_document doc))))).
  apply Forall_concat.
  assert (not_cr SPACE) as QS by (unfold not_cr, SPACE, CR; lia).
  apply (@patch_lines_keep U P not_cr QS R).
  apply Forall_concat. unfold read_document.
  destruct (utf8_decode doc); cbn [snd]; rewrite concat_lines_of;
    apply universal_newlines_not_cr.
Qed.

(** X16. Only a text that [float] refuses is passed over. When a field
    asked for names an attribute whose value is [None], or an integer
    too large for a float, the exception leaves [execute_modification]:
    nothing is returned and no file is written, whatever else was asked
    for. *)
Theorem conversion_error_aborts
    (p : platform) (idf : idfobjects) (doc : bytes)
    (modifications : list modification) (md : modification)
    (objs : list EpBunch) (obj : EpBunch) (field target_attr : str) :
  In md modifications ->
  idf_get (object_type md) idf = Some objs ->
  In obj objs -> In field (fields md) ->
  find_attr (normalize (strip field)) (fieldnames obj) = Some target_attr ->
  target_attr <> [] ->
  getattr obj target_attr (VInt 0) = VNone \/
  (exists n, getattr obj target_attr (VInt 0) = VInt n /\
             float_of_int n = None) ->
  execute_modification p idf doc modifications = None.
Proof.
  intros Im G Io If F Ne V.
  assert (field_requests (object_type md) (coef md) obj field = None) as R.
  { unfold field_requests. rewrite F.
    destruct target_attr as [|c a]; [congruence|].
    destruct V as [->|(n & -> & O)]; cbn [to_float]; [reflexivity|].
    now rewrite O. }
  unfold execute_modification, build_updates.
  rewrite (gather_none (mod_requests idf) md modifications Im);
    [reflexivity|].
  unfold mod_requests. rewrite G.
  apply (gather_none _ obj objs Io).
  exact (gather_none _ field (fields md) If R).
Qed.

End PatcherExtras.

Section IndexExtras.
Context {U : Unicode} {P : PyFloat} {EP : Eppy}.

(** X8. A type is a key of the summary exactly when the model holds at
    least one object of it; its entry then gives the number of these
    objects as count, which is never 0, and one name for each of them,
    N/A standing for an object that has no Name field. *)
Theorem summary_entry_counts_the_objects (idf : idfobjects) (t : str) :
  dict_get t (get_idf_object_summary idf)
  = match dict_get t idf with
    | Some (obj :: rest) =>
        Some {| count := S (length rest);
                all_names := map name_of (obj :: rest) |}
    | _ => None
    end /\
  forall e, dict_get t (get_idf_object_summary idf) = Some e ->
    0 < count e /\ length (all_names e) = count e.
Proof.
  rewrite summary_get. split.
  - destruct (dict_get t idf) as [[|obj rest]|]; reflexivity.
  - intros e H. destruct (dict_get t idf) as [[|obj rest]|];
      try discriminate.
    apply Some_eq in H. subst e. unfold entry_of. cbn [count all_names].
    rewrite length_map. cbn [length]. lia.
Qed.

(** X9. For a model whose types are distinct keys, the summary lists the
    types that have objects in the order of the model, the total of the
    counts is the number of objects of the model, and the number of
    entries is the number of types that have at least one object. *)
Theorem summary_totals (idf : idfobjects) :
  NoDup (map fst idf) ->
  map fst (get_idf_object_summary idf)
  = map fst (filter (fun e => (0 <? length (snd e))%nat) idf) /\
  total_objects (get_idf_object_summary idf)
  = list_sum (map (fun e => length (snd e)) idf) /\
  total_types (get_idf_object_summary idf)
  = length (filter (fun e => (0 <? length (snd e))%nat) idf).
Proof.
  intros N. rewrite (summary_list idf N).
  split; [|split].
  - clear N. induction idf as [|e l IH]; [reflexivity|].
    cbn [flat_map filter]. unfold summary_of_entry at 1.
    destruct (0 <? length (snd e))%nat; cbn [app map fst]; now rewrite IH.
  - apply total_objects_flat_map.
  - apply total_types_flat_map.
Qed.

(** X10. The sample of a type, asked for in whatever case, holds
    exactly the fields that [get_all_fields] returns for it, each with
    the value that the first object of the type has for it; the default
    of [getattr] is never what is stored. Both are empty when no key of
    the model is the type, the case of letters apart, or when the type
    has no object. *)
Theorem sample_holds_the_active_fields
    (idf : idfobjects) (object_type : str) (f : str) (d : fieldval) :
  dict_get f (get_object_sample idf object_type)
  = (if existsb (str_eqb f) (get_all_fields idf object_type)
     then option_map (fun obj => getattr obj f d)
            (first_object idf object_type)
     else None) /\
  (first_object idf object_type = None ->
   get_all_fields idf object_type = [] /\
   get_object_sample idf object_type = []).
Proof.
  unfold get_object_sample, get_all_fields, first_object.
  destruct (idf_get object_type idf) as [[|obj rest]|];
    try (split; [reflexivity|intros _; split; reflexivity]).
  split; [|discriminate].
  rewrite (fold_dict_set_get (fun g => getattr obj g (VStr []))).
  destruct (existsb (str_eqb f) (_get_active_fields obj)) eqn:E;
    [|reflexivity].
  cbn [option_map]. f_equal. apply getattr_declared.
  apply active_field_declared. now apply existsb_str_eqb_in.
Qed.

End IndexExtras.

Section BatchExtras.
Context {U : Unicode} {P : PyFloat} {EP : Eppy}.
Variable point_eight : float.
Variable creatable : str -> bool.

(** X11. [parse_coef] never returns an empty list, and never more
    coefficients than the text has commas plus one: the batch always
    has a case. *)
Theorem parse_coef_is_never_empty (s : str) :
  1 <= length (parse_coef point_eight s) <= S (commas s).
Proof.
  unfold parse_coef, commas.
  destruct (floats_of (split COMMA s)) as [l|] eqn:E.
  - rewrite (floats_of_length _ E), split_length. lia.
  - cbn [length]. lia.
Qed.

(** X12. When one of the pieces between the commas is no number, an
    empty piece included, [parse_coef] gives up all of them and returns
    the single coefficient 0.8. *)
Theorem parse_coef_falls_back (s x : str) :
  In x (split COMMA s) ->
  float_of_str (strip x) = None ->
  parse_coef point_eight s = [point_eight].
Proof.
  intros I B. unfold parse_coef. now rewrite (floats_of_bad _ x I B).
Qed.

(** X13. When every piece between the commas is a number,
    [parse_coef] returns these numbers in the order of the text, one
    for each piece, that is one more than the text has commas. *)
Theorem parse_coef_reads_every_piece (s : str) :
  (forall x, In x (split COMMA s) -> float_of_str (strip x) <> None) ->
  Forall2 (fun x v => float_of_str (strip x) = Some v)
          (split COMMA s) (parse_coef point_eight s) /\
  length (parse_coef point_eight s) = S (commas s).
Proof.
  intros G. unfold parse_coef, commas.
  destruct (floats_of_good _ G) as [l E]. rewrite E. split.
  - now apply floats_of_pieces.
  - rewrite (floats_of_length _ E). apply split_length.
Qed.

(** X14. On a parsed model none of whose values is [None] or an
    integer too large for a float, and whose object names are strings,
    the batch completes for every list of coefficients and every choice
    of fields, whatever the output directory holds, provided the file
    of each case can be created. Its results name one file for each
    coefficient, in their order, and every one of them has the same
    count, which the coefficient has no part in. *)
Theorem batch_reports_one_count
    (p : platform) (idf : idfobjects) (doc : bytes)
    (field_config : dict (list str)) (output_prefix : str)
    (coefficients : list float) (c0 : float) (before : dict bytes) :
  well_formed_model idf ->
  (forall v : float, Forall scalar (repr v)) ->
  (forall c, In c coefficients ->
     creatable (file_name_for output_prefix c) = true) ->
  exists files results,
    generate_cases creatable p idf doc field_config output_prefix
      coefficients before []
    = Some (files, results) /\
    map fst results = map (file_name_for output_prefix) coefficients /\
    map snd results
    = repeat (requests_expected idf (mods_for field_config c0))
             (length coefficients).
Proof.
  intros W R C.
  assert (exists r,
             generate_cases creatable p idf doc field_config output_prefix
               coefficients before [] = Some r) as [[files results] G].
  { apply generate_cases_total; [|exact C]. intros c _.
    destruct (execute_modification_total p doc (mods_for field_config c) W R)
      as [out E].
    eexists. exact E. }
  exists files, results. split; [exact G|].
  destruct (generate_cases_spec _ _ _ _ _ _ _ _ _ G) as [-> _].
  cbn [app]. rewrite !map_map. cbn [fst snd]. split; [reflexivity|].
  clear G C. induction coefficients as [|c cs IH]; [reflexivity|].
  cbn [map length repeat]. rewrite IH. f_equal.
  apply requests_expected_mods_for.
Qed.

(** X15. After a batch whose file names have no directory part, the
    output directory holds, under a name, the file of the last
    coefficient that gives this name, and under a name that no
    coefficient gives what it held before, the batch removing nothing:
    two coefficients with the same text are two results and one file,
    and the files of an earlier batch stay. *)
Theorem batch_file_is_of_the_last_case
    (p : platform) (idf : idfobjects) (doc : bytes)
    (field_config : dict (list str)) (output_prefix : str)
    (coefficients : list float)
    (before files : dict bytes) (results : list (str * nat)) (name : str) :
  (forall c, In c coefficients ->
     plain_name (file_name_for output_prefix c) = true) ->
  generate_cases creatable p idf doc field_config output_prefix
    coefficients before []
  = Some (files, results) ->
  length results = length coefficients /\
  dict_get name files
  = match List.find
            (fun c => str_eqb name (file_name_for output_prefix c))
            (rev coefficients) with
    | Some c =>
        option_map snd
          (execute_modification p idf doc (mods_for field_config c))
    | None => dict_get name before
    end.
Proof.
  intros _ G.
  destruct (generate_cases_spec _ _ _ _ _ _ _ _ _ G) as [-> F].
  cbn [app]. rewrite length_map. split; [reflexivity|].
  now rewrite F.
Qed.

End BatchExtras.

(** ** Instances *)

Ltac each_line :=
  repeat (apply Forall_cons;
          [vm_compute; intros; (reflexivity || congruence)|]);
  apply Forall_nil.

(** X1, witness: a document that is not valid UTF-8. *)
Lemma patcher_always_writes_a_file_witness :
  exists out,
    _save_with_text_replacement Windows [zone_update] latin1_comment
    = Some out.
Proof.
  apply (@patcher_always_writes_a_file ascii_db micro
           Windows [zone_update] latin1_comment).
  exact micro_repr_scalar.
Defined.

Ltac each_value :=
  repeat (apply Forall_cons;
          [split; [discriminate|];
           intros n E;
           first [discriminate E
                 |injection E as <-; vm_compute; discriminate]|]);
  apply Forall_nil.

Ltac one_object_model :=
  apply Forall_cons; [|apply Forall_nil]; cbn [snd];
  apply Forall_cons; [|apply Forall_nil];
  split; [each_value|eexists; vm_compute; reflexivity].

(** X2, witness: the type asked for in mixed case, a field that the
    Lights object does not have, a field whose value is a text, and a
    type that the model does not hold. *)
Lemma execute_modification_returns_witness :
  exists out,
    execute_modification Posix lights_model (file_of LF lights_rows)
      [scale_fields_mixed ["No Such Field"; "Schedule Name";
                           "Watts per Zone Floor Area"]%string;
       zone_modification]
    = Some (requests_expected lights_model
              [scale_fields_mixed ["No Such Field"; "Schedule Name";
                                   "Watts per Zone Floor Area"]%string;
               zone_modification], out).
Proof.
  apply (@execute_modification_returns ascii_db micro ascii_keys
           Posix lights_model (file_of LF lights_rows)
           [scale_fields_mixed ["No Such Field"; "Schedule Name";
                                "Watts per Zone Floor Area"]%string;
            zone_modification]).
  - one_object_model.
  - exact micro_repr_scalar.
Defined.

(** X16, witness: a Zone whose field holds the integer 2**1024. *)
Lemma conversion_error_aborts_witness :
  execute_modification Posix huge_model (file_of LF zone_rows)
    [zone_modification] = None.
Proof.
  apply (@conversion_error_aborts ascii_db micro ascii_keys
           Posix huge_model (file_of LF zone_rows) [zone_modification]
           zone_modification [huge_object] huge_object
           (lit "Some Field") (lit "Some_Field")).
  - now left.
  - vm_compute. reflexivity.
  - now left.
  - now left.
  - vm_compute. reflexivity.
  - discriminate.
  - right. exists (2 ^ 1024)%Z. split; vm_compute; reflexivity.
Defined.

(** X3, witness: a request for a Zone and the lines of the Lights
    object. *)
Lemma absent_types_leave_the_lines_unchanged_witness :
  patch_lines [zone_update] (map text_line lights_rows)
  = map text_line lights_rows /\
  substitutions [zone_update] (map text_line lights_rows) = 0.
Proof.
  apply (@absent_types_leave_the_lines_unchanged ascii_db micro
           [zone_update] (map text_line lights_rows)).
  - vm_compute. reflexivity.
  - apply Forall_forall. each_line.
Defined.

(** X4, witness: a request for the Zone Z2 and the lines of the Zone
    Z1. *)
Lemma absent_names_leave_the_lines_unchanged_witness :
  patch_lines [zone_update_z2] (map text_line zone_rows)
  = map text_line zone_rows /\
  substitutions [zone_update_z2] (map text_line zone_rows) = 0.
Proof.
  apply (@absent_names_leave_the_lines_unchanged ascii_db micro
           [zone_update_z2] (map text_line zone_rows)).
  - vm_compute. reflexivity.
  - apply (proj1 (Forall_forall
       (fun line =>
          contains (lit "!- Name") line = true ->
          name_pending (build_map [zone_update_z2]) (name_token line)
          = false)
       (map text_line zone_rows))).
    each_line.
Defined.

(** X9, witness: a model with a type that has no object. *)
Lemma summary_totals_witness :
  map fst (get_idf_object_summary two_type_model)
  = map fst (filter (fun e => (0 <? length (snd e))%nat) two_type_model) /\
  total_objects (get_idf_object_summary two_type_model)
  = list_sum (map (fun e => length (snd e)) two_type_model) /\
  total_types (get_idf_object_summary two_type_model)
  = length (filter (fun e => (0 <? length (snd e))%nat) two_type_model).
Proof.
  apply (@summary_totals micro two_type_model).
  repeat constructor; vm_compute; intros H;
    repeat (destruct H as [H|H]; [discriminate H|]); destruct H.
Defined.

(** X7, witness: the Zone record with CR LF line ends; the file
    written for it has LF line ends and is kept as it is. *)
Lemma output_is_kept_by_the_empty_patch_witness :
  _save_with_text_replacement Posix [] (file_of LF zone_rows_patched)
  = Some (file_of LF zone_rows_patched).
Proof.
  apply (@output_is_kept_by_the_empty_patch ascii_db micro
           [zone_update] (file_of CRLF zone_rows)
           (file_of LF zone_rows_patched)).
  - exact micro_repr_not_cr.
  - vm_compute. reflexivity.
Defined.

(** X6, witness: after a Schedule record whose semicolon is missing
    the Zone record is not seen, and its field, for which a request is
    pending, is left as it is. *)
Lemma unclosed_block_swallows_what_follows_witness :
  run (build_map [zone_update]) in_schedule_block
      (map text_line unclosed_rows)
  = map (fun l => (l, false)) (map text_line unclosed_rows) /\
  current_type (state_after (build_map [zone_update]) in_schedule_block
                  (map text_line unclosed_rows))
  = current_type in_schedule_block /\
  in_obj (state_after (build_map [zone_update]) in_schedule_block
            (map text_line unclosed_rows)) = true.
Proof.
  apply (@unclosed_block_swallows_what_follows ascii_db micro
           (build_map [zone_update]) in_schedule_block
           (map text_line unclosed_rows)).
  - reflexivity.
  - vm_compute. reflexivity.
  - apply Forall_forall. each_line.
Defined.

(** X12, witness: a comma at the end leaves an empty piece. *)
Lemma parse_coef_falls_back_witness :
  parse_coef 800000%Z (lit "0.5,1.2,") = [800000%Z].
Proof.
  apply (@parse_coef_falls_back ascii_db micro 800000%Z
           (lit "0.5,1.2,") []).
  - vm_compute. right. right. left. reflexivity.
  - vm_compute. reflexivity.
Defined.

(** X13, witness: two numbers, the second after a space. *)
Lemma parse_coef_reads_every_piece_witness :
  Forall2 (fun x v => float_of_str (strip x) = Some v)
          (split COMMA (lit "0.5, 1.2"))
          (parse_coef 800000%Z (lit "0.5, 1.2")) /\
  length (parse_coef 800000%Z (lit "0.5, 1.2"))
  = S (commas (lit "0.5, 1.2")).
Proof.
  apply (@parse_coef_reads_every_piece ascii_db micro 800000%Z
           (lit "0.5, 1.2")).
  apply Forall_forall. each_line.
Defined.

(** X14, witness: the Lights object and the coefficients 0.5 and 1.2,
    in a directory that holds the files of an earlier batch. *)
Lemma batch_reports_one_count_witness :
  exists files results,
    generate_cases plain_name Posix lights_model
      (file_of LF lights_rows)
      lights_config case_prefix [500000%Z; 1200000%Z] earlier_files []
    = Some (files, results) /\
    map fst results
    = map (file_name_for case_prefix) [500000%Z; 1200000%Z] /\
    map snd results
    = repeat (requests_expected lights_model
                (mods_for lights_config 800000%Z))
             (length [500000%Z; 1200000%Z]).
Proof.
  apply (@batch_reports_one_count ascii_db micro ascii_keys
           plain_name
           Posix lights_model (file_of LF lights_rows)
           lights_config case_prefix [500000%Z; 1200000%Z] 800000%Z
           earlier_files).
  - one_object_model.
  - exact micro_repr_scalar.
  - apply Forall_forall. each_line.
Defined.

(** X15, witness: the coefficient 0.8 given twice, in a directory that
    holds the files of an earlier batch for 0.5 and 0.8; the file of
    0.5 stays as it was. *)
Lemma batch_file_is_of_the_last_case_witness :
  length [(lit "Case_0.8.idf", 1); (lit "Case_0.8.idf", 1)]
  = length [800000%Z; 800000%Z] /\
  dict_get (lit "Case_0.5.idf")
    [(lit "Case_0.5.idf", file_of LF zone_rows);
     (lit "Case_0.8.idf", file_of LF zone_rows_patched)]
  = match List.find
            (fun c => str_eqb (lit "Case_0.5.idf")
                        (file_name_for case_prefix c))
            (rev [800000%Z; 800000%Z]) with
    | Some c =>
        option_map snd
          (execute_modification Posix zone_model (file_of LF zone_rows)
             (mods_for zone_config c))
    | None => dict_get (lit "Case_0.5.idf") earlier_files
    end.
Proof.
  apply (@batch_file_is_of_the_last_case ascii_db micro ascii_keys
           plain_name
           Posix zone_model (file_of LF zone_rows) zone_config case_prefix
           [800000%Z; 800000%Z] earlier_files
           [(lit "Case_0.5.idf", file_of LF zone_rows);
            (lit "Case_0.8.idf", file_of LF zone_rows_patched)]
           [(lit "Case_0.8.idf", 1); (lit "Case_0.8.idf", 1)]
           (lit "Case_0.5.idf")).
  - apply Forall_forall. each_line.
  - vm_compute. reflexivity.
Defined.
